(** * stress-ng orchestrator: a shallow embedding of stress-ng.c

    The definitions follow the order of the source file: exit codes
    and machine integers, the per-instance data, the stressor list and
    the kill escalation, the classification of a reaped child, the
    checksum slot with the child run path and the post-run validation
    pass, the auxiliary metrics, the shared mappings, the permutation
    regime and the final exit code. The properties come after them. *)

From Stdlib Require Import String ZArith List Bool Lia.
From Stdlib Require Import Reals Lra.
Import ListNotations.

Local Open Scope Z_scope.

(** ** Exit codes, signals and fixed-width integers *)

(** Modelled from the spec: stress-ng.h is not part of the sources at
    hand; the exit codes are those of the exit code table of the
    command line interface. *)
Definition EXIT_SUCCESS : Z := 0.
Definition EXIT_FAILURE : Z := 1.
Definition EXIT_NOT_SUCCESS : Z := 2.
Definition EXIT_NO_RESOURCE : Z := 3.
Definition EXIT_NOT_IMPLEMENTED : Z := 4.
Definition EXIT_SIGNALED : Z := 5.
Definition EXIT_BY_SYS_EXIT : Z := 6.
Definition EXIT_METRICS_UNTRUSTWORTHY : Z := 7.

(** Signal numbers of <signal.h> on Linux. *)
Definition SIGKILL : Z := 9.
Definition SIGALRM : Z := 14.

(** uint32_t, uint64_t and size_t arithmetic wraps around. *)
Definition wrap32 (z : Z) : Z := z mod 2 ^ 32.
Definition wrap64 (z : Z) : Z := z mod 2 ^ 64.

(** A C int that wraps in two's complement, as the usual targets
    compile a signed increment. *)
Definition wrap_int (z : Z) : Z := (z + 2 ^ 31) mod 2 ^ 32 - 2 ^ 31.

(** ** Per-instance data *)

(** stress_counter_info_t, the [ci] block of a stats slot. *)
Record stress_counter_info_t := mk_ci {
  ci_counter : Z;            (* uint64_t bogo-op counter *)
  ci_counter_ready : bool;
  ci_run_ok : bool;
  ci_force_killed : bool
}.

(** stress_checksum_t: [data.ci.counter], [data.ci.run_ok], the
    reserved bytes [data.pad] and the [hash] of the data block. *)
Record stress_checksum_t := mk_checksum {
  data_ci_counter : Z;
  data_ci_run_ok : bool;
  data_pad : list Z;
  hash : Z
}.

(** stress_stats_t, restricted to the fields the orchestrator code
    below reads or writes. [st_checksum] is the slot the [checksum]
    pointer refers to, [None] for a NULL pointer. *)
Record stress_stats_t := mk_stats {
  st_ci : stress_counter_info_t;
  st_pid : Z;
  st_signalled : bool;
  st_completed : bool;
  st_counter_total : Z;
  st_checksum : option stress_checksum_t
}.

Definition set_ci (s : stress_stats_t) (c : stress_counter_info_t) :=
  mk_stats c (st_pid s) (st_signalled s) (st_completed s)
           (st_counter_total s) (st_checksum s).

Definition set_completed (s : stress_stats_t) (b : bool) :=
  mk_stats (st_ci s) (st_pid s) (st_signalled s) b
           (st_counter_total s) (st_checksum s).

Definition set_counter_total (s : stress_stats_t) (z : Z) :=
  mk_stats (st_ci s) (st_pid s) (st_signalled s) (st_completed s)
           z (st_checksum s).

Definition set_signalled (s : stress_stats_t) (b : bool) :=
  mk_stats (st_ci s) (st_pid s) b (st_completed s)
           (st_counter_total s) (st_checksum s).

Definition set_run_ok (c : stress_counter_info_t) (b : bool) :=
  mk_ci (ci_counter c) (ci_counter_ready c) b (ci_force_killed c).

(** g_shared->instance_count *)
Record instance_count_t := mk_ic {
  ic_started : Z;
  ic_exited : Z;
  ic_reaped : Z;
  ic_failed : Z;
  ic_alarmed : Z
}.

(** ** The checksum of a slot *)

(** The bytes of an unsigned integer, least significant first. *)
Fixpoint le_bytes (n : nat) (z : Z) : list Z :=
  match n with
  | O => []
  | S n' => (z mod 256) :: le_bytes n' (z / 256)
  end.

(** Modelled from the spec: stress_hash_jenkin lives in core-hash.c,
    which is not part of the sources at hand; this is the Jenkins
    one-at-a-time hash over bytes on a 32-bit accumulator. *)
Definition jenkin_mix (h b : Z) : Z :=
  let h := wrap32 (h + b) in
  let h := wrap32 (h + Z.shiftl h 10) in
  Z.lxor h (Z.shiftr h 6).

Definition jenkin_final (h : Z) : Z :=
  let h := wrap32 (h + Z.shiftl h 3) in
  let h := Z.lxor h (Z.shiftr h 11) in
  wrap32 (h + Z.shiftl h 15).

Definition jenkin_one_at_a_time (data : list Z) : Z :=
  jenkin_final (fold_left jenkin_mix data 0).

(** ** The stressor list *)

(** ss->status[], one counter per exit bucket
    (STRESS_STRESSOR_STATUS_PASSED, _FAILED, _SKIPPED, _BAD_METRICS). *)
Record stress_status_t := mk_status {
  status_passed : Z;
  status_failed : Z;
  status_skipped : Z;
  status_bad_metrics : Z
}.

Definition STRESS_STRESSOR_NOT_IGNORED : Z := 0.
Definition STRESS_STRESSOR_UNSUPPORTED : Z := 1.
Definition STRESS_STRESSOR_EXCLUDED : Z := 2.

(** stress_stressor_t, one node of the list headed by stressors_head;
    the list itself is a Rocq list in dispatch order. [ss_stats] is
    the array ss->stats, whose first [ss_num_instances] entries the
    loops below visit. *)
Record stress_stressor_t := mk_stressor {
  ss_id : Z;                  (* ss->stressor->id *)
  ss_ignore_run : Z;          (* ss->ignore.run *)
  ss_ignore_permute : bool;   (* ss->ignore.permute *)
  ss_num_instances : Z;
  ss_stats : list stress_stats_t;
  ss_status : stress_status_t
}.

Definition set_ignore_permute (ss : stress_stressor_t) (b : bool) :=
  mk_stressor (ss_id ss) (ss_ignore_run ss) b (ss_num_instances ss)
              (ss_stats ss) (ss_status ss).

Definition set_stats (ss : stress_stressor_t) (l : list stress_stats_t) :=
  mk_stressor (ss_id ss) (ss_ignore_run ss) (ss_ignore_permute ss)
              (ss_num_instances ss) l (ss_status ss).

(** The slots visited by [for (i = 0; i < ss->num_instances; i++)]. *)
Definition instances (ss : stress_stressor_t) : list stress_stats_t :=
  firstn (Z.to_nat (ss_num_instances ss)) (ss_stats ss).

(** ** stress_kill_stressors() *)

(** What one call leaves behind: the static [count], the signals sent
    through shim_kill as (pid, signum) in the order sent, and the list
    with its [signalled] marks. *)
Record kill_result := mk_kill {
  kill_count : Z;
  kill_sent : list (Z * Z);
  kill_list : list stress_stressor_t
}.

(** The inner loop over the instances of one stressor. *)
Fixpoint kill_instances (signum : Z) (l : list stress_stats_t)
  : list (Z * Z) * list stress_stats_t :=
  match l with
  | [] => ([], [])
  | stats :: rest =>
      let pid := st_pid stats in
      let '(sent, rest') := kill_instances signum rest in
      if negb (pid =? 0) && negb (st_signalled stats)
      then ((pid, signum) :: sent, set_signalled stats true :: rest')
      else (sent, stats :: rest')
  end.

(** The outer loop over the stressor list. *)
Fixpoint kill_list_loop (signum : Z) (l : list stress_stressor_t)
  : list (Z * Z) * list stress_stressor_t :=
  match l with
  | [] => ([], [])
  | ss :: rest =>
      let '(sent_rest, rest') := kill_list_loop signum rest in
      if negb (ss_ignore_run ss =? 0)
      then (sent_rest, ss :: rest')
      else
        let n := Z.to_nat (ss_num_instances ss) in
        let '(sent, visited) := kill_instances signum (firstn n (ss_stats ss)) in
        (sent ++ sent_rest,
         set_stats ss (visited ++ skipn n (ss_stats ss)) :: rest')
  end.

Definition stress_kill_stressors (sig : Z) (force_sigkill : bool)
    (count : Z) (stressors_head : list stress_stressor_t) : kill_result :=
  let count' := if force_sigkill then wrap_int (count + 1) else count in
  let signum :=
    if force_sigkill && (5 <? count') then SIGKILL else sig in
  let '(sent, l) := kill_list_loop signum stressors_head in
  mk_kill count' sent l.

(** One call as a caller makes it: the signal, the force flag and the
    stressor list as it stands at the time of the call. *)
Record kill_call := mk_kill_call {
  kc_sig : Z;
  kc_force : bool;
  kc_list : list stress_stressor_t
}.

(** The static counter after a sequence of calls, starting from its
    initial value. *)
Definition kill_calls (count : Z) (calls : list kill_call) : Z :=
  fold_left
    (fun c k => kill_count (stress_kill_stressors (kc_sig k) (kc_force k) c (kc_list k)))
    calls count.

(** The workers a call reaches: non-zero pid, not yet signalled, in a
    stressor that is not ignored. *)
Definition is_target (s : stress_stats_t) : bool :=
  negb (st_pid s =? 0) && negb (st_signalled s).

Definition kill_targets (l : list stress_stressor_t) : list Z :=
  flat_map
    (fun ss =>
       if ss_ignore_run ss =? 0
       then map st_pid (filter is_target (instances ss))
       else [])
    l.

Definition forced_calls (calls : list kill_call) : Z :=
  Z.of_nat (length (filter kc_force calls)).

(** ** stress_wait_pid() *)

(** The wait status macros of <sys/wait.h> as glibc defines them on
    Linux. *)
Definition WEXITSTATUS (status : Z) : Z := Z.shiftr (Z.land status 65280) 8.
Definition WTERMSIG (status : Z) : Z := Z.land status 127.
Definition WIFSIGNALED (status : Z) : bool :=
  (0 <? WTERMSIG status) && (WTERMSIG status <? 127).

(** What shim_waitpid hands back on one call. *)
Inductive wait_outcome :=
| WaitReaped (ret status : Z)     (* ret > 0: the child was reaped *)
| WaitEINTR                       (* ret == -1, errno == EINTR *)
| WaitECHILD                      (* ret == -1, errno == ECHILD *)
| WaitOther.                      (* anything else *)

(** The state stress_wait_pid works on: the bucket counters of the
    stressor, the pid of the slot, the reaped count of the shared
    head and the three flags of the caller. *)
Record wait_state := mk_wait {
  w_status : stress_status_t;
  w_pid : Z;
  w_reaped : Z;
  w_success : bool;
  w_resource_success : bool;
  w_metrics_success : bool
}.

(** What one call reports besides the state: the local [do_abort] and
    whether the abort branch ran, which clears the continue flag and
    the wait flag and calls stress_kill_stressors(SIGALRM, true). *)
Record wait_result := mk_wait_result {
  wr_state : wait_state;
  wr_do_abort : bool;
  wr_abort_broadcast : bool
}.

Definition bump_passed (s : stress_status_t) :=
  mk_status (wrap32 (status_passed s + 1)) (status_failed s)
            (status_skipped s) (status_bad_metrics s).
Definition bump_failed (s : stress_status_t) :=
  mk_status (status_passed s) (wrap32 (status_failed s + 1))
            (status_skipped s) (status_bad_metrics s).
Definition bump_skipped (s : stress_status_t) :=
  mk_status (status_passed s) (status_failed s)
            (wrap32 (status_skipped s + 1)) (status_bad_metrics s).
Definition bump_bad_metrics (s : stress_status_t) :=
  mk_status (status_passed s) (status_failed s)
            (status_skipped s) (wrap32 (status_bad_metrics s + 1)).

(** The [if (WIFSIGNALED(status))] block: the value of *success after
    it. [oomed] is stress_process_oomed(ret). *)
Definition signal_death (oomed : bool) (status : Z) (success : bool) : bool :=
  if WIFSIGNALED status then
    let wterm_signal := WTERMSIG status in
    if oomed then success
    else if wterm_signal =? SIGKILL then success
    else if negb (wterm_signal =? SIGALRM) then false
    else success
  else success.

(** stress_stressor_finished() *)
Definition stress_stressor_finished (w : wait_state) : wait_state :=
  mk_wait (w_status w) 0 (wrap32 (w_reaped w + 1))
          (w_success w) (w_resource_success w) (w_metrics_success w).

(** The [switch (wexit_status)]: bucket, flags and [do_abort]. *)
Definition exit_switch (wexit_status : Z) (w : wait_state) : wait_state * bool :=
  let st := w_status w in
  let s := w_success w in
  let r := w_resource_success w in
  let m := w_metrics_success w in
  let p := w_pid w in
  let n := w_reaped w in
  if wexit_status =? EXIT_SUCCESS then
    (mk_wait (bump_passed st) p n s r m, false)
  else if wexit_status =? EXIT_NO_RESOURCE then
    (mk_wait (bump_skipped st) p n s false m, true)
  else if wexit_status =? EXIT_NOT_IMPLEMENTED then
    (mk_wait (bump_skipped st) p n s r m, true)
  else if wexit_status =? EXIT_SIGNALED then
    (mk_wait st p n s r m, true)
  else if wexit_status =? EXIT_BY_SYS_EXIT then
    (mk_wait (bump_failed st) p n s r m, true)
  else if wexit_status =? EXIT_METRICS_UNTRUSTWORTHY then
    (mk_wait (bump_bad_metrics st) p n s r false, false)
  else if wexit_status =? EXIT_FAILURE then
    (* counted, then through the goto into the default label *)
    (mk_wait (bump_failed st) p n false r m, true)
  else
    (* default: *)
    (mk_wait st p n false r m, true).

(** The [ret > 0] branch. *)
Definition wait_reaped (opt_abort oomed : bool) (status : Z) (w : wait_state)
  : wait_result :=
  let wexit_status := WEXITSTATUS status in
  let w1 := mk_wait (w_status w) (w_pid w) (w_reaped w)
                    (signal_death oomed status (w_success w))
                    (w_resource_success w) (w_metrics_success w) in
  let '(w2, do_abort) := exit_switch wexit_status w1 in
  mk_wait_result (stress_stressor_finished w2) do_abort (opt_abort && do_abort).

(** The whole function. [outcomes] lists what the successive calls of
    shim_waitpid return; EINTR jumps back to [redo]. [None] when the
    list ends before a call returns anything but EINTR. *)
Fixpoint stress_wait_pid (opt_abort oomed : bool) (outcomes : list wait_outcome)
    (w : wait_state) : option wait_result :=
  match outcomes with
  | [] => None
  | WaitReaped ret status :: _ =>
      if 0 <? ret then Some (wait_reaped opt_abort oomed status w)
      else Some (mk_wait_result w false false)
  | WaitEINTR :: rest => stress_wait_pid opt_abort oomed rest w
  | WaitECHILD :: _ =>
      Some (mk_wait_result (stress_stressor_finished w) false false)
  | WaitOther :: _ => Some (mk_wait_result w false false)
  end.

(** ** The checksum slot, the child run path and the validation pass *)

Section Checksum.

(** sizeof(checksum->data.pad); the header that fixes it is not part
    of the sources at hand. *)
Variable pad_len : nat.

(** stress_hash_jenkin of core-hash.c, over the bytes of the data
    block. *)
Variable stress_hash_jenkin : list Z -> Z.

(** The bytes of [checksum->data]: counter, run flag, padding. *)
Definition checksum_data_bytes (c : stress_checksum_t) : list Z :=
  le_bytes 8 (data_ci_counter c)
    ++ [Z.b2z (data_ci_run_ok c)]
    ++ data_pad c.

(** stress_hash_checksum() *)
Definition stress_hash_checksum (c : stress_checksum_t) : stress_checksum_t :=
  mk_checksum (data_ci_counter c) (data_ci_run_ok c) (data_pad c)
              (stress_hash_jenkin (checksum_data_bytes c)).

Definition zero_pad : list Z := repeat 0 pad_len.

(** The slot after memset to zero over its whole size. *)
Definition checksum_zeroed : stress_checksum_t :=
  mk_checksum 0 false zero_pad 0.

Definition set_data_counter (c : stress_checksum_t) (z : Z) :=
  mk_checksum z (data_ci_run_ok c) (data_pad c) (hash c).

Definition set_data_run_ok (c : stress_checksum_t) (b : bool) :=
  mk_checksum (data_ci_counter c) b (data_pad c) (hash c).

Definition set_data_pad (c : stress_checksum_t) (p : list Z) :=
  mk_checksum (data_ci_counter c) (data_ci_run_ok c) p (hash c).

(** *** stress_run_child() *)

(** What the child meets on its way: the outcome of installing the
    handlers, the continue flag at the guard of the run, the option
    flags, the stressor body (its exit code and what it leaves in
    args.ci), the two checks that may rewrite the exit code, and
    the terminate signal recorded by the time of the exit
    sequence. *)
Record child_env := mk_child_env {
  handler_ok : bool;
  continue_flag : bool;
  opt_dry_run : bool;
  opt_abort : bool;
  opt_interrupts : bool;
  stressor : stress_counter_info_t -> Z * stress_counter_info_t;
  stress_interrupts_check_failure : Z -> Z;
  pr_fail_check : Z -> Z;
  terminate_signum : Z
}.

Record child_result := mk_child_result {
  child_rc : Z;
  child_stats : stress_stats_t;
  child_checksum : stress_checksum_t;
  child_ic : instance_count_t;
  child_alarmed_parent : bool     (* shim_kill(getppid(), SIGALRM) *)
}.

(** The guard of the block that invokes the stressor. *)
Definition runs_stressor (env : child_env) : bool :=
  handler_ok env && (continue_flag env && negb (opt_dry_run env)).

(** From the label child_exit to the return. *)
Definition child_exit (env : child_env) (rc : Z) (stats : stress_stats_t)
    (checksum : stress_checksum_t) (ic : instance_count_t) : child_result :=
  let alarmed := negb (rc =? 0) && opt_abort env in
  let rc := if negb (terminate_signum env =? 0) then EXIT_SIGNALED else rc in
  let ic := mk_ic (wrap32 (ic_started ic - 1))
                  (wrap32 (ic_exited ic + 1))
                  (ic_reaped ic)
                  (if rc =? EXIT_FAILURE then wrap32 (ic_failed ic + 1)
                   else ic_failed ic)
                  (ic_alarmed ic) in
  mk_child_result rc stats checksum ic alarmed.

(** The block guarded by the continue flag and the dry-run option. *)
Definition child_run_block (env : child_env) (stats : stress_stats_t)
    : Z * stress_stats_t * stress_checksum_t :=
  let checksum := checksum_zeroed in
  let '(rc, ci') := stressor env (st_ci stats) in
  let stats := set_ci stats ci' in
  let rc := if opt_interrupts env
            then stress_interrupts_check_failure env rc else rc in
  let rc := pr_fail_check env rc in
  let stats := set_completed stats true in
  let ok := rc =? EXIT_SUCCESS in
  let stats := set_ci stats (set_run_ok (st_ci stats) ok) in
  let checksum := set_data_run_ok checksum ok in
  let checksum := set_data_pad checksum zero_pad in
  let rc := if negb (ci_counter_ready (st_ci stats))
               && negb (ci_force_killed (st_ci stats))
            then EXIT_METRICS_UNTRUSTWORTHY else rc in
  let checksum := set_data_counter checksum (ci_counter (st_ci stats)) in
  let checksum := stress_hash_checksum checksum in
  (rc, stats, checksum).

Definition stress_run_child (env : child_env) (stats : stress_stats_t)
    (checksum : stress_checksum_t) (ic : instance_count_t) : child_result :=
  let ic := mk_ic (wrap32 (ic_started ic + 1)) (ic_exited ic)
                  (ic_reaped ic) (ic_failed ic) (ic_alarmed ic) in
  if negb (handler_ok env) then
    child_exit env EXIT_FAILURE stats checksum ic
  else
    let '(rc, stats, checksum) :=
      if continue_flag env && negb (opt_dry_run env)
      then child_run_block env stats
      else (EXIT_SUCCESS, stats, checksum) in
    let stats :=
      set_counter_total stats
        (wrap64 (st_counter_total stats + ci_counter (st_ci stats))) in
    child_exit env rc stats checksum ic.

(** *** stress_metrics_check() *)

(** The checksum rebuilt from the live counter and run flag. *)
Definition rebuilt_checksum (stats : stress_stats_t) : stress_checksum_t :=
  let stats_checksum := checksum_zeroed in
  let stats_checksum := set_data_counter stats_checksum (ci_counter (st_ci stats)) in
  let stats_checksum := set_data_run_ok stats_checksum (ci_run_ok (st_ci stats)) in
  stress_hash_checksum stats_checksum.

(** The body of the inner loop: the local [ok] after one slot. *)
Definition metrics_check_slot (ok : bool) (stats : stress_stats_t) : bool :=
  if negb (st_completed stats) then ok
  else
    match st_checksum stats with
    | None => false
    | Some checksum =>
        let stats_checksum := rebuilt_checksum stats in
        let ok :=
          if negb (ci_counter (st_ci stats) =? data_ci_counter checksum)
          then false else ok in
        let ok :=
          if negb (Bool.eqb (ci_run_ok (st_ci stats)) (data_ci_run_ok checksum))
          then false else ok in
        let ok :=
          if negb (hash stats_checksum =? hash checksum)
          then false else ok in
        ok
    end.

Definition metrics_check_stressor (ok : bool) (ss : stress_stressor_t) : bool :=
  if negb (ss_ignore_run ss =? 0) then ok
  else fold_left metrics_check_slot (instances ss) ok.

(** The value of *success after the pass. *)
Definition stress_metrics_check (stressors_head : list stress_stressor_t)
    (success : bool) : bool :=
  let ok := fold_left metrics_check_stressor stressors_head true in
  if ok then success else false.

(** The slots the pass looks at: the completed slots of the stressors
    that are not ignored. *)
Definition completed_slots (l : list stress_stressor_t) : list stress_stats_t :=
  flat_map
    (fun ss =>
       if ss_ignore_run ss =? 0
       then filter st_completed (instances ss) else [])
    l.

(** A slot agrees with its stored checksum: counter, run flag and
    hash of the rebuilt checksum all equal the stored ones. *)
Definition slot_matches (stats : stress_stats_t) : bool :=
  match st_checksum stats with
  | None => false
  | Some checksum =>
      (ci_counter (st_ci stats) =? data_ci_counter checksum)
      && Bool.eqb (ci_run_ok (st_ci stats)) (data_ci_run_ok checksum)
      && (hash (rebuilt_checksum stats) =? hash checksum)
  end.

(** *** The invariant and the comparison in the words of the
        specification *)

(** The data of a slot packed into bytes, [{counter, run_ok, pad = 0}]:
    the counter as eight bytes, least significant first, the run flag
    as one byte, then the padding, every byte of it zero. *)
Definition spec_packed_data (counter : Z) (run_ok : bool) : list Z :=
  le_bytes 8 counter ++ [Z.b2z run_ok] ++ repeat 0 pad_len.

(** The invariant at worker exit: [hash == jenkins(data)] over the
    packed data with the padding zero, and the counter and run flag
    of the data those of the counter info of the stats. *)
Definition spec_checksum_invariant (stats : stress_stats_t)
    (c : stress_checksum_t) : Prop :=
  hash c = stress_hash_jenkin
             (spec_packed_data (data_ci_counter c) (data_ci_run_ok c))
  /\ data_pad c = repeat 0 pad_len
  /\ data_ci_counter c = ci_counter (st_ci stats)
  /\ data_ci_run_ok c = ci_run_ok (st_ci stats).

(** The comparison of the validation pass: there is a stored slot,
    the live counter and run flag are the stored ones, and the hash
    of the data packed from the live counter and run flag is the
    stored hash. *)
Definition spec_slot_agrees (stats : stress_stats_t) : bool :=
  match st_checksum stats with
  | None => false
  | Some stored =>
      (ci_counter (st_ci stats) =? data_ci_counter stored)
      && Bool.eqb (ci_run_ok (st_ci stats)) (data_ci_run_ok stored)
      && (stress_hash_jenkin
            (spec_packed_data (ci_counter (st_ci stats))
                              (ci_run_ok (st_ci stats)))
          =? hash stored)
  end.

(** The stats of a slot as the parent reads them once the child has
    gone: [stats->checksum] refers to the slot the child wrote. *)
Definition stats_after_child (r : child_result) : stress_stats_t :=
  mk_stats (st_ci (child_stats r)) (st_pid (child_stats r))
           (st_signalled (child_stats r)) (st_completed (child_stats r))
           (st_counter_total (child_stats r))
           (Some (child_checksum r)).

End Checksum.

(** ** stress_metrics_dump(): the auxiliary metrics *)

Module Metrics.

Local Open Scope R_scope.

(** A [double] is read as the real number it stands for and sums,
    products and quotients as exact, with one exception: the running
    product of the fractions in the geometric mean, which gets
    smaller with every instance and is 0 in binary64 once it is too
    small for a double. Values are finite numbers. *)

(** stress_metrics_data_t; [None] is a NULL description. *)
Record stress_metrics_data_t := mk_metric {
  description : option string;
  value : R
}.

(** The entry stress_setup_stats_buffers() writes into every slot. *)
Definition metric_unset : stress_metrics_data_t := mk_metric None (-1).

(** stats->metrics[i] of one slot. *)
Definition metric_at (i : nat) (metrics : list stress_metrics_data_t) :=
  nth i metrics metric_unset.

(** frexp() of <math.h> on a positive argument: the fraction in
    [1/2, 1) and the power of two. *)
Definition frexp (v : R) : R * Z :=
  let e := up (ln v / ln 2) in
  (v / powerRZ 2 e, e).

(** pow() of <math.h> on a base that is not negative; a base of 0 is
    met with a positive exponent only, and pow(+0, y) is +0 then. *)
Definition pow (x y : R) : R :=
  if Rlt_dec 0 x then Rpower x y else 0.

Definition is_positive (v : R) : bool :=
  if Rlt_dec 0 v then true else false.

(** The least positive double is 2^-1074. A product of two doubles
    that are not negative is rounded to the nearest double, ties to
    even: at or below half the least positive double it is 0. *)
Definition underflows (x : R) : bool :=
  if Rle_dec x (powerRZ 2 (-1075)) then true else false.

(** mantissa *= f *)
Definition mul_mantissa (mantissa f : R) : R :=
  if underflows (mantissa * f) then 0 else mantissa * f.

(** The first loop of the YAML block: total += value over all the
    instances, then the mean over the completed instances. *)
Definition yaml_metric (values : list R) (completed_instances : Z) : R :=
  let total := fold_left Rplus values 0 in
  if (completed_instances =? 0)%Z then 0
  else total / IZR completed_instances.

(** One step of the loop of the text block on
    (mantissa, exponent, n). *)
Definition geomean_step (acc : R * Z * R) (v : R) : R * Z * R :=
  let '(mantissa, exponent, n) := acc in
  if is_positive v then
    let '(f, e) := frexp v in
    (mul_mantissa mantissa f, (exponent + e)%Z, n + 1)
  else acc.

Definition text_metric (values : list R) : R :=
  let '(mantissa, exponent, n) := fold_left geomean_step values (1, 0%Z, 0) in
  if is_positive n then
    let inverse_n := 1 / n in
    pow mantissa inverse_n * pow 2 (IZR exponent * inverse_n)
  else 0.

(** The geometric mean of the positive entries of a list, 0 when
    there is none: the n-th root of their product. *)
Definition geometric_mean (values : list R) : R :=
  let positives := filter is_positive values in
  match positives with
  | [] => 0
  | _ => Rpower (fold_right Rmult 1 positives) (/ INR (length positives))
  end.

End Metrics.

(** ** stress_shared_map(): the lengths of the two mappings *)

(** [~(page_size - 1)] on a size_t. *)
Definition page_mask (page_size : Z) : Z :=
  wrap64 (Z.lnot (wrap64 (page_size - 1))).

(** g_shared->length; the sizes of the two structures come from the
    header, which is not part of the sources at hand. *)
Definition shared_map_length (sizeof_shared sizeof_stats page_size num_procs : Z) : Z :=
  let len := wrap64 (sizeof_shared + wrap64 (sizeof_stats * wrap64 num_procs)) in
  Z.land (wrap64 (len + wrap64 (Z.shiftl page_size 1))) (page_mask page_size).

(** g_shared->checksum.length *)
Definition checksum_map_length (sizeof_checksum page_size num_procs : Z) : Z :=
  let len := wrap64 (sizeof_checksum * wrap64 num_procs) in
  Z.land (wrap64 (len + page_size)) (page_mask page_size).

(** Rounding up to the next multiple of [p]. *)
Definition roundup (x p : Z) : Z := (x + p - 1) / p * p.

(** ** stress_run_permute() *)

Definition max_perms : Z := 16.

(** The first loop: every stressor is masked, the enabled ones are
    counted. *)
Definition permute_init (l : list stress_stressor_t)
  : Z * list stress_stressor_t :=
  (Z.of_nat (length (filter (fun ss => ss_ignore_run ss =? 0) l)),
   map (fun ss => set_ignore_permute ss true) l).

(** The loop over [j] that masks the list for run [i]; it stops once
    [j] reaches max_perms and leaves the rest of the list as it is. *)
Fixpoint permute_mask (i j : Z) (l : list stress_stressor_t)
  : list stress_stressor_t :=
  match l with
  | [] => []
  | ss :: rest =>
      if j <? max_perms then
        if negb (ss_ignore_run ss =? 0)
        then set_ignore_permute ss true :: permute_mask i j rest
        else set_ignore_permute ss (Z.land i (Z.shiftl 1 j) =? 0)
               :: permute_mask i (j + 1) rest
      else ss :: rest
  end.

(** The loop over [i]. [cont i] is what stress_continue_flag() returns
    at the test before run [i]; [run] is stress_run_parallel() as it
    acts on the list. The result lists, per run driven, the list
    handed to it, and gives the list in the end. *)
Fixpoint permute_loop (cont : Z -> bool)
    (run : list stress_stressor_t -> list stress_stressor_t)
    (fuel : nat) (i num_perms : Z) (l : list stress_stressor_t)
  : list (list stress_stressor_t) * list stress_stressor_t :=
  match fuel with
  | O => ([], l)
  | S fuel' =>
      if cont i && (i <? num_perms) then
        let masked := permute_mask i 0 l in
        let '(runs, l') := permute_loop cont run fuel' (i + 1) num_perms (run masked) in
        (masked :: runs, l')
      else ([], l)
  end.

Definition stress_run_permute (cont : Z -> bool)
    (run : list stress_stressor_t -> list stress_stressor_t)
    (stressors_head : list stress_stressor_t)
  : list (list stress_stressor_t) * list stress_stressor_t :=
  let '(perms, l) := permute_init stressors_head in
  let perms := if max_perms <? perms then max_perms else perms in
  let num_perms := Z.shiftl 1 perms in
  let '(runs, l) := permute_loop cont run (Z.to_nat num_perms) 1 num_perms l in
  (runs, map (fun ss => set_ignore_permute ss false) l).

(** stress_run() skips a stressor when either ignore flag is set. *)
Definition participates (ss : stress_stressor_t) : bool :=
  negb (negb (ss_ignore_run ss =? 0) || ss_ignore_permute ss).

Definition enabled (l : list stress_stressor_t) : list stress_stressor_t :=
  filter (fun ss => ss_ignore_run ss =? 0) l.

(** What stress_run_permute() and the choice of the stressors to run
    look at in a node: which stressor it is and its two ignore
    flags. *)
Definition stressor_flags (ss : stress_stressor_t) : Z * Z * bool :=
  (ss_id ss, ss_ignore_run ss, ss_ignore_permute ss).

(** Three enabled stressors, as selected by a list of three names. *)
Definition sample_three : list stress_stressor_t :=
  [ mk_stressor 1 0 false 1 [] (mk_status 0 0 0 0);
    mk_stressor 2 0 false 1 [] (mk_status 0 0 0 0);
    mk_stressor 3 0 false 1 [] (mk_status 0 0 0 0) ].

(** ** main(): the final exit code *)

Definition main_exit (success resource_success metrics_success : bool) : Z :=
  if negb success then EXIT_NOT_SUCCESS
  else if negb resource_success then EXIT_NO_RESOURCE
  else if negb metrics_success then EXIT_METRICS_UNTRUSTWORTHY
  else EXIT_SUCCESS.

(** ** Sample values *)

(** A slot of eight data bytes plus seven bytes of padding, hashed
    with the one-at-a-time hash. *)
Definition sample_pad_len : nat := 7.

(** A stressor body that counts 1000 bogo-ops and returns success. *)
Definition sample_stressor_ok (ci : stress_counter_info_t)
  : Z * stress_counter_info_t :=
  (EXIT_SUCCESS, mk_ci 1000 true (ci_run_ok ci) false).

(** A stressor body that is cut short with its counter not ready. *)
Definition sample_stressor_cut (ci : stress_counter_info_t)
  : Z * stress_counter_info_t :=
  (EXIT_SUCCESS, mk_ci 17 false (ci_run_ok ci) false).

Definition sample_env : child_env :=
  mk_child_env true true false false false
               sample_stressor_ok (fun rc => rc) (fun rc => rc) 0.

(** The same child with SIGTERM (15) recorded on a cut-short run. *)
Definition sample_env_sigterm : child_env :=
  mk_child_env true true false false false
               sample_stressor_cut (fun rc => rc) (fun rc => rc) 15.

Definition sample_stats : stress_stats_t :=
  mk_stats (mk_ci 0 true false false) 0 false false 0 None.

Definition sample_ic : instance_count_t := mk_ic 0 0 0 0 0.

Definition sample_checksum : stress_checksum_t :=
  stress_hash_checksum jenkin_one_at_a_time
    (mk_checksum 1000 true (repeat 0 sample_pad_len) 0).

(** A completed slot whose stored checksum agrees with it, and one
    whose live counter was altered after the child stored it. *)
Definition sample_slot_good : stress_stats_t :=
  mk_stats (mk_ci 1000 true true false) 0 false true 1000 (Some sample_checksum).

Definition sample_slot_corrupt : stress_stats_t :=
  mk_stats (mk_ci 999 true true false) 0 false true 1000 (Some sample_checksum).

Definition sample_stressor (id : Z) (slots : list stress_stats_t)
  : stress_stressor_t :=
  mk_stressor id STRESS_STRESSOR_NOT_IGNORED false
              (Z.of_nat (length slots)) slots (mk_status 0 0 0 0).

(** A live worker with pid 4242 that no signal was sent to yet. *)
Definition sample_live : stress_stats_t :=
  mk_stats (mk_ci 0 true false false) 4242 false false 0 None.

(** ** stress_get_nth_stressor(), stress_get_num_stressors(),
       stress_get_total_num_instances() *)

(** The walk of stress_get_nth_stressor(): [i] counts the stressors
    passed that are not ignored; the pointer returned is the rest of
    the list from the node the walk stops at, [[]] for NULL. [i]
    stays below [n], so its increment cannot wrap. *)
Fixpoint get_nth_loop (i n : Z) (l : list stress_stressor_t)
  : list stress_stressor_t :=
  match l with
  | [] => []
  | ss :: rest =>
      if i <? n
      then get_nth_loop (if ss_ignore_run ss =? 0 then i + 1 else i) n rest
      else ss :: rest
  end.

Definition stress_get_nth_stressor (n : Z)
    (stressors_head : list stress_stressor_t) : list stress_stressor_t :=
  get_nth_loop 0 n stressors_head.

Definition stress_get_num_stressors
    (stressors_head : list stress_stressor_t) : Z :=
  fold_left (fun n ss => if ss_ignore_run ss =? 0 then wrap32 (n + 1) else n)
            stressors_head 0.

Definition stress_get_total_num_instances
    (stressors_list : list stress_stressor_t) : Z :=
  fold_left (fun total ss => wrap_int (total + ss_num_instances ss))
            stressors_list 0.

(** The sum of the instance counts as a plain integer. *)
Definition sum_num_instances (l : list stress_stressor_t) : Z :=
  fold_right (fun ss a => ss_num_instances ss + a) 0 l.

(** ** stress_setup_stats_buffers() *)

(** The pointers the function stores: for every stressor of the list
    the slots given to ss->stats[0], ss->stats[1], ..., each slot
    named by its index in g_shared->stats. [stats] is the index the
    running pointer stands at. *)
Fixpoint setup_stats_loop (stats : Z) (l : list stress_stressor_t)
  : list (list Z) :=
  match l with
  | [] => []
  | ss :: rest =>
      if negb (ss_ignore_run ss =? 0)
      then [] :: setup_stats_loop stats rest
      else
        let n := Z.to_nat (ss_num_instances ss) in
        map (fun i => stats + Z.of_nat i) (seq 0 n)
          :: setup_stats_loop (stats + Z.of_nat n) rest
  end.

Definition stress_setup_stats_buffers
    (stressors_head : list stress_stressor_t) : list (list Z) :=
  setup_stats_loop 0 stressors_head.

(** A list with an excluded stressor at its head and in the middle. *)
Definition sample_mixed : list stress_stressor_t :=
  [ mk_stressor 1 STRESS_STRESSOR_EXCLUDED false 2 [] (mk_status 0 0 0 0);
    mk_stressor 2 0 false 2 [] (mk_status 0 0 0 0);
    mk_stressor 3 STRESS_STRESSOR_UNSUPPORTED false 1 [] (mk_status 0 0 0 0);
    mk_stressor 4 0 false 3 [] (mk_status 0 0 0 0) ].

(** ** stress_run_sequential() *)

(** The loop over the list. [cont p] is what stress_continue_flag()
    returns at the loop test that finds the node at position [p];
    [run] is stress_run() called on the node alone, its next pointer
    cut for the call, as it acts on the node. The result lists the
    lists handed to stress_run(), one per call, and gives the stressor
    list in the end. *)
Fixpoint sequential_loop (cont : nat -> bool)
    (run : stress_stressor_t -> stress_stressor_t)
    (p : nat) (l : list stress_stressor_t)
  : list (list stress_stressor_t) * list stress_stressor_t :=
  match l with
  | [] => ([], [])
  | ss :: rest =>
      if cont p then
        let '(runs, rest') := sequential_loop cont run (S p) rest in
        if negb (ss_ignore_run ss =? 0)
        then (runs, ss :: rest')
        else ([ss] :: runs, run ss :: rest')
      else ([], ss :: rest)
  end.

Definition stress_run_sequential (cont : nat -> bool)
    (run : stress_stressor_t -> stress_stressor_t)
    (stressors_head : list stress_stressor_t) :=
  sequential_loop cont run 0 stressors_head.

(** ** stress_setup_parallel() *)

(** What the function reads and writes in a node: the class mask
    of the stressor, the ignore reason, the instance count, the
    bogo-ops target and the length of the stats array once it is
    allocated (a failed allocation ends the program). *)
Record setup_node := mk_setup_node {
  sn_class : Z;
  sn_ignore_run : Z;
  sn_num_instances : Z;
  sn_bogo_ops : Z;
  sn_stats_len : option Z
}.

(** The bogo-ops target of one instance: uint64_t arithmetic on an
    int32_t instance count. *)
Definition bogo_ops_share (bogo_ops num_instances : Z) : Z :=
  if num_instances =? 0 then 0
  else wrap64 (bogo_ops + wrap64 (wrap_int (num_instances - 1)))
       / wrap64 num_instances.

Definition setup_parallel_node (class instances : Z) (ss : setup_node)
  : setup_node :=
  let n := if negb (Z.land (sn_class ss) class =? 0)
           then instances else sn_num_instances ss in
  if negb (sn_ignore_run ss =? 0)
  then mk_setup_node (sn_class ss) (sn_ignore_run ss) n
                     (sn_bogo_ops ss) (sn_stats_len ss)
  else mk_setup_node (sn_class ss) (sn_ignore_run ss) n
                     (bogo_ops_share (sn_bogo_ops ss) n)
                     (if negb (n =? 0) then Some n else sn_stats_len ss).

Definition stress_setup_parallel (class instances : Z) (l : list setup_node)
  : list setup_node :=
  map (setup_parallel_node class instances) l.

(** ** stess_description_yamlify() *)

(** <ctype.h> in the C locale, on character codes. *)
Definition isupper (ch : Z) : bool := (65 <=? ch) && (ch <=? 90).
Definition islower (ch : Z) : bool := (97 <=? ch) && (ch <=? 122).
Definition isalpha (ch : Z) : bool := isupper ch || islower ch.
Definition isdigit (ch : Z) : bool := (48 <=? ch) && (ch <=? 57).
Definition tolower (ch : Z) : Z := if isupper ch then ch + 32 else ch.

(** sizeof(yamlified) *)
Definition yamlified_size : Z := 40.

(** What one character of the description adds to the buffer. *)
Definition yamlify_char (ch : Z) : list Z :=
  if isalpha ch then [tolower ch]
  else if isdigit ch then [ch]
  else if ch =? 32 then [45]
  else [].

(** The loop: [src] is the description from the current character
    on, [dst] what the buffer holds so far. The loop ends at the NUL
    of the description or once the buffer has room for the final NUL
    only. *)
Fixpoint yamlify_loop (src dst : list Z) : list Z :=
  match src with
  | [] => dst
  | ch :: rest =>
      if ch =? 0 then dst
      else
        let dst := dst ++ yamlify_char ch in
        if yamlified_size - 1 <=? Z.of_nat (length dst) then dst
        else yamlify_loop rest dst
  end.

Definition stess_description_yamlify (description : list Z) : list Z :=
  yamlify_loop description [].

(** The characters of a C string: those before its first NUL. *)
Fixpoint c_string (s : list Z) : list Z :=
  match s with
  | [] => []
  | ch :: rest => if ch =? 0 then [] else ch :: c_string rest
  end.

(** ** The signal handlers of the parent and the children *)

Definition SI_USER : Z := 0.

(** stress_sigalrm_info_t, [when] as one number. *)
Record stress_sigalrm_info_t := mk_sigalrm_info {
  sa_code : Z;
  sa_pid : Z;
  sa_uid : Z;
  sa_when : Z;
  sa_triggered : bool
}.

(** The siginfo_t fields the action handler reads. *)
Record siginfo_t := mk_siginfo {
  si_code : Z;
  si_pid : Z;
  si_uid : Z
}.

(** What the handlers read and write: whether g_shared is set, its
    caught_sigint flag and alarmed count, the flag [sigalarmed] points
    to ([None] for a NULL pointer), the wait and continue flags, the
    record of the sender of a SIGALRM, and the calls made to
    stress_kill_stressors and stress_handle_stop_stressing, latest
    first. *)
Record signal_state := mk_signal_state {
  sg_shared : bool;
  sg_caught_sigint : bool;
  sg_alarmed : Z;
  sg_sigalarmed : option bool;
  sg_wait_flag : bool;
  sg_continue_flag : bool;
  sg_sigalrm_info : stress_sigalrm_info_t;
  sg_kill_calls : list (Z * bool);
  sg_stop_calls : list Z
}.

(** stress_sigint_handler() *)
Definition stress_sigint_handler (s : signal_state) : signal_state :=
  mk_signal_state (sg_shared s)
    (if sg_shared s then true else sg_caught_sigint s)
    (sg_alarmed s) (sg_sigalarmed s)
    false false (sg_sigalrm_info s)
    ((SIGALRM, true) :: sg_kill_calls s) (sg_stop_calls s).

(** stress_sigalrm_handler(); [is_parent] is getpid() == main_pid. *)
Definition stress_sigalrm_handler (signum : Z) (is_parent : bool)
    (s : signal_state) : signal_state :=
  let caught := if sg_shared s then true else sg_caught_sigint s in
  let count :=
    if sg_shared s then
      match sg_sigalarmed s with
      | Some false => wrap32 (sg_alarmed s + 1)
      | _ => sg_alarmed s
      end
    else sg_alarmed s in
  let flag :=
    if sg_shared s then
      match sg_sigalarmed s with
      | Some _ => Some true
      | None => None
      end
    else sg_sigalarmed s in
  if is_parent then
    mk_signal_state (sg_shared s) caught count flag
      false (sg_continue_flag s) (sg_sigalrm_info s)
      ((SIGALRM, false) :: sg_kill_calls s) (sg_stop_calls s)
  else
    mk_signal_state (sg_shared s) caught count flag
      (sg_wait_flag s) (sg_continue_flag s) (sg_sigalrm_info s)
      (sg_kill_calls s) (signum :: sg_stop_calls s).

(** stress_sigalrm_action_handler(); [info] is [None] for a NULL
    pointer, [now] what gettimeofday() gives. *)
Definition stress_sigalrm_action_handler (signum : Z) (info : option siginfo_t)
    (now : Z) (is_parent : bool) (s : signal_state) : signal_state :=
  let s1 :=
    match info with
    | Some i =>
        if sg_shared s && negb (sg_caught_sigint s)
           && (si_code i =? SI_USER)
           && negb (sa_triggered (sg_sigalrm_info s))
        then
          mk_signal_state (sg_shared s) (sg_caught_sigint s) (sg_alarmed s)
            (sg_sigalarmed s) (sg_wait_flag s) (sg_continue_flag s)
            (mk_sigalrm_info (si_code i) (si_pid i) (si_uid i) now true)
            (sg_kill_calls s) (sg_stop_calls s)
        else s
    | None => s
    end in
  stress_sigalrm_handler signum is_parent s1.

(** One delivery of SIGALRM to a process whose handler is the action
    handler: the siginfo it comes with and the time of day. *)
Record sigalrm_delivery := mk_delivery {
  dl_info : option siginfo_t;
  dl_now : Z;
  dl_is_parent : bool
}.

Definition deliver_sigalrm (s : signal_state) (d : sigalrm_delivery)
  : signal_state :=
  stress_sigalrm_action_handler SIGALRM (dl_info d) (dl_now d) (dl_is_parent d) s.

(** After a first SIGALRM a process either has no shared region, or
    has caught_sigint set and its sigalarmed flag, if any, set. *)
Definition signals_settled (s : signal_state) : Prop :=
  sg_shared s = false
  \/ (sg_caught_sigint s = true /\ sg_sigalarmed s <> Some false).

(** ** stress_metrics_set_const_check() *)

(** Writing one entry of an array. *)
Fixpoint array_set {A : Type} (i : nat) (x : A) (l : list A) {struct l}
  : list A :=
  match l, i with
  | [], _ => []
  | _ :: rest, O => x :: rest
  | a :: rest, S i' => a :: array_set i' x rest
  end.

(** [args] is [None] for a NULL args pointer and [Some None] for a
    NULL args->metrics; [max] is STRESS_MISC_METRICS_MAX, the length
    of the array; [dup] is stress_shared_heap_dup_const(), [None] for
    a NULL pointer. The result is the metrics array after the call. *)
Definition stress_metrics_set_const_check (max : Z)
    (dup : option string -> option string)
    (args : option (option (list Metrics.stress_metrics_data_t)))
    (idx : Z) (description : option string) (const_description : bool)
    (value : R)
  : option (option (list Metrics.stress_metrics_data_t)) :=
  if max <=? idx then args
  else
    match args with
    | None => None
    | Some None => Some None
    | Some (Some metrics) =>
        let d := if const_description then description
                 else dup description in
        let old := Metrics.metric_at (Z.to_nat idx) metrics in
        let entry :=
          match d with
          | Some _ => Metrics.mk_metric d value
          | None => Metrics.mk_metric None (Metrics.value old)
          end in
        Some (Some (array_set (Z.to_nat idx) entry metrics))
    end.

(** ** stress_exclude_unsupported(), stress_exclude_pathological(),
       stress_exclude() *)

(** stress_ignore_stressor() *)
Definition stress_ignore_stressor (ss : stress_stressor_t) (reason : Z)
  : stress_stressor_t :=
  mk_stressor (ss_id ss) reason (ss_ignore_permute ss) (ss_num_instances ss)
              (ss_stats ss) (ss_status ss).

(** An entry of the stressors[] catalogue as the exclusion passes read
    it: its id and what its supported() hook returns, [None] for an
    entry without info or without the hook. *)
Record catalogue_entry := mk_catalogue_entry {
  cat_id : Z;
  cat_supported : option Z
}.

(** The test of the inner loop of stress_exclude_unsupported(). *)
Definition unsupported_hit (e : catalogue_entry) (r : Z)
    (ss : stress_stressor_t) : bool :=
  (ss_ignore_run ss =? 0)
  && ((ss_id ss =? cat_id e)
      && (negb (ss_num_instances ss =? 0) && (r <? 0))).

Definition exclude_unsupported_entry
    (acc : list stress_stressor_t * bool) (e : catalogue_entry)
  : list stress_stressor_t * bool :=
  match cat_supported e with
  | None => acc
  | Some r =>
      (map (fun ss => if unsupported_hit e r ss
                      then stress_ignore_stressor ss STRESS_STRESSOR_UNSUPPORTED
                      else ss) (fst acc),
       snd acc || existsb (unsupported_hit e r) (fst acc))
  end.

Definition stress_exclude_unsupported (stressors : list catalogue_entry)
    (stressors_head : list stress_stressor_t) (unsupported : bool)
  : list stress_stressor_t * bool :=
  fold_left exclude_unsupported_entry stressors (stressors_head, unsupported).

(** [pathological id] tells whether the class mask of the catalogue
    entry with that id has CLASS_PATHOLOGICAL. *)
Definition stress_exclude_pathological (opt_pathological : bool)
    (pathological : Z -> bool) (stressors_head : list stress_stressor_t)
  : list stress_stressor_t :=
  if opt_pathological then stressors_head
  else
    map (fun ss =>
           if (ss_ignore_run ss =? 0) && pathological (ss_id ss)
           then stress_ignore_stressor ss STRESS_STRESSOR_EXCLUDED
           else ss)
        stressors_head.

(** The loop of stress_exclude() over the tokens of the exclude list.
    [find] is stressor_find_by_name() followed by the read of the id,
    [None] when the name is unknown. The result is the return value
    and the list. *)
Fixpoint exclude_loop (find : string -> option Z) (tokens : list string)
    (l : list stress_stressor_t) : Z * list stress_stressor_t :=
  match tokens with
  | [] => (0, l)
  | token :: rest =>
      match find token with
      | None => (-1, l)
      | Some id =>
          exclude_loop find rest
            (map (fun ss => if ss_id ss =? id
                            then stress_ignore_stressor ss STRESS_STRESSOR_EXCLUDED
                            else ss) l)
      end
  end.

(** [opt_exclude] is [None] when the exclude setting is not set, else
    the tokens strtok() cuts the list into. *)
(** Whether one of the names stands for the stressor of a node. *)
Definition excluded_by (find : string -> option Z) (names : list string)
    (ss : stress_stressor_t) : bool :=
  existsb (fun name => match find name with
                       | Some id => ss_id ss =? id
                       | None => false
                       end) names.

Definition stress_exclude (find : string -> option Z)
    (opt_exclude : option (list string)) (stressors_head : list stress_stressor_t)
  : Z * list stress_stressor_t :=
  match opt_exclude with
  | None => (0, stressors_head)
  | Some tokens => exclude_loop find tokens stressors_head
  end.

(** ** stress_metrics_dump(): the totals of a stressor *)

Module Totals.

Local Open Scope R_scope.

(** The fields of a stats slot the totals are made of; the times are
    read as real numbers. *)
Record stats_totals := mk_totals {
  t_completed : bool;
  t_run_ok : bool;
  t_counter_total : Z;
  t_utime_total : R;
  t_stime_total : R;
  t_duration_total : R
}.

(** ss->completed_instances after the counting loop. *)
Definition completed_instances (l : list stats_totals) : Z :=
  fold_left (fun n s => if t_completed s then wrap32 (n + 1) else n) l 0%Z.

Definition c_total (l : list stats_totals) : Z :=
  fold_left (fun c s => wrap64 (c + t_counter_total s)) l 0%Z.

Definition u_total (l : list stats_totals) : R :=
  fold_left (fun a s => a + t_utime_total s) l 0.

Definition s_total (l : list stats_totals) : R :=
  fold_left (fun a s => a + t_stime_total s) l 0.

(** r_total before it is averaged. *)
Definition duration_sum (l : list stats_totals) : R :=
  fold_left (fun a s => a + t_duration_total s) l 0.

Definition r_total (l : list stats_totals) : R :=
  if (completed_instances l =? 0)%Z then 0
  else duration_sum l / IZR (completed_instances l).

Definition bogo_rate_r_time (l : list stats_totals) : R :=
  if Rlt_dec 0 (r_total l) then IZR (c_total l) / r_total l else 0.

Definition bogo_rate (l : list stats_totals) : R :=
  let us_total := u_total l + s_total l in
  if Rlt_dec 0 us_total then IZR (c_total l) / us_total else 0.

Definition cpu_usage (l : list stats_totals) : R :=
  let t_time := u_total l + s_total l in
  let cpu_usage := if Rlt_dec 0 (r_total l)
                   then 100 * t_time / r_total l else 0 in
  if (completed_instances l =? 0)%Z then 0
  else cpu_usage / IZR (completed_instances l).

End Totals.

(** ** stress_metrics_dump(): which metrics are written *)

Module Dump.

Local Open Scope R_scope.

(** A stats slot as stress_metrics_dump() reads it: the fields of the
    totals and the array stats->metrics. *)
Record stats_t := mk_stats_t {
  totals : Totals.stats_totals;
  metrics : list Metrics.stress_metrics_data_t
}.

(** A stressor as the function reads it; [stats] is [None] for a NULL
    ss->stats. *)
Record stressor_t := mk_stressor_t {
  ignore_run : Z;
  ignore_permute : bool;
  num_instances : Z;
  stats : option (list stats_t)
}.

(** The slots visited by [for (j = 0; j < ss->num_instances; j++)]. *)
Definition instances (ss : stressor_t) (slots : list stats_t) : list stats_t :=
  firstn (Z.to_nat (num_instances ss)) slots.

(** [run_ok] after the loop of the totals. *)
Definition run_ok (l : list Totals.stats_totals) : bool :=
  fold_left (fun b s => b || Totals.t_run_ok s) l false.

(** ss->stats[0]->metrics; an array ss->stats that is there holds at
    least one slot. *)
Definition metrics_0 (slots : list stats_t) : list Metrics.stress_metrics_data_t :=
  match slots with
  | [] => []
  | s :: _ => metrics s
  end.

(** ss->stats[0]->metrics[i].description; an index past the end of
    the array is never looked at. *)
Definition metric_description (i : nat) (slots : list stats_t) : option string :=
  Metrics.description (Metrics.metric_at i (metrics_0 slots)).

(** The values of metric [i] over the slots visited. *)
Definition metric_values (i : nat) (visited : list stats_t) : list R :=
  map (fun s => Metrics.value (Metrics.metric_at i (metrics s))) visited.

(** The tests of the first loop over the stressors: [None] when one
    of them skips the stressor, else the slots visited. [brief] is
    OPT_FLAGS_METRICS_BRIEF. *)
Definition yaml_stressor (brief : bool) (ss : stressor_t) : option (list stats_t) :=
  if negb (ignore_run ss =? 0)%Z || ignore_permute ss then None
  else
    match stats ss with
    | None => None
    | Some slots =>
        let visited := instances ss slots in
        let t := map totals visited in
        if brief && (Totals.c_total t =? 0)%Z && negb (run_ok t) then None
        else Some visited
    end.

(** The value the first loop hands to pr_yaml() for metric [i] of a
    stressor, [None] when it has no line for it. *)
Definition dump_yaml_metric (brief : bool) (i : nat) (ss : stressor_t)
  : option R :=
  match yaml_stressor brief ss, stats ss with
  | Some visited, Some slots =>
      match metric_description i slots with
      | None => None
      | Some _ =>
          Some (Metrics.yaml_metric (metric_values i visited)
                  (Totals.completed_instances (map totals visited)))
      end
  | _, _ => None
  end.

(** [misc_metrics] after the first loop: some stressor that was not
    skipped has a metric with a description. *)
Definition misc_metrics (brief : bool) (l : list stressor_t) : bool :=
  existsb
    (fun ss =>
       match yaml_stressor brief ss, stats ss with
       | Some _, Some slots =>
           existsb (fun m => match Metrics.description m with
                             | Some _ => true
                             | None => false
                             end)
                   (metrics_0 slots)
       | _, _ => false
       end)
    l.

(** The value the miscellaneous metrics block hands to pr_metrics()
    for metric [i] of a stressor of the list [l], [None] when it has
    no line for it. *)
Definition dump_text_metric (brief : bool) (l : list stressor_t) (i : nat)
    (ss : stressor_t) : option R :=
  if misc_metrics brief l && negb brief then
    if negb (ignore_run ss =? 0)%Z then None
    else
      match stats ss with
      | None => None
      | Some slots =>
          match metric_description i slots with
          | None => None
          | Some _ =>
              Some (Metrics.text_metric (metric_values i (instances ss slots)))
          end
      end
  else None.

End Dump.



(** Two completed instances: 3 s and 5 s of wall clock, 2 s of CPU
    time each, 40 and 60 bogo-ops. *)
Definition sample_totals : list Totals.stats_totals :=
  [ Totals.mk_totals true true 40 1%R 1%R 3%R;
    Totals.mk_totals true true 60 2%R 0%R 5%R ].

(** A name lookup that knows the stressor "cpu" alone, with id 2. *)
Definition sample_find (name : string) : option Z :=
  if String.eqb name "cpu" then Some 2 else None.

(** ** stress_wait_stressors() *)

(** What the parent holds while it waits: the stressor list, the
    reaped count of the shared head, the three flags handed down by
    main(), the continue and wait flags, the static counter of
    stress_kill_stressors() and the signals sent so far. *)
Record orchestrator := mk_orch {
  o_list : list stress_stressor_t;
  o_reaped : Z;
  o_success : bool;
  o_resource_success : bool;
  o_metrics_success : bool;
  o_continue_flag : bool;
  o_wait_flag : bool;
  o_kill_count : Z;
  o_sent : list (Z * Z)
}.

(** What the waits meet, per slot (stressor [i], instance [j]): the
    abort option, what stress_process_oomed() tells and what the
    successive calls of shim_waitpid() return. *)
Record wait_env := mk_wait_env {
  we_opt_abort : bool;
  we_oomed : nat -> nat -> bool;
  we_outcomes : nat -> nat -> list wait_outcome
}.

Definition set_status (ss : stress_stressor_t) (st : stress_status_t) :=
  mk_stressor (ss_id ss) (ss_ignore_run ss) (ss_ignore_permute ss)
              (ss_num_instances ss) (ss_stats ss) st.

Definition set_pid (s : stress_stats_t) (p : Z) :=
  mk_stats (st_ci s) p (st_signalled s) (st_completed s)
           (st_counter_total s) (st_checksum s).

(** The writes of stress_wait_pid() through its [ss] and [stats]
    pointers: the buckets of stressor [i] and the pid of its
    instance [j]. *)
Definition update_slot (i j : nat) (status : stress_status_t) (pid : Z)
    (l : list stress_stressor_t) : list stress_stressor_t :=
  match nth_error l i with
  | None => l
  | Some ss =>
      let stats' :=
        match nth_error (ss_stats ss) j with
        | None => ss_stats ss
        | Some s => array_set j (set_pid s pid) (ss_stats ss)
        end in
      array_set i (set_status (set_stats ss stats') status) l
  end.

(** The body of the inner loop for one slot. The abort branch of
    stress_wait_pid() runs before the slot is marked finished, so
    stress_kill_stressors() still sees the pid of the child just
    reaped. *)
Definition wait_slot (env : wait_env) (i j : nat) (o : orchestrator)
  : option orchestrator :=
  match nth_error (o_list o) i with
  | None => Some o
  | Some ss =>
      match nth_error (ss_stats ss) j with
      | None => Some o
      | Some stats =>
          if st_pid stats =? 0 then Some o
          else
            match stress_wait_pid (we_opt_abort env) (we_oomed env i j)
                    (we_outcomes env i j)
                    (mk_wait (ss_status ss) (st_pid stats) (o_reaped o)
                             (o_success o) (o_resource_success o)
                             (o_metrics_success o)) with
            | None => None
            | Some r =>
                let k := if wr_abort_broadcast r
                         then stress_kill_stressors SIGALRM true
                                (o_kill_count o) (o_list o)
                         else mk_kill (o_kill_count o) [] (o_list o) in
                let w := wr_state r in
                Some (mk_orch
                        (update_slot i j (w_status w) (w_pid w) (kill_list k))
                        (w_reaped w)
                        (w_success w) (w_resource_success w) (w_metrics_success w)
                        (if wr_abort_broadcast r then false else o_continue_flag o)
                        (if wr_abort_broadcast r then false else o_wait_flag o)
                        (kill_count k)
                        (o_sent o ++ kill_sent k))
            end
      end
  end.

Fixpoint wait_slots (env : wait_env) (i : nat) (js : list nat)
    (o : orchestrator) : option orchestrator :=
  match js with
  | [] => Some o
  | j :: js' =>
      match wait_slot env i j o with
      | None => None
      | Some o' => wait_slots env i js' o'
      end
  end.

Fixpoint wait_nodes (env : wait_env) (nodes : list nat) (o : orchestrator)
  : option orchestrator :=
  match nodes with
  | [] => Some o
  | i :: nodes' =>
      match nth_error (o_list o) i with
      | None => wait_nodes env nodes' o
      | Some ss =>
          if negb (ss_ignore_run ss =? 0) || ss_ignore_permute ss
          then wait_nodes env nodes' o
          else
            match wait_slots env i (seq 0 (Z.to_nat (ss_num_instances ss))) o with
            | None => None
            | Some o' => wait_nodes env nodes' o'
            end
      end
  end.

(** The function with the aggressive option off, called on the whole
    list as the parallel and the permute mode do, so that the list
    stress_kill_stressors() walks from stressors_head is the one
    waited on; [None] when a wait never returns. *)
Definition stress_wait_stressors (env : wait_env) (o : orchestrator)
  : option orchestrator :=
  wait_nodes env (seq 0 (length (o_list o))) o.

Definition bucket_sum (s : stress_status_t) : Z :=
  status_passed s + status_failed s + status_skipped s + status_bad_metrics s.

Definition buckets_nonneg (s : stress_status_t) : Prop :=
  0 <= status_passed s /\ 0 <= status_failed s
  /\ 0 <= status_skipped s /\ 0 <= status_bad_metrics s.

(** What a wait leaves of a node apart from buckets, pids and
    signalled marks. *)
Definition node_key (ss : stress_stressor_t) : Z * Z * bool * Z :=
  (ss_id ss, ss_ignore_run ss, ss_ignore_permute ss, ss_num_instances ss).

(** One call of stress_wait_pid() on a set of buckets: nothing, or
    one bucket one up. *)
Definition bucket_step (s s' : stress_status_t) : Prop :=
  s' = s \/ s' = bump_passed s \/ s' = bump_failed s
  \/ s' = bump_skipped s \/ s' = bump_bad_metrics s.

(** The three flags of main() are only ever cleared by a wait. *)
Definition flags_only_cleared (o o' : orchestrator) : Prop :=
  (o_success o' = true -> o_success o = true)
  /\ (o_resource_success o' = true -> o_resource_success o = true)
  /\ (o_metrics_success o' = true -> o_metrics_success o = true).

(** Whether the [redo] loop of stress_wait_pid() is left: some call of
    shim_waitpid() comes back with something else than EINTR. *)
Definition wait_returns (outcomes : list wait_outcome) : bool :=
  existsb (fun x => match x with WaitEINTR => false | _ => true end) outcomes.

(** The signal a forced call sends when the static counter stands at
    [count] before it. *)
Definition forced_signum (sig count : Z) : Z :=
  if 5 <? wrap_int (count + 1) then SIGKILL else sig.

(** One stressor with two live workers, 4242 and 4243, at the start
    of the wait. *)
Definition sample_orch : orchestrator :=
  mk_orch [sample_stressor 1 [sample_live; set_pid sample_live 4243]]
          0 true true true true true 0 [].

(** The abort option is set; the wait on 4242 is interrupted once and
    then reaps an exit with EXIT_NO_RESOURCE, the wait on 4243 reaps a
    death by SIGALRM. *)
Definition sample_wait_env : wait_env :=
  mk_wait_env true (fun _ _ => false)
    (fun _ j => match j with
                | O => [WaitEINTR; WaitReaped 4242 768]
                | _ => [WaitReaped 4243 14]
                end).

(** ** The fork loop of stress_run() *)

(** One pass through the code from the label [again:] to the end of
    the [switch (pid)], as the parent sees it. [TryParent pid cont] is
    the default label: fork() came back with [pid] and the flag read
    after the bookkeeping is [cont]. *)
Inductive fork_try :=
| TryStopped                      (* stress_continue_flag() is false at again: *)
| TryEAGAIN                       (* fork() == -1, errno == EAGAIN *)
| TryFailed                       (* fork() == -1, any other errno *)
| TryParent (pid : Z) (cont : bool).

(** What the loop meets, per slot (stressor [i], instance [j]):
    whether the timeout test fires and the passes from [again:]. *)
Record fork_env := mk_fork_env {
  fe_timeout : nat -> nat -> bool;
  fe_tries : nat -> nat -> list fork_try
}.

(** The state of the loop. [r_checksum] is [*checksum] as an index
    into g_shared->checksum.checksums. [r_slots] keeps the slot each
    [stats->checksum] was pointed at, as (stressor, instance, index);
    [st_checksum], the content of a slot as the later checks read it,
    is not touched here. [r_forked] lists the workers forked, each
    with the index [*checksum] stands at when its child calls
    stress_run_child(). *)
Record run_state := mk_run {
  r_list : list stress_stressor_t;
  r_checksum : Z;
  r_started : Z;
  r_kill_count : Z;
  r_sent : list (Z * Z);
  r_slots : list (nat * nat * Z);
  r_forked : list (Z * Z)
}.

(** How the body of the inner loop is left. *)
Inductive slot_exit :=
| SlotNext          (* the end of the body: j++, (checksum)++ *)
| SlotBreak         (* break *)
| SlotAbort         (* goto abort *)
| SlotWait.         (* goto wait_for_stressors *)

(** How the loops are left. *)
Inductive run_exit :=
| RunOn             (* the loop goes on, or ends with the list *)
| RunAbort
| RunWait.

(** A write through the pointer ss->stats[j] of stressor [i]. *)
Definition map_slot (i j : nat) (f : stress_stats_t -> stress_stats_t)
    (l : list stress_stressor_t) : list stress_stressor_t :=
  match nth_error l i with
  | None => l
  | Some ss =>
      match nth_error (ss_stats ss) j with
      | None => l
      | Some s => array_set i (set_stats ss (array_set j (f s) (ss_stats ss))) l
      end
  end.

(** stats->pid = -1; stats->ci.counter_ready = true;
    stats->ci.counter = 0; *)
Definition slot_init (s : stress_stats_t) : stress_stats_t :=
  mk_stats (mk_ci 0 true (ci_run_ok (st_ci s)) (ci_force_killed (st_ci s)))
           (-1) (st_signalled s) (st_completed s)
           (st_counter_total s) (st_checksum s).

(** stats->pid = pid; stats->signalled = false; *)
Definition slot_forked (pid : Z) (s : stress_stats_t) : stress_stats_t :=
  mk_stats (st_ci s) pid false (st_completed s)
           (st_counter_total s) (st_checksum s).

(** The four writes before the label [again:]. *)
Definition slot_assign (i j : nat) (st : run_state) : run_state :=
  mk_run (map_slot i j slot_init (r_list st))
         (r_checksum st) (r_started st) (r_kill_count st) (r_sent st)
         (r_slots st ++ [(i, j, r_checksum st)]) (r_forked st).

(** A call of stress_kill_stressors() from the loop. *)
Definition run_kill (sig : Z) (force_sigkill : bool) (st : run_state)
  : run_state :=
  let k := stress_kill_stressors sig force_sigkill
             (r_kill_count st) (r_list st) in
  mk_run (kill_list k) (r_checksum st) (r_started st) (kill_count k)
         (r_sent st ++ kill_sent k) (r_slots st) (r_forked st).

(** The [if (pid > -1)] block of the default label. *)
Definition run_forked (i j : nat) (pid : Z) (st : run_state) : run_state :=
  if -1 <? pid
  then mk_run (map_slot i j (slot_forked pid) (r_list st))
              (r_checksum st) (wrap_int (r_started st + 1))
              (r_kill_count st) (r_sent st) (r_slots st)
              (r_forked st ++ [(pid, r_checksum st)])
  else st.

(** From [again:] on. [None] when fork() fails with EAGAIN for ever. *)
Fixpoint fork_tries (i j : nat) (tries : list fork_try) (st : run_state)
  : option (run_state * slot_exit) :=
  match tries with
  | [] => None
  | TryStopped :: _ => Some (st, SlotBreak)
  | TryEAGAIN :: rest => fork_tries i j rest st
  | TryFailed :: _ => Some (run_kill SIGALRM false st, SlotWait)
  | TryParent pid cont :: _ =>
      let st1 := run_forked i j pid st in
      if cont then Some (st1, SlotNext)
      else Some (run_kill SIGALRM true st1, SlotWait)
  end.

(** The body of the inner loop. *)
Definition fork_slot (env : fork_env) (i j : nat) (st : run_state)
  : option (run_state * slot_exit) :=
  if fe_timeout env i j then Some (st, SlotAbort)
  else fork_tries i j (fe_tries env i j) (slot_assign i j st).

Definition next_checksum (st : run_state) : run_state :=
  mk_run (r_list st) (r_checksum st + 1) (r_started st) (r_kill_count st)
         (r_sent st) (r_slots st) (r_forked st).

(** The inner loop over the instances [js] of stressor [i]. *)
Fixpoint fork_instances (env : fork_env) (i : nat) (js : list nat)
    (st : run_state) : option (run_state * run_exit) :=
  match js with
  | [] => Some (st, RunOn)
  | j :: js' =>
      match fork_slot env i j st with
      | None => None
      | Some (st1, SlotNext) => fork_instances env i js' (next_checksum st1)
      | Some (st1, SlotBreak) => Some (st1, RunOn)
      | Some (st1, SlotAbort) => Some (st1, RunAbort)
      | Some (st1, SlotWait) => Some (st1, RunWait)
      end
  end.

(** The outer loop over the stressors at the positions [nodes]. *)
Fixpoint fork_nodes (env : fork_env) (nodes : list nat) (st : run_state)
  : option (run_state * run_exit) :=
  match nodes with
  | [] => Some (st, RunOn)
  | i :: nodes' =>
      match nth_error (r_list st) i with
      | None => fork_nodes env nodes' st
      | Some ss =>
          if negb (ss_ignore_run ss =? 0) || ss_ignore_permute ss
          then fork_nodes env nodes' st
          else
            match fork_instances env i
                    (seq 0 (Z.to_nat (ss_num_instances ss))) st with
            | None => None
            | Some (st1, RunOn) => fork_nodes env nodes' st1
            | Some (st1, ex) => Some (st1, ex)
            end
      end
  end.

(** The loop of stress_run() when it is called on the whole list (the
    parallel and the permute mode), from the index [checksum] on. *)
Definition run_fork_loop (env : fork_env) (checksum kill_count : Z)
    (stressors_list : list stress_stressor_t)
  : option (run_state * run_exit) :=
  fork_nodes env (seq 0 (length stressors_list))
    (mk_run stressors_list checksum 0 kill_count [] [] []).

(** The instances of the stressors the loop does not skip. *)
Definition planned_instances (l : list stress_stressor_t) : Z :=
  fold_right
    (fun ss a => (if participates ss
                  then Z.of_nat (Z.to_nat (ss_num_instances ss)) else 0) + a)
    0 l.

(** Two stressors with two and one instance, not started yet. *)
Definition sample_fresh : list stress_stressor_t :=
  [ sample_stressor 1 [sample_stats; sample_stats];
    sample_stressor 2 [sample_stats] ].

(** Every fork succeeds at once, but for one EAGAIN on the first; the
    pids are 4242, 4243 and 4244. *)
Definition sample_fork_env : fork_env :=
  mk_fork_env (fun _ _ => false)
    (fun i j => match i, j with
                | O, O => [TryEAGAIN; TryParent 4242 true]
                | O, _ => [TryParent 4243 true]
                | _, _ => [TryParent 4244 true]
                end).

(** The continue flag is found cleared at every slot. *)
Definition sample_fork_stopped : fork_env :=
  mk_fork_env (fun _ _ => false) (fun _ _ => [TryStopped]).

(** The two logs of the loop grow by entries with an index in
    [lo, hi_slots) and [lo, hi_forked), no index given to two of the
    new workers. *)
Definition log_grows (lo hi_slots hi_forked : Z) (st st' : run_state) : Prop :=
  exists ns nf,
    r_slots st' = r_slots st ++ ns
    /\ r_forked st' = r_forked st ++ nf
    /\ (forall e, In e ns -> lo <= snd e < hi_slots)
    /\ (forall e, In e nf -> lo <= snd e < hi_forked)
    /\ NoDup (map snd nf).

(** The instances of the stressors at the positions [nodes] the loop
    does not skip. *)
Definition planned_at (l : list stress_stressor_t) (nodes : list nat) : Z :=
  fold_right
    (fun i a =>
       match nth_error l i with
       | Some ss => if participates ss
                    then Z.of_nat (Z.to_nat (ss_num_instances ss)) else 0
       | None => 0
       end + a)
    0 nodes.

(** Whether the code from [again:] on is left. *)
Definition fork_returns (tries : list fork_try) : bool :=
  existsb (fun t => match t with TryEAGAIN => false | _ => true end) tries.

(** The flag is found cleared at [again:] before any fork() gets
    through. *)
Fixpoint stopped_at_once (tries : list fork_try) : bool :=
  match tries with
  | TryStopped :: _ => true
  | TryEAGAIN :: rest => stopped_at_once rest
  | _ => false
  end.

(** ** stress_set_random_stressors() *)

(** ss->num_instances++ *)
Definition bump_instances (ss : stress_stressor_t) : stress_stressor_t :=
  mk_stressor (ss_id ss) (ss_ignore_run ss) (ss_ignore_permute ss)
              (wrap_int (ss_num_instances ss + 1)) (ss_stats ss) (ss_status ss).

(** The [while (n > 0)] loop. [picks] lists what the successive calls
    of stress_mwc32modn(n_procs) return; the node a pick yields is
    told by the place the list returned by stress_get_nth_stressor()
    starts at. [None] when the picks end before the loop does. *)
Fixpoint random_loop (n : Z) (picks : list Z) (l : list stress_stressor_t)
  : option (list stress_stressor_t) :=
  if 0 <? n then
    match picks with
    | [] => None
    | i :: rest =>
        match stress_get_nth_stressor i l with
        | [] => random_loop n rest l                      (* continue *)
        | ss :: post =>
            random_loop (n - 1) rest
              (array_set (length l - length (ss :: post)) (bump_instances ss) l)
        end
    end
  else Some l.

(** The function either leaves through exit() or returns with the
    list. *)
Inductive random_result :=
| RandomExit (status : Z)
| RandomSet (l : list stress_stressor_t).

(** [flag_random] and [flag_set] are OPT_FLAGS_RANDOM and
    OPT_FLAGS_SET of g_opt_flags, [opt_random] the setting random. *)
Definition stress_set_random_stressors (flag_random flag_set : bool)
    (opt_random : Z) (picks : list Z) (l : list stress_stressor_t)
  : option random_result :=
  if flag_random then
    let n_procs := stress_get_num_stressors l in
    if flag_set then Some (RandomExit EXIT_FAILURE)
    else if n_procs =? 0 then Some (RandomExit EXIT_FAILURE)
    else option_map RandomSet (random_loop opt_random picks l)
  else Some (RandomSet l).

(** The pid in ss->stats[j]->pid of stressor [i], if there is such a
    slot. *)
Definition slot_pid (l : list stress_stressor_t) (i j : nat) : option Z :=
  match nth_error l i with
  | Some ss => nth_error (map st_pid (ss_stats ss)) j
  | None => None
  end.

(** No live pid in slot (i, j). *)
Definition slot_done (l : list stress_stressor_t) (i j : nat) : Prop :=
  forall p, slot_pid l i j = Some p -> p = 0.

(** Whether a wait ends with the slot marked finished: the first
    return of shim_waitpid() that is not EINTR reaps a child or
    reports ECHILD. *)
Fixpoint wait_settles (outcomes : list wait_outcome) : bool :=
  match outcomes with
  | WaitEINTR :: rest => wait_settles rest
  | WaitReaped ret _ :: _ => 0 <? ret
  | WaitECHILD :: _ => true
  | _ => false
  end.

(** ** A slot used by two runs *)

(** The child of a later run that finds the continue flag cleared at
    the guard of its run block. *)
Definition sample_env_stopped : child_env :=
  mk_child_env true false false false false
               sample_stressor_ok (fun rc => rc) (fun rc => rc) 0.

(** The first run on a fresh slot: the child counts 1000 bogo-ops. *)
Definition sample_first_run : child_result :=
  stress_run_child sample_pad_len jenkin_one_at_a_time
    sample_env sample_stats sample_checksum sample_ic.

(** The same slot taken again by the fork loop of a later run, which
    resets pid, counter_ready and counter, and then the child of that
    run, which skips its run block. *)
Definition sample_second_run : child_result :=
  stress_run_child sample_pad_len jenkin_one_at_a_time
    sample_env_stopped
    (slot_init (child_stats sample_first_run))
    (child_checksum sample_first_run)
    (child_ic sample_first_run).

(** A completed slot whose stored hash is off by one, counter and run
    flag being the live ones. *)
Definition sample_slot_bad_hash : stress_stats_t :=
  mk_stats (mk_ci 1000 true true false) 0 false true 1000
           (Some (mk_checksum 1000 true (repeat 0 sample_pad_len)
                              (hash sample_checksum + 1))).

(** * Properties *)

(** ** The final exit code *)

(** C4: the final exit code follows the success flags in this order:
    a cleared [success] gives EXIT_NOT_SUCCESS; otherwise a cleared
    [resource_success] gives EXIT_NO_RESOURCE; otherwise a cleared
    [metrics_success] gives EXIT_METRICS_UNTRUSTWORTHY; otherwise
    EXIT_SUCCESS. *)
Theorem main_exit_precedence :
  forall r m : bool,
    main_exit false r m = EXIT_NOT_SUCCESS
    /\ main_exit true false m = EXIT_NO_RESOURCE
    /\ main_exit true true false = EXIT_METRICS_UNTRUSTWORTHY
    /\ main_exit true true true = EXIT_SUCCESS.
Proof.
  intros r m. repeat split; reflexivity.
Qed.

(** The final exit code is EXIT_SUCCESS only when all flags are set. *)
Lemma main_exit_success_iff :
  forall s r m, main_exit s r m = EXIT_SUCCESS <-> s = true /\ r = true /\ m = true.
Proof.
  intros [] [] []; cbv; intuition discriminate.
Qed.

(** ** The classification of a reaped child *)

Lemma WIFSIGNALED_range :
  forall status,
    WIFSIGNALED status = true <-> 0 < WTERMSIG status < 127.
Proof.
  intros status. unfold WIFSIGNALED.
  rewrite andb_true_iff, !Z.ltb_lt. tauto.
Qed.



(** A child that did not die by a signal leaves the flag to the
    switch on the exit status. *)
Lemma signal_death_not_signaled :
  forall oomed status success,
    WIFSIGNALED status = false -> signal_death oomed status success = success.
Proof.
  intros oomed status success H. unfold signal_death. rewrite H. reflexivity.
Qed.

(** X4: for a wait status as the kernel reports a signal death (no exit
    code bits), the flag at the return of stress_wait_pid is the one
    the signal handling left: the switch sees exit status 0. *)
Lemma wait_pid_signal_death :
  forall opt_abort oomed ret status rest w,
    0 < ret -> WEXITSTATUS status = 0 ->
    exists r,
      stress_wait_pid opt_abort oomed (WaitReaped ret status :: rest) w = Some r
      /\ w_success (wr_state r) = signal_death oomed status (w_success w)
      /\ status_passed (w_status (wr_state r)) = wrap32 (status_passed (w_status w) + 1).
Proof.
  intros opt_abort oomed ret status rest w Hret Hexit.
  simpl. apply Z.ltb_lt in Hret. rewrite Hret.
  eexists. split; [reflexivity|].
  unfold wait_reaped. rewrite Hexit. simpl. split; reflexivity.
Qed.

(** EINTR only repeats the wait. *)
Lemma wait_pid_eintr :
  forall opt_abort oomed rest w,
    stress_wait_pid opt_abort oomed (WaitEINTR :: rest) w
    = stress_wait_pid opt_abort oomed rest w.
Proof. reflexivity. Qed.

(** The rows of the classification that name an exit status: bucket,
    flags and abort request. *)
Lemma exit_switch_rows :
  forall w,
    let st := w_status w in
    exit_switch EXIT_SUCCESS w
      = (mk_wait (bump_passed st) (w_pid w) (w_reaped w)
                 (w_success w) (w_resource_success w) (w_metrics_success w), false)
    /\ exit_switch EXIT_NO_RESOURCE w
      = (mk_wait (bump_skipped st) (w_pid w) (w_reaped w)
                 (w_success w) false (w_metrics_success w), true)
    /\ exit_switch EXIT_NOT_IMPLEMENTED w
      = (mk_wait (bump_skipped st) (w_pid w) (w_reaped w)
                 (w_success w) (w_resource_success w) (w_metrics_success w), true)
    /\ exit_switch EXIT_SIGNALED w
      = (mk_wait st (w_pid w) (w_reaped w)
                 (w_success w) (w_resource_success w) (w_metrics_success w), true)
    /\ exit_switch EXIT_BY_SYS_EXIT w
      = (mk_wait (bump_failed st) (w_pid w) (w_reaped w)
                 (w_success w) (w_resource_success w) (w_metrics_success w), true)
    /\ exit_switch EXIT_METRICS_UNTRUSTWORTHY w
      = (mk_wait (bump_bad_metrics st) (w_pid w) (w_reaped w)
                 (w_success w) (w_resource_success w) false, false)
    /\ exit_switch EXIT_FAILURE w
      = (mk_wait (bump_failed st) (w_pid w) (w_reaped w)
                 false (w_resource_success w) (w_metrics_success w), true).
Proof.
  intros w. repeat split; reflexivity.
Qed.

(** Any exit status outside the named ones clears [success] and asks
    for an abort but leaves all four buckets as they were. *)
Lemma exit_switch_default :
  forall wexit_status w,
    wexit_status = EXIT_NOT_SUCCESS \/ 7 < wexit_status ->
    exit_switch wexit_status w
    = (mk_wait (w_status w) (w_pid w) (w_reaped w)
               false (w_resource_success w) (w_metrics_success w), true).
Proof.
  intros x w H. unfold exit_switch.
  unfold EXIT_SUCCESS, EXIT_NO_RESOURCE, EXIT_NOT_IMPLEMENTED, EXIT_SIGNALED,
    EXIT_BY_SYS_EXIT, EXIT_METRICS_UNTRUSTWORTHY, EXIT_FAILURE, EXIT_NOT_SUCCESS in *.
  repeat match goal with
         | |- context [ ?a =? ?b ] =>
             destruct (Z.eqb_spec a b); [lia|]
         end.
  reflexivity.
Qed.

(** C3, at a child that exits with EXIT_NOT_SUCCESS (wait status
    512): stress_wait_pid clears [success] and asks for an abort, but
    the FAILED bucket, like the other three, keeps its count. *)
Theorem wait_pid_not_success_uncounted :
  forall opt_abort oomed ret rest w,
    0 < ret ->
    exists r,
      stress_wait_pid opt_abort oomed (WaitReaped ret 512 :: rest) w = Some r
      /\ w_status (wr_state r) = w_status w
      /\ w_success (wr_state r) = false
      /\ wr_do_abort r = true.
Proof.
  intros opt_abort oomed ret rest w Hret.
  simpl. apply Z.ltb_lt in Hret. rewrite Hret.
  eexists. split; [reflexivity|].
  unfold wait_reaped.
  replace (WEXITSTATUS 512) with EXIT_NOT_SUCCESS by reflexivity.
  rewrite exit_switch_default by (left; reflexivity).
  simpl. repeat split.
Qed.

Lemma wait_pid_not_success_uncounted_witness :
  exists r,
    stress_wait_pid false false [WaitReaped 4242 512]
      (mk_wait (mk_status 0 0 0 0) 4242 0 true true true) = Some r
    /\ w_status (wr_state r) = mk_status 0 0 0 0
    /\ w_success (wr_state r) = false
    /\ wr_do_abort r = true.
Proof.
  apply (wait_pid_not_success_uncounted false false 4242 []
           (mk_wait (mk_status 0 0 0 0) 4242 0 true true true)).
  lia.
Defined.

(** ** The child run path and the validation pass *)

Section ChecksumProperties.

Variable pad_len : nat.
Variable stress_hash_jenkin : list Z -> Z.

Local Abbreviation run_child := (stress_run_child pad_len stress_hash_jenkin).
Local Abbreviation metrics_check := (stress_metrics_check pad_len stress_hash_jenkin).
Local Abbreviation matches := (slot_matches pad_len stress_hash_jenkin).

(** The exit sequence leaves the slot and its checksum alone. *)
Lemma child_exit_keeps :
  forall env rc stats checksum ic,
    child_stats (child_exit env rc stats checksum ic) = stats
    /\ child_checksum (child_exit env rc stats checksum ic) = checksum.
Proof. intros. split; reflexivity. Qed.

Lemma child_exit_rc :
  forall env rc stats checksum ic,
    child_rc (child_exit env rc stats checksum ic)
    = if terminate_signum env =? 0 then rc else EXIT_SIGNALED.
Proof.
  intros. unfold child_exit. simpl.
  destruct (terminate_signum env =? 0); reflexivity.
Qed.

(** On a slot that was not yet marked, the mark at exit tells that the
    stressor ran. *)
Lemma run_child_completed_iff :
  forall env stats checksum ic,
    st_completed stats = false ->
    (st_completed (child_stats (run_child env stats checksum ic)) = true
     <-> runs_stressor env = true).
Proof.
  intros env stats checksum ic Hfresh. split.
  - unfold stress_run_child, runs_stressor.
    destruct (handler_ok env); cbn [negb andb].
    + destruct (continue_flag env && negb (opt_dry_run env)); [reflexivity|].
      simpl. rewrite Hfresh. discriminate.
    + simpl. rewrite Hfresh. discriminate.
  - intros H. unfold runs_stressor in H.
    apply andb_true_iff in H. destruct H as [Hh Hc].
    unfold stress_run_child. rewrite Hh, Hc. cbn [negb].
    unfold child_run_block.
    destruct (stressor env (st_ci stats)) as [rc ci']. reflexivity.
Qed.

(** The hash stress_hash_checksum() stores is the hash of the packed
    data of the specification whenever the padding of the slot is
    zero. *)
Lemma hash_checksum_packed :
  forall c,
    data_pad c = repeat 0 pad_len ->
    hash (stress_hash_checksum stress_hash_jenkin c)
    = stress_hash_jenkin
        (spec_packed_data pad_len (data_ci_counter c) (data_ci_run_ok c)).
Proof.
  intros c Hpad. unfold stress_hash_checksum, checksum_data_bytes,
    spec_packed_data. cbn [hash]. rewrite Hpad. reflexivity.
Qed.

(** The run block leaves the slot with the invariant. *)
Lemma run_block_invariant :
  forall env stats checksum ic,
    runs_stressor env = true ->
    let r := run_child env stats checksum ic in
    st_completed (child_stats r) = true
    /\ spec_checksum_invariant pad_len stress_hash_jenkin
         (child_stats r) (child_checksum r).
Proof.
  intros env stats checksum ic Hrun r. subst r.
  unfold runs_stressor in Hrun.
  apply andb_true_iff in Hrun. destruct Hrun as [Hh Hc].
  unfold stress_run_child. rewrite Hh, Hc. cbn [negb].
  unfold child_run_block.
  destruct (stressor env (st_ci stats)) as [rc ci'].
  cbv zeta.
  match goal with
  | |- context [child_exit ?e ?rc ?s ?c ?i] =>
      destruct (child_exit_keeps e rc s c i) as [Hs Hk]; rewrite Hs, Hk
  end.
  split; [reflexivity|].
  unfold spec_checksum_invariant.
  rewrite hash_checksum_packed by reflexivity.
  repeat split.
Qed.

(** C1: for a worker whose run block was executed by this child, which
    is the case whenever the completed flag, clear when the child
    started, is set at its exit: at the exit of the child the slot is
    marked completed, the hash of the checksum slot is the hash of
    the packed data (counter, run flag, padding of zeros), and the
    counter and the run flag of the data are those of the counter
    info of the stats. *)
Theorem run_child_checksum_invariant :
  forall env stats checksum ic,
    runs_stressor env = true
    \/ (st_completed stats = false
        /\ st_completed (child_stats (run_child env stats checksum ic)) = true) ->
    let r := run_child env stats checksum ic in
    st_completed (child_stats r) = true
    /\ hash (child_checksum r)
       = stress_hash_jenkin
           (spec_packed_data pad_len
              (data_ci_counter (child_checksum r))
              (data_ci_run_ok (child_checksum r)))
    /\ data_pad (child_checksum r) = repeat 0 pad_len
    /\ data_ci_counter (child_checksum r) = ci_counter (st_ci (child_stats r))
    /\ data_ci_run_ok (child_checksum r) = ci_run_ok (st_ci (child_stats r)).
Proof.
  intros env stats checksum ic H r. subst r.
  assert (Hrun : runs_stressor env = true).
  { destruct H as [H | [Hfresh Hdone]]; [exact H|].
    apply (run_child_completed_iff env stats checksum ic Hfresh). exact Hdone. }
  exact (run_block_invariant env stats checksum ic Hrun).
Qed.

(** C10: with a terminate signal recorded by the time of the exit
    sequence, the child returns EXIT_SIGNALED, whatever the stressor
    returned and whatever the exit code was promoted to before. *)
Theorem run_child_terminate_overrides :
  forall env stats checksum ic,
    terminate_signum env <> 0 ->
    child_rc (run_child env stats checksum ic) = EXIT_SIGNALED.
Proof.
  intros env stats checksum ic Hsig.
  apply Z.eqb_neq in Hsig.
  unfold stress_run_child.
  destruct (negb (handler_ok env)).
  - rewrite child_exit_rc, Hsig. reflexivity.
  - destruct (if continue_flag env && negb (opt_dry_run env)
              then child_run_block pad_len stress_hash_jenkin env stats
              else (EXIT_SUCCESS, stats, checksum)) as [[rc st] ck].
    rewrite child_exit_rc, Hsig. reflexivity.
Qed.

(** X18: without a terminate signal the exit code of the run path stands;
    in particular a counter that is not ready promotes it. *)
Lemma run_child_untrustworthy :
  forall env stats checksum ic,
    runs_stressor env = true ->
    terminate_signum env = 0 ->
    ci_counter_ready (snd (stressor env (st_ci stats))) = false ->
    ci_force_killed (snd (stressor env (st_ci stats))) = false ->
    child_rc (run_child env stats checksum ic) = EXIT_METRICS_UNTRUSTWORTHY.
Proof.
  intros env stats checksum ic Hrun Hsig Hready Hkilled.
  unfold runs_stressor in Hrun.
  apply andb_true_iff in Hrun. destruct Hrun as [Hh Hc].
  unfold stress_run_child. rewrite Hh, Hc. cbn [negb].
  unfold child_run_block.
  destruct (stressor env (st_ci stats)) as [rc ci'].
  cbn [snd] in Hready, Hkilled. cbv zeta.
  rewrite child_exit_rc, Hsig. cbn.
  rewrite Hready, Hkilled. reflexivity.
Qed.

(** One slot of the pass. *)
Lemma metrics_check_slot_spec :
  forall ok stats,
    metrics_check_slot pad_len stress_hash_jenkin ok stats
    = if st_completed stats then ok && matches stats else ok.
Proof.
  intros ok stats.
  unfold metrics_check_slot, slot_matches.
  destruct (st_completed stats); cbn [negb]; [|reflexivity].
  destruct (st_checksum stats) as [c|]; [|now rewrite andb_false_r].
  cbv zeta.
  destruct (ci_counter (st_ci stats) =? data_ci_counter c);
    destruct (Bool.eqb (ci_run_ok (st_ci stats)) (data_ci_run_ok c));
    destruct (hash (rebuilt_checksum pad_len stress_hash_jenkin stats) =? hash c);
    destruct ok; reflexivity.
Qed.

Lemma metrics_check_slots_spec :
  forall l ok,
    fold_left (metrics_check_slot pad_len stress_hash_jenkin) l ok
    = ok && forallb matches (filter st_completed l).
Proof.
  induction l as [|stats l IH]; intros ok; simpl.
  - now rewrite andb_true_r.
  - rewrite IH, metrics_check_slot_spec.
    destruct (st_completed stats); simpl.
    + now rewrite andb_assoc.
    + reflexivity.
Qed.

Lemma metrics_check_list_spec :
  forall l ok,
    fold_left (metrics_check_stressor pad_len stress_hash_jenkin) l ok
    = ok && forallb matches (completed_slots l).
Proof.
  induction l as [|ss l IH]; intros ok; simpl.
  - now rewrite andb_true_r.
  - rewrite IH. unfold metrics_check_stressor.
    destruct (ss_ignore_run ss =? 0); cbn [negb].
    + rewrite metrics_check_slots_spec, forallb_app, andb_assoc. reflexivity.
    + reflexivity.
Qed.

(** The comparison the code makes is the one of the specification:
    the checksum it rebuilds is hashed over the data packed from the
    live counter and run flag. *)
Lemma slot_matches_agrees :
  forall stats,
    matches stats = spec_slot_agrees pad_len stress_hash_jenkin stats.
Proof.
  intros stats. unfold slot_matches, spec_slot_agrees.
  destruct (st_checksum stats) as [c|]; [|reflexivity].
  unfold rebuilt_checksum.
  rewrite hash_checksum_packed by reflexivity.
  reflexivity.
Qed.

(** C2: in the validation pass, when for some completed slot the live
    counter, the live run flag or the hash of the data packed from
    them differs from the stored checksum slot (or there is no stored
    slot), the success flag is cleared; when every completed slot
    agrees the flag is left as it was. *)
Theorem metrics_check_success :
  forall stressors_head success,
    (Exists (fun stats =>
               spec_slot_agrees pad_len stress_hash_jenkin stats = false)
            (completed_slots stressors_head) ->
     metrics_check stressors_head success = false)
    /\ (Forall (fun stats =>
                  spec_slot_agrees pad_len stress_hash_jenkin stats = true)
               (completed_slots stressors_head) ->
        metrics_check stressors_head success = success).
Proof.
  intros l success.
  unfold stress_metrics_check. rewrite metrics_check_list_spec. cbn [andb].
  split.
  - intros Hex.
    destruct (forallb matches (completed_slots l)) eqn:Hall; [|reflexivity].
    rewrite forallb_forall in Hall.
    apply Exists_exists in Hex. destruct Hex as [stats [Hin Hbad]].
    rewrite <- slot_matches_agrees, (Hall stats Hin) in Hbad. discriminate.
  - intros Hall.
    rewrite Forall_forall in Hall.
    assert (Hm : forall stats, In stats (completed_slots l) -> matches stats = true).
    { intros stats Hin. rewrite slot_matches_agrees. apply Hall, Hin. }
    rewrite (proj2 (forallb_forall matches (completed_slots l)) Hm).
    reflexivity.
Qed.

(** A slot disagrees exactly when its checksum pointer is NULL, or
    the live counter, the live run flag or the hash of the data
    packed from them differ from the stored ones. *)
Lemma slot_agrees_false :
  forall stats,
    spec_slot_agrees pad_len stress_hash_jenkin stats = false <->
    match st_checksum stats with
    | None => True
    | Some c =>
        ci_counter (st_ci stats) <> data_ci_counter c
        \/ ci_run_ok (st_ci stats) <> data_ci_run_ok c
        \/ stress_hash_jenkin
             (spec_packed_data pad_len (ci_counter (st_ci stats))
                               (ci_run_ok (st_ci stats)))
           <> hash c
    end.
Proof.
  intros stats. unfold spec_slot_agrees.
  destruct (st_checksum stats) as [c|]; [|tauto].
  rewrite !andb_false_iff, !Z.eqb_neq, Bool.eqb_false_iff. tauto.
Qed.

(** X17: at the exit of a child that executed its run block, the
    stats of its slot, read with the checksum slot the child wrote,
    are in agreement as the validation pass tests it, and a pass over
    a stressor whose instances are in that state leaves the success
    flag alone. *)
Lemma run_child_slot_matches :
  forall env stats checksum ic id permute status success,
    runs_stressor env = true ->
    let s := stats_after_child (run_child env stats checksum ic) in
    spec_slot_agrees pad_len stress_hash_jenkin s = true
    /\ metrics_check [mk_stressor id 0 permute 1 [s] status] success = success.
Proof.
  intros env stats checksum ic id permute status success Hrun s.
  destruct (run_block_invariant env stats checksum ic Hrun)
    as [Hdone [Hhash [Hpad [Hcnt Hok]]]].
  assert (Hs : spec_slot_agrees pad_len stress_hash_jenkin s = true).
  { subst s. unfold spec_slot_agrees, stats_after_child.
    cbn [st_checksum st_ci]. rewrite <- Hcnt, <- Hok, <- Hhash.
    rewrite !Z.eqb_refl, Bool.eqb_reflx. reflexivity. }
  split; [exact Hs|].
  unfold stress_metrics_check. rewrite metrics_check_list_spec.
  assert (Hc : st_completed s = true) by exact Hdone.
  change (completed_slots [mk_stressor id 0 permute 1 [s] status])
    with (filter st_completed [s] ++ []).
  cbn [filter]. rewrite Hc. cbn [app forallb andb].
  rewrite slot_matches_agrees, Hs. reflexivity.
Qed.

End ChecksumProperties.

Lemma run_child_checksum_invariant_witness :
  let r := stress_run_child sample_pad_len jenkin_one_at_a_time
             sample_env sample_stats sample_checksum sample_ic in
  st_completed (child_stats r) = true
  /\ hash (child_checksum r)
     = jenkin_one_at_a_time
         (spec_packed_data sample_pad_len
            (data_ci_counter (child_checksum r))
            (data_ci_run_ok (child_checksum r)))
  /\ data_pad (child_checksum r) = repeat 0 sample_pad_len
  /\ data_ci_counter (child_checksum r) = ci_counter (st_ci (child_stats r))
  /\ data_ci_run_ok (child_checksum r) = ci_run_ok (st_ci (child_stats r)).
Proof.
  apply (run_child_checksum_invariant sample_pad_len jenkin_one_at_a_time
           sample_env sample_stats sample_checksum sample_ic).
  right. split; reflexivity.
Defined.

(** C1 as stated, on the completed flag alone, fails. The flag is
    never cleared: when the fork loop of a later run takes the slot
    again it resets the counter, and a child of that run that skips
    its run block leaves with the flag of the earlier run still set,
    a counter of 0 in its stats and the 1000 of the earlier run in
    the checksum slot. *)
Lemma run_child_stale_flag_counterexample :
  ~ (forall env stats checksum ic,
       let r := stress_run_child sample_pad_len jenkin_one_at_a_time
                  env stats checksum ic in
       st_completed (child_stats r) = true ->
       spec_checksum_invariant sample_pad_len jenkin_one_at_a_time
         (child_stats r) (child_checksum r)).
Proof.
  intros H.
  specialize (H sample_env_stopped
                (slot_init (child_stats sample_first_run))
                (child_checksum sample_first_run)
                (child_ic sample_first_run)).
  cbv zeta in H. specialize (H eq_refl).
  destruct H as [_ [_ [Hcounter _]]].
  vm_compute in Hcounter. discriminate Hcounter.
Qed.

Lemma run_child_terminate_overrides_witness :
  child_rc (stress_run_child sample_pad_len jenkin_one_at_a_time
              sample_env_sigterm sample_stats sample_checksum sample_ic)
  = EXIT_SIGNALED.
Proof.
  apply (run_child_terminate_overrides sample_pad_len jenkin_one_at_a_time
           sample_env_sigterm sample_stats sample_checksum sample_ic).
  discriminate.
Defined.

(** A counter altered after the child stored it and a stored hash off
    by one both clear the flag; two slots in agreement leave it. *)
Lemma metrics_check_success_witness :
  stress_metrics_check sample_pad_len jenkin_one_at_a_time
    [sample_stressor 1 [sample_slot_good; sample_slot_corrupt]] true = false
  /\ stress_metrics_check sample_pad_len jenkin_one_at_a_time
       [sample_stressor 1 [sample_slot_good; sample_slot_bad_hash]] true = false
  /\ stress_metrics_check sample_pad_len jenkin_one_at_a_time
       [sample_stressor 1 [sample_slot_good; sample_slot_good]] true = true.
Proof.
  split; [|split].
  - apply (proj1 (metrics_check_success sample_pad_len jenkin_one_at_a_time
                    [sample_stressor 1 [sample_slot_good; sample_slot_corrupt]] true)).
    apply Exists_cons_tl, Exists_cons_hd. reflexivity.
  - apply (proj1 (metrics_check_success sample_pad_len jenkin_one_at_a_time
                    [sample_stressor 1 [sample_slot_good; sample_slot_bad_hash]] true)).
    apply Exists_cons_tl, Exists_cons_hd. vm_compute. reflexivity.
  - apply (proj2 (metrics_check_success sample_pad_len jenkin_one_at_a_time
                    [sample_stressor 1 [sample_slot_good; sample_slot_good]] true)).
    repeat constructor.
Defined.

(** ** The kill escalation *)

Lemma kill_instances_sent :
  forall signum l,
    fst (kill_instances signum l)
    = map (fun pid => (pid, signum)) (map st_pid (filter is_target l)).
Proof.
  intros signum. induction l as [|stats l IH]; simpl; [reflexivity|].
  destruct (kill_instances signum l) as [sent rest'].
  simpl in IH. unfold is_target at 1.
  destruct (negb (st_pid stats =? 0) && negb (st_signalled stats)); simpl.
  - now rewrite IH.
  - exact IH.
Qed.

Lemma kill_list_loop_sent :
  forall signum l,
    fst (kill_list_loop signum l)
    = map (fun pid => (pid, signum)) (kill_targets l).
Proof.
  intros signum. induction l as [|ss l IH]; simpl; [reflexivity|].
  destruct (kill_list_loop signum l) as [sent_rest rest'].
  simpl in IH.
  destruct (ss_ignore_run ss =? 0); cbn [negb].
  - pose proof (kill_instances_sent signum
                  (firstn (Z.to_nat (ss_num_instances ss)) (ss_stats ss))) as Hi.
    destruct (kill_instances signum
                (firstn (Z.to_nat (ss_num_instances ss)) (ss_stats ss)))
      as [sent visited].
    simpl in Hi. simpl. rewrite map_app, Hi, IH. reflexivity.
  - simpl. exact IH.
Qed.

Lemma wrap_int_small :
  forall z, - 2 ^ 31 <= z < 2 ^ 31 -> wrap_int z = z.
Proof.
  intros z Hz. unfold wrap_int.
  rewrite Z.mod_small by lia. lia.
Qed.

(** The static counter counts the forced calls and nothing else. *)
Lemma kill_calls_count :
  forall calls count,
    0 <= count ->
    count + forced_calls calls < 2 ^ 31 ->
    kill_calls count calls = count + forced_calls calls.
Proof.
  unfold kill_calls, forced_calls.
  induction calls as [|k calls IH]; intros count Hc Hb; simpl in *.
  - lia.
  - unfold stress_kill_stressors at 2.
    destruct (kc_force k) eqn:Hf.
    + simpl length in Hb. rewrite Nat2Z.inj_succ in Hb.
      destruct (kill_list_loop _ (kc_list k)) as [sent l']. simpl kill_count.
      rewrite wrap_int_small by lia.
      rewrite IH by lia. simpl length. lia.
    + destruct (kill_list_loop _ (kc_list k)) as [sent l']. simpl kill_count.
      apply IH; lia.
Qed.

(** A call marks every worker it reaches, so the list it leaves has
    no worker left to reach. *)
Lemma kill_instances_marks :
  forall signum l,
    filter is_target (snd (kill_instances signum l)) = []
    /\ length (snd (kill_instances signum l)) = length l.
Proof.
  intros signum. induction l as [|stats l IH]; simpl; [split; reflexivity|].
  destruct (kill_instances signum l) as [sent rest']. simpl in IH.
  destruct IH as [IH1 IH2].
  destruct (negb (st_pid stats =? 0) && negb (st_signalled stats)) eqn:Ht; simpl.
  - unfold is_target at 1. simpl. rewrite andb_false_r. split; [exact IH1 | lia].
  - unfold is_target at 1. rewrite Ht. split; [exact IH1 | lia].
Qed.

Lemma kill_stressors_marks :
  forall sig force_sigkill count l,
    kill_targets (kill_list (stress_kill_stressors sig force_sigkill count l)) = [].
Proof.
  intros sig force count l. unfold stress_kill_stressors.
  generalize (if force && (5 <? (if force then wrap_int (count + 1) else count))
              then SIGKILL else sig) as signum.
  intros signum.
  assert (H : kill_targets (snd (kill_list_loop signum l)) = []).
  { induction l as [|ss l IH]; simpl; [reflexivity|].
    destruct (kill_list_loop signum l) as [sent_rest rest']. simpl in IH.
    destruct (ss_ignore_run ss =? 0) eqn:Hr; cbn [negb].
    - pose proof (kill_instances_marks signum
                    (firstn (Z.to_nat (ss_num_instances ss)) (ss_stats ss)))
        as [Hm Hl].
      destruct (kill_instances signum
                  (firstn (Z.to_nat (ss_num_instances ss)) (ss_stats ss)))
        as [sent visited].
      simpl in Hm, Hl. simpl. rewrite Hr, IH, app_nil_r.
      unfold instances. simpl.
      rewrite firstn_app.
      replace (Z.to_nat (ss_num_instances ss) - length visited)%nat
        with (Z.to_nat (ss_num_instances ss)
              - length (firstn (Z.to_nat (ss_num_instances ss)) (ss_stats ss)))%nat
        by (rewrite Hl; reflexivity).
      rewrite length_firstn.
      destruct (Nat.le_ge_cases (Z.to_nat (ss_num_instances ss)) (length (ss_stats ss)))
        as [Hle | Hge].
      + rewrite Nat.min_l by exact Hle. rewrite Nat.sub_diag. simpl.
        rewrite app_nil_r.
        rewrite firstn_all2 by (rewrite Hl, length_firstn; lia).
        rewrite Hm. reflexivity.
      + rewrite Nat.min_r by exact Hge.
        rewrite skipn_all2 by exact Hge.
        rewrite firstn_nil, app_nil_r.
        rewrite firstn_all2 by (rewrite Hl, length_firstn; lia).
        rewrite Hm. reflexivity.
    - simpl. rewrite Hr. exact IH. }
  destruct (kill_list_loop signum l) as [sent l']. exact H.
Qed.

(** C6, as the code has it: after any sequence of calls, a call that
    passes force_sigkill sends SIGKILL to every worker it reaches
    once five forced calls came before it, and the signal of its
    caller until then; a call that does not pass force_sigkill sends
    the signal of its caller whatever came before. The workers
    reached are those with a pid, not yet signalled, of the stressors
    that are not ignored. *)
Theorem kill_stressors_escalation :
  forall (pre : list kill_call) (sig : Z) (force_sigkill : bool)
         (l : list stress_stressor_t),
    forced_calls pre < 2 ^ 31 - 1 ->
    kill_sent (stress_kill_stressors sig force_sigkill (kill_calls 0 pre) l)
    = map (fun pid =>
             (pid, if force_sigkill && (5 <=? forced_calls pre)
                   then SIGKILL else sig))
          (kill_targets l).
Proof.
  intros pre sig force l Hb.
  assert (H0 : 0 <= forced_calls pre) by (unfold forced_calls; lia).
  rewrite kill_calls_count by lia.
  unfold stress_kill_stressors.
  assert (Hsig :
    (if force && (5 <? (if force then wrap_int (0 + forced_calls pre + 1)
                        else 0 + forced_calls pre))
     then SIGKILL else sig)
    = (if force && (5 <=? forced_calls pre) then SIGKILL else sig)).
  { destruct force; cbn [andb]; [|reflexivity].
    rewrite wrap_int_small by lia.
    destruct (Z.leb_spec 5 (forced_calls pre)),
             (Z.ltb_spec 5 (0 + forced_calls pre + 1));
      try reflexivity; lia. }
  rewrite Hsig.
  match goal with
  | |- context [kill_list_loop ?s l] =>
      pose proof (kill_list_loop_sent s l) as Hs;
      destruct (kill_list_loop s l) as [sent l']
  end.
  simpl in Hs. simpl kill_sent. exact Hs.
Qed.

(** Five forced calls came first: the sixth sends SIGKILL in place of
    SIGALRM to the live worker. *)
Lemma kill_stressors_escalation_witness :
  kill_sent
    (stress_kill_stressors SIGALRM true
       (kill_calls 0 (repeat (mk_kill_call SIGALRM true []) 5))
       [sample_stressor 1 [sample_live]])
  = [(4242, SIGKILL)].
Proof.
  apply (kill_stressors_escalation
           (repeat (mk_kill_call SIGALRM true []) 5) SIGALRM true
           [sample_stressor 1 [sample_live]]).
  vm_compute. reflexivity.
Defined.

(** C6 as stated fails: after five calls made without force_sigkill,
    as the SIGALRM handler of the parent makes them, the sixth still
    sends SIGALRM. *)
Lemma kill_stressors_unforced_counterexample :
  ~ (forall (pre : list kill_call) (sig : Z) (force_sigkill : bool)
            (l : list stress_stressor_t),
        (5 <= length pre)%nat ->
        kill_sent (stress_kill_stressors sig force_sigkill (kill_calls 0 pre) l)
        = map (fun pid => (pid, SIGKILL)) (kill_targets l)).
Proof.
  intros H.
  specialize (H (repeat (mk_kill_call SIGALRM false []) 5) SIGALRM false
                [sample_stressor 1 [sample_live]]).
  simpl in H. specialize (H (le_n 5)).
  vm_compute in H. discriminate H.
Qed.

(** ** The length of the checksum mapping *)

Lemma wrap64_small : forall z, 0 <= z < 2 ^ 64 -> wrap64 z = z.
Proof. intros z Hz. unfold wrap64. apply Z.mod_small. exact Hz. Qed.

(** Masking with the complement of [2^k - 1] on 64 bits rounds down
    to a multiple of [2^k]. *)
Lemma land_page_mask :
  forall x k,
    0 <= k < 64 -> 0 <= x < 2 ^ 64 ->
    Z.land x (page_mask (2 ^ k)) = x / 2 ^ k * 2 ^ k.
Proof.
  intros x k Hk Hx.
  assert (Hp : 0 < 2 ^ k) by (apply Z.pow_pos_nonneg; lia).
  assert (Hle : 2 ^ k <= 2 ^ 64) by (apply Z.pow_le_mono_r; lia).
  unfold page_mask.
  rewrite (wrap64_small (2 ^ k - 1)) by lia.
  unfold wrap64.
  rewrite <- (Z.land_ones _ 64) by lia.
  rewrite Z.land_assoc, (Z.land_comm x), <- Z.land_assoc.
  rewrite (Z.land_ones x 64) by lia.
  rewrite (Z.mod_small x) by lia.
  replace (2 ^ k - 1) with (Z.ones k) by (rewrite Z.ones_equiv; lia).
  rewrite Z.land_comm.
  rewrite <- Z.ldiff_land, Z.ldiff_ones_r by lia.
  rewrite Z.shiftl_mul_pow2, Z.shiftr_div_pow2 by lia.
  reflexivity.
Qed.

(** C9, as the code has it: for an int32_t instance count T >= 0, a
    slot size S and a page size P that is a power of two, with
    T*S + P within a size_t, the length of the checksum mapping is
    T*S + P rounded down to a multiple of P. That is the least
    multiple of P above T*S, and it is roundup(T*S + P, P) only when
    T*S is itself a multiple of P. *)
Theorem checksum_map_length_spec :
  forall S P T k : Z,
    0 <= T < 2 ^ 31 -> 0 <= S -> 0 <= k -> P = 2 ^ k -> S * T + P < 2 ^ 64 ->
    checksum_map_length S P T = (S * T + P) / P * P
    /\ S * T < checksum_map_length S P T <= S * T + P
    /\ (checksum_map_length S P T = roundup (S * T + P) P <-> (S * T) mod P = 0).
Proof.
  intros S P T k HT HS Hk HP Hb.
  assert (Hpos : 0 < P) by (subst P; apply Z.pow_pos_nonneg; lia).
  assert (Hlen : 0 <= S * T) by nia.
  assert (Hk64 : k < 64).
  { destruct (Z.lt_ge_cases k 64) as [Hlt | Hge]; [exact Hlt|].
    assert (2 ^ 64 <= 2 ^ k) by (apply Z.pow_le_mono_r; lia).
    subst P. lia. }
  assert (Heq : checksum_map_length S P T = (S * T + P) / P * P).
  { unfold checksum_map_length.
    rewrite (wrap64_small T) by lia.
    rewrite (wrap64_small (S * T)) by lia.
    rewrite (wrap64_small (S * T + P)) by lia.
    subst P. apply land_page_mask; lia. }
  assert (Hdown : (S * T + P) / P * P = S * T - (S * T) mod P + P).
  { replace (S * T + P) with (S * T + 1 * P) by ring.
    rewrite Z.div_add by lia.
    pose proof (Z.div_mod (S * T) P ltac:(lia)). nia. }
  pose proof (Z.mod_pos_bound (S * T) P Hpos) as Hm.
  split; [exact Heq|]. split.
  - rewrite Heq, Hdown. lia.
  - rewrite Heq, Hdown. unfold roundup.
    replace (S * T + P + P - 1) with ((S * T + P - 1) + 1 * P) by ring.
    rewrite Z.div_add by lia.
    destruct (Z.eq_dec ((S * T) mod P) 0) as [H0 | Hn0].
    + split; [intros _; exact H0|]. intros _.
      pose proof (Z.div_mod (S * T) P ltac:(lia)) as Hdm.
      rewrite H0 in Hdm |- *.
      replace (S * T + P - 1) with ((P - 1) + (S * T / P) * P) by lia.
      rewrite Z.div_add by lia.
      rewrite (Z.div_small (P - 1) P) by lia. lia.
    + split; [|intros H0; contradiction].
      intros Habs. exfalso.
      pose proof (Z.div_mod (S * T) P ltac:(lia)) as Hdm.
      assert (Hq : (S * T + P - 1) / P = S * T / P + 1).
      { replace (S * T + P - 1)
          with (((S * T) mod P - 1) + (S * T / P + 1) * P) by lia.
        rewrite Z.div_add by lia.
        rewrite (Z.div_small ((S * T) mod P - 1) P) by lia. lia. }
      rewrite Hq in Habs. nia.
Qed.

(** One slot of 24 bytes on 4096-byte pages gets one page. *)
Lemma checksum_map_length_spec_witness :
  checksum_map_length 24 4096 1 = (24 * 1 + 4096) / 4096 * 4096
  /\ 24 * 1 < checksum_map_length 24 4096 1 <= 24 * 1 + 4096
  /\ (checksum_map_length 24 4096 1 = roundup (24 * 1 + 4096) 4096
      <-> (24 * 1) mod 4096 = 0).
Proof.
  apply (checksum_map_length_spec 24 4096 1 12); try lia; reflexivity.
Defined.

(** C9 as stated fails: with one slot of 24 bytes and 4096-byte pages
    the mapping is 4096 bytes long, while 24 + 4096 rounded up to a
    multiple of 4096 is 8192. *)
Lemma checksum_map_length_roundup_counterexample :
  ~ (forall S P T k : Z,
        0 <= T < 2 ^ 31 -> 0 <= k -> P = 2 ^ k ->
        checksum_map_length S P T = roundup (S * T + P) P).
Proof.
  intros H.
  specialize (H 24 4096 1 12 ltac:(lia) ltac:(lia) eq_refl).
  vm_compute in H. discriminate H.
Qed.

(** The main mapping is cut the same way, two pages above the head
    and the slots. *)
Lemma shared_map_length_spec :
  forall H S P T k : Z,
    0 <= T < 2 ^ 31 -> 0 <= H -> 0 <= S -> 0 <= k -> P = 2 ^ k ->
    H + S * T + 2 * P < 2 ^ 64 ->
    shared_map_length H S P T = (H + S * T + 2 * P) / P * P.
Proof.
  intros H S P T k HT HH HS Hk HP Hb.
  assert (Hpos : 0 < P) by (subst P; apply Z.pow_pos_nonneg; lia).
  assert (Hlen : 0 <= S * T) by nia.
  assert (Hk64 : k < 64).
  { destruct (Z.lt_ge_cases k 64) as [Hlt | Hge]; [exact Hlt|].
    assert (2 ^ 64 <= 2 ^ k) by (apply Z.pow_le_mono_r; lia).
    subst P. lia. }
  unfold shared_map_length.
  rewrite Z.shiftl_mul_pow2 by lia. change (2 ^ 1) with 2.
  rewrite (wrap64_small T) by lia.
  rewrite (wrap64_small (S * T)) by lia.
  rewrite (wrap64_small (H + S * T)) by lia.
  rewrite (wrap64_small (P * 2)) by lia.
  rewrite (wrap64_small (H + S * T + P * 2)) by lia.
  replace (H + S * T + 2 * P) with (H + S * T + P * 2) by ring.
  subst P. apply land_page_mask; lia.
Qed.

Lemma checksum_map_length_sample :
  checksum_map_length 24 4096 1 = 4096 /\ roundup (24 * 1 + 4096) 4096 = 8192.
Proof. split; reflexivity. Qed.

(** ** The permutation regime *)

Lemma land_shiftl_testbit :
  forall i j, 0 <= j -> (Z.land i (Z.shiftl 1 j) =? 0) = negb (Z.testbit i j).
Proof.
  intros i j Hj.
  rewrite Z.shiftl_1_l.
  destruct (Z.testbit i j) eqn:Hb; cbn [negb].
  - apply Z.eqb_neq. intros H0.
    assert (Hbit : Z.testbit (Z.land i (2 ^ j)) j = true).
    { rewrite Z.land_spec, Hb, Z.pow2_bits_true by lia. reflexivity. }
    rewrite H0, Z.bits_0 in Hbit. discriminate.
  - apply Z.eqb_eq. apply Z.bits_inj'. intros n Hn.
    rewrite Z.land_spec, Z.bits_0.
    destruct (Z.eq_dec n j) as [->|Hne].
    + rewrite Hb. reflexivity.
    + rewrite Z.pow2_bits_false by lia. apply andb_false_r.
Qed.

Lemma set_ignore_permute_twice :
  forall ss b b', set_ignore_permute (set_ignore_permute ss b') b = set_ignore_permute ss b.
Proof. reflexivity. Qed.

(** Masking for run [i] forgets the mask of an earlier run. *)
Lemma permute_mask_overwrite :
  forall l i i' j,
    permute_mask i j (permute_mask i' j l) = permute_mask i j l.
Proof.
  induction l as [|ss l IH]; intros i i' j; simpl; [reflexivity|].
  destruct (j <? max_perms) eqn:Hj.
  - destruct (ss_ignore_run ss =? 0) eqn:Hr; cbn [negb]; simpl;
      rewrite Hj, Hr; cbn [negb]; rewrite IH; reflexivity.
  - simpl. rewrite Hj. reflexivity.
Qed.

(** The mask depends on the list only through the flags of its
    nodes. *)
Lemma permute_mask_flags_congr :
  forall l1 l2 i j,
    map stressor_flags l1 = map stressor_flags l2 ->
    map stressor_flags (permute_mask i j l1)
    = map stressor_flags (permute_mask i j l2).
Proof.
  induction l1 as [|a l1 IH]; intros [|b l2] i j H; cbn [map] in H;
    try discriminate; [reflexivity|].
  injection H as Hid Hrun Hperm Hrest.
  simpl. destruct (j <? max_perms).
  - rewrite Hrun.
    destruct (ss_ignore_run b =? 0); cbn [negb]; simpl;
      unfold stressor_flags at 1 3; simpl;
      rewrite Hid, Hrun; f_equal; apply IH; exact Hrest.
  - simpl. unfold stressor_flags at 1 3.
    rewrite Hid, Hrun, Hperm, Hrest. reflexivity.
Qed.

Lemma permute_mask_keeps :
  forall l i j,
    map ss_id (permute_mask i j l) = map ss_id l
    /\ map ss_ignore_run (permute_mask i j l) = map ss_ignore_run l.
Proof.
  induction l as [|ss l IH]; intros i j; simpl; [split; reflexivity|].
  destruct (j <? max_perms); [|split; reflexivity].
  destruct (negb (ss_ignore_run ss =? 0)); simpl;
    match goal with
    | |- context [permute_mask i ?j' l] =>
        destruct (IH i j') as [H1 H2]; rewrite H1, H2
    end; split; reflexivity.
Qed.

(** The n-th enabled stressor after masking: the same stressor, with
    its permute flag clear exactly when bit [j + n] of [i] is set, as
    long as [j + n] is below max_perms, and untouched beyond. *)
Lemma permute_mask_enabled_nth :
  forall l i j n ss,
    0 <= j ->
    nth_error (enabled l) n = Some ss ->
    exists ss',
      nth_error (enabled (permute_mask i j l)) n = Some ss'
      /\ ss_id ss' = ss_id ss
      /\ ss_ignore_run ss' = 0
      /\ ss_ignore_permute ss'
         = if j + Z.of_nat n <? max_perms
           then negb (Z.testbit i (j + Z.of_nat n))
           else ss_ignore_permute ss.
Proof.
  induction l as [|a l IH]; intros i j n ss Hj Hn.
  - destruct n; discriminate Hn.
  - simpl. destruct (j <? max_perms) eqn:Hjm.
    + simpl in Hn. destruct (ss_ignore_run a =? 0) eqn:Hr; cbn [negb].
      * simpl. rewrite Hr. destruct n as [|n].
        -- simpl in Hn. injection Hn as <-.
           eexists. split; [reflexivity|]. simpl.
           rewrite Z.add_0_r, Hjm, land_shiftl_testbit by lia.
           apply Z.eqb_eq in Hr. repeat split; assumption.
        -- simpl in Hn. simpl.
           destruct (IH i (j + 1) n ss ltac:(lia) Hn) as [ss' [H1 [H2 [H3 H4]]]].
           exists ss'. repeat split; try assumption.
           rewrite H4. replace (j + 1 + Z.of_nat n) with (j + Z.of_nat (S n)) by lia.
           reflexivity.
      * simpl. rewrite Hr. apply IH; assumption.
    + exists ss. split; [exact Hn|].
      assert (Hin : In ss (enabled (a :: l))) by (eapply nth_error_In; exact Hn).
      apply filter_In in Hin. destruct Hin as [_ Hrun].
      apply Z.eqb_eq in Hrun.
      apply Z.ltb_ge in Hjm.
      replace (j + Z.of_nat n <? max_perms) with false
        by (symmetry; apply Z.ltb_ge; lia).
      repeat split. exact Hrun.
Qed.

Lemma enabled_flags_congr :
  forall l1 l2,
    map stressor_flags l1 = map stressor_flags l2 ->
    map stressor_flags (enabled l1) = map stressor_flags (enabled l2).
Proof.
  induction l1 as [|a l1 IH]; intros [|b l2] H; cbn [map] in H;
    try discriminate; [reflexivity|].
  injection H as Hid Hrun Hperm Hrest.
  assert (Hab : stressor_flags a = stressor_flags b)
    by (unfold stressor_flags; congruence).
  simpl. rewrite Hrun.
  destruct (ss_ignore_run b =? 0); simpl.
  - rewrite Hab. f_equal. apply IH. exact Hrest.
  - apply IH. exact Hrest.
Qed.

Lemma flags_nth_error :
  forall l1 l2 n ss,
    map stressor_flags l1 = map stressor_flags l2 ->
    nth_error l1 n = Some ss ->
    exists ss', nth_error l2 n = Some ss' /\ stressor_flags ss' = stressor_flags ss.
Proof.
  induction l1 as [|a l1 IH]; intros [|b l2] n ss H Hn; cbn [map] in H;
    try discriminate.
  - destruct n; discriminate Hn.
  - injection H as Hid Hrun Hperm Hrest. destruct n as [|n]; simpl in *.
    + injection Hn as <-. exists b.
      split; [reflexivity | unfold stressor_flags; congruence].
    + apply (IH l2 n ss Hrest Hn).
Qed.

Lemma flags_keep_ids :
  forall l1 l2,
    map stressor_flags l1 = map stressor_flags l2 ->
    map ss_id l1 = map ss_id l2 /\ map ss_ignore_run l1 = map ss_ignore_run l2.
Proof.
  intros l1 l2 H. split.
  - assert (E : forall l, map ss_id l = map (fun f => fst (fst f)) (map stressor_flags l))
      by (intros l; rewrite map_map; reflexivity).
    rewrite (E l1), (E l2), H. reflexivity.
  - assert (E : forall l, map ss_ignore_run l
                          = map (fun f => snd (fst f)) (map stressor_flags l))
      by (intros l; rewrite map_map; reflexivity).
    rewrite (E l1), (E l2), H. reflexivity.
Qed.

Section PermuteLoop.

Variable cont : Z -> bool.
Variable run : list stress_stressor_t -> list stress_stressor_t.
Variable init : list stress_stressor_t.
Variables n num_perms : Z.

Hypothesis run_keeps_flags :
  forall x, map stressor_flags (run x) = map stressor_flags x.
Hypothesis cont_before : forall x, 1 <= x < n -> cont x = true.
Hypothesis n_le : n <= num_perms.
Hypothesis cont_at : n < num_perms -> cont n = false.

(** The loop drives the runs [i .. n-1], each on the list masked for
    its index, whatever the earlier runs left in the list. *)
Lemma permute_loop_runs :
  forall fuel i l,
    1 <= i <= n ->
    n - i <= Z.of_nat fuel ->
    (forall x, map stressor_flags (permute_mask x 0 l)
               = map stressor_flags (permute_mask x 0 init)) ->
    let runs := fst (permute_loop cont run fuel i num_perms l) in
    Z.of_nat (length runs) = n - i
    /\ forall x, i <= x < n ->
         exists r, nth_error runs (Z.to_nat (x - i)) = Some r
                   /\ map stressor_flags r
                      = map stressor_flags (permute_mask x 0 init).
Proof.
  induction fuel as [|fuel IH]; intros i l Hi Hfuel Hinv.
  - simpl. split; [simpl; lia|]. intros x Hx. lia.
  - cbn [permute_loop].
    destruct (Z.eq_dec i n) as [-> | Hne].
    + assert (Hstop : cont n && (n <? num_perms) = false).
      { destruct (Z.ltb_spec n num_perms) as [Hlt | Hge].
        - rewrite (cont_at Hlt). reflexivity.
        - apply andb_false_r. }
      rewrite Hstop. simpl. split; [lia|]. intros x Hx. lia.
    + assert (Hgo : cont i && (i <? num_perms) = true).
      { rewrite cont_before by lia. simpl. apply Z.ltb_lt. lia. }
      rewrite Hgo.
      assert (Hinv' : forall x,
                 map stressor_flags (permute_mask x 0 (run (permute_mask i 0 l)))
                 = map stressor_flags (permute_mask x 0 init)).
      { intros x.
        rewrite (permute_mask_flags_congr _ (permute_mask i 0 l) x 0
                   (run_keeps_flags _)).
        rewrite permute_mask_overwrite. apply Hinv. }
      specialize (IH (i + 1) (run (permute_mask i 0 l))
                     ltac:(lia) ltac:(lia) Hinv').
      destruct (permute_loop cont run fuel (i + 1) num_perms
                  (run (permute_mask i 0 l))) as [runs l'].
      cbn [fst] in IH |- *. destruct IH as [Hlen Hnth].
      split.
      * simpl length. lia.
      * intros x Hx.
        destruct (Z.eq_dec x i) as [-> | Hxi].
        -- rewrite Z.sub_diag. simpl. eexists. split; [reflexivity|].
           apply Hinv.
        -- destruct (Hnth x ltac:(lia)) as [r [Hr Hf]].
           exists r. split; [|exact Hf].
           replace (Z.to_nat (x - i)) with (S (Z.to_nat (x - (i + 1)))) by lia.
           exact Hr.
Qed.

End PermuteLoop.

Lemma enabled_length_congr :
  forall x y,
    map ss_ignore_run x = map ss_ignore_run y ->
    length (enabled x) = length (enabled y).
Proof.
  induction x as [|a x IH]; intros [|b y] Hxy; cbn [map] in Hxy;
    try discriminate; [reflexivity|].
  injection Hxy as Hab Hxy. simpl. rewrite Hab.
  destruct (ss_ignore_run b =? 0); simpl; rewrite (IH y Hxy); reflexivity.
Qed.

Lemma enabled_set_all :
  forall l b,
    enabled (map (fun ss => set_ignore_permute ss b) l)
    = map (fun ss => set_ignore_permute ss b) (enabled l).
Proof.
  induction l as [|a l IH]; intros b; simpl; [reflexivity|].
  destruct (ss_ignore_run a =? 0); simpl; rewrite IH; reflexivity.
Qed.

(** C7, as the code has it: with k = min(number of enabled stressors,
    16), the regime drives the runs 1, 2, ... for as long as the
    continue flag is found set at the head of the loop and stops at
    the first index [n] where it is found cleared, or at 2^k when it
    never is: with the flag set throughout, exactly 2^k - 1 runs. Run
    [i] is handed the same stressors in the same order, and in it the
    j-th enabled stressor takes part if and only if j < 16 and bit j
    of i is set; a stressor that is not enabled takes part in no
    run. *)
Theorem permute_runs :
  forall (cont : Z -> bool)
         (run : list stress_stressor_t -> list stress_stressor_t)
         (l : list stress_stressor_t) (n : Z),
    (forall x, map stressor_flags (run x) = map stressor_flags x) ->
    1 <= n <= 2 ^ Z.min (Z.of_nat (length (enabled l))) max_perms ->
    (forall i, 1 <= i < n -> cont i = true) ->
    (n < 2 ^ Z.min (Z.of_nat (length (enabled l))) max_perms -> cont n = false) ->
    Z.of_nat (length (fst (stress_run_permute cont run l))) = n - 1
    /\ forall i, 1 <= i < n ->
         exists r,
           nth_error (fst (stress_run_permute cont run l)) (Z.to_nat (i - 1)) = Some r
           /\ map ss_id r = map ss_id l
           /\ map ss_ignore_run r = map ss_ignore_run l
           /\ (forall j ss,
                  nth_error (enabled r) j = Some ss ->
                  participates ss
                  = (Z.of_nat j <? max_perms) && Z.testbit i (Z.of_nat j))
           /\ (forall ss, In ss r -> ss_ignore_run ss <> 0 -> participates ss = false).
Proof.
  intros cont run l n Hrun Hn Hbefore Hat.
  set (k := Z.min (Z.of_nat (length (enabled l))) max_perms) in *.
  assert (Hk : 0 <= k <= 16) by (unfold k, max_perms; lia).
  unfold stress_run_permute, permute_init.
  fold (enabled l).
  assert (Hperms : (if max_perms <? Z.of_nat (length (enabled l))
                    then max_perms else Z.of_nat (length (enabled l))) = k).
  { unfold k. destruct (Z.ltb_spec max_perms (Z.of_nat (length (enabled l)))); lia. }
  rewrite Hperms, Z.shiftl_1_l.
  set (init := map (fun ss => set_ignore_permute ss true) l).
  assert (Hpow : 1 <= 2 ^ k) by (apply (Z.pow_le_mono_r 2 0 k); lia).
  pose proof (permute_loop_runs cont run init n (2 ^ k) Hrun Hbefore
                ltac:(lia) Hat (Z.to_nat (2 ^ k)) 1 init
                ltac:(lia) ltac:(lia) (fun x => eq_refl)) as Hloop.
  destruct (permute_loop cont run (Z.to_nat (2 ^ k)) 1 (2 ^ k) init) as [runs l'].
  cbn [fst] in Hloop |- *. destruct Hloop as [Hlen Hnth].
  split; [exact Hlen|].
  intros i Hi.
  destruct (Hnth i Hi) as [r [Hr Hf]].
  exists r. split; [exact Hr|].
  destruct (flags_keep_ids _ _ Hf) as [Hids Hruns].
  destruct (permute_mask_keeps init i 0) as [Hmid Hmrun].
  assert (Hinit_id : map ss_id init = map ss_id l)
    by (unfold init; rewrite map_map; reflexivity).
  assert (Hinit_run : map ss_ignore_run init = map ss_ignore_run l)
    by (unfold init; rewrite map_map; reflexivity).
  split; [congruence|]. split; [congruence|]. split.
  - intros j ss Hj.
    destruct (flags_nth_error _ _ j ss (enabled_flags_congr _ _ Hf) Hj)
      as [ss' [Hj' Hfl]].
    assert (Hlt : (j < length (enabled init))%nat).
    { rewrite <- (enabled_length_congr _ _ Hmrun).
      apply nth_error_Some. rewrite Hj'. discriminate. }
    destruct (nth_error (enabled init) j) as [s0|] eqn:Hs0;
      [|apply nth_error_None in Hs0; lia].
    destruct (permute_mask_enabled_nth init i 0 j s0 ltac:(lia) Hs0)
      as [s1 [H1 [_ [H3 H4]]]].
    rewrite Hj' in H1. injection H1 as ->.
    unfold stressor_flags in Hfl. injection Hfl as _ Hfrun Hfperm.
    unfold participates. rewrite <- Hfrun, <- Hfperm, H3, H4. simpl.
    destruct (Z.of_nat j <? max_perms); simpl.
    + apply negb_involutive.
    + assert (Hin : In s0 (enabled init)) by (eapply nth_error_In; exact Hs0).
      unfold init in Hin. rewrite enabled_set_all in Hin.
      apply in_map_iff in Hin. destruct Hin as [s00 [<- _]]. reflexivity.
  - intros ss _ Hne. unfold participates.
    apply Z.eqb_neq in Hne. rewrite Hne. reflexivity.
Qed.

(** With three enabled stressors and the continue flag set throughout,
    seven runs are driven. *)
Lemma permute_runs_witness :
  Z.of_nat (length (fst (stress_run_permute (fun _ => true) (fun x => x) sample_three)))
  = 8 - 1
  /\ forall i, 1 <= i < 8 ->
       exists r,
         nth_error (fst (stress_run_permute (fun _ => true) (fun x => x) sample_three))
                   (Z.to_nat (i - 1)) = Some r
         /\ map ss_id r = map ss_id sample_three
         /\ map ss_ignore_run r = map ss_ignore_run sample_three
         /\ (forall j ss,
                nth_error (enabled r) j = Some ss ->
                participates ss
                = (Z.of_nat j <? max_perms) && Z.testbit i (Z.of_nat j))
         /\ (forall ss, In ss r -> ss_ignore_run ss <> 0 -> participates ss = false).
Proof.
  apply (permute_runs (fun _ => true) (fun x => x) sample_three 8).
  - intros x. reflexivity.
  - vm_compute. split; discriminate.
  - intros i Hi. reflexivity.
  - vm_compute. discriminate.
Defined.

(** C7 as stated fails: with the continue flag already cleared, as
    after an interrupt, no run is driven although three stressors are
    enabled. *)
Lemma permute_runs_stopped_counterexample :
  ~ (forall (cont : Z -> bool)
            (run : list stress_stressor_t -> list stress_stressor_t)
            (l : list stress_stressor_t),
        (forall x, map stressor_flags (run x) = map stressor_flags x) ->
        Z.of_nat (length (fst (stress_run_permute cont run l)))
        = 2 ^ Z.min (Z.of_nat (length (enabled l))) max_perms - 1).
Proof.
  intros H.
  specialize (H (fun _ => false) (fun x => x) sample_three (fun x => eq_refl)).
  vm_compute in H. discriminate H.
Qed.

Lemma permute_three_runs :
  map (fun r => map ss_id (filter participates r))
      (fst (stress_run_permute (fun _ => true) (fun x => x) sample_three))
  = [[1]; [2]; [1; 2]; [3]; [1; 3]; [2; 3]; [1; 2; 3]].
Proof. vm_compute. reflexivity. Qed.

(** ** The auxiliary metrics *)

Section MetricsProperties.

Local Open Scope R_scope.

Lemma is_positive_true : forall v, Metrics.is_positive v = true <-> 0 < v.
Proof.
  intros v. unfold Metrics.is_positive.
  destruct (Rlt_dec 0 v); split; intros H; try reflexivity; try assumption;
    [discriminate | contradiction].
Qed.


Lemma pow2_neg_succ :
  forall k : nat,
    powerRZ 2 (- Z.of_nat (S k)) = powerRZ 2 (- Z.of_nat k) / 2.
Proof.
  intros k.
  replace (- Z.of_nat (S k))%Z with (- Z.of_nat k + -1)%Z by lia.
  rewrite powerRZ_add by lra. simpl. field.
Qed.


Lemma pow2_lt :
  forall a b : Z, (a < b)%Z -> powerRZ 2 a < powerRZ 2 b.
Proof.
  intros a b Hab. rewrite !powerRZ_Rpower by lra.
  apply Rpower_lt; [lra|]. apply IZR_lt. exact Hab.
Qed.





Lemma completed_instances_loop :
  forall l n,
    (0 <= n)%Z ->
    (n + Z.of_nat (length l) < 2 ^ 32)%Z ->
    fold_left (fun n s => if Totals.t_completed s then wrap32 (n + 1) else n) l n
    = (n + Z.of_nat (length (filter Totals.t_completed l)))%Z.
Proof.
  induction l as [|s l IH]; intros n Hn Hb; cbn [fold_left filter length] in *.
  - lia.
  - pose proof (filter_length_le Totals.t_completed l) as Hle.
    destruct (Totals.t_completed s); cbn [length].
    + assert (Hw : wrap32 (n + 1) = (n + 1)%Z)
        by (unfold wrap32; apply Z.mod_small; lia).
      rewrite Hw, IH by lia. lia.
    + apply IH; lia.
Qed.


(** The brief option leaves the miscellaneous metrics out. *)
Lemma dump_text_metric_brief :
  forall l i ss, Dump.dump_text_metric true l i ss = None.
Proof.
  intros l i ss. unfold Dump.dump_text_metric.
  rewrite andb_false_r. reflexivity.
Qed.

(** An ignored stressor, or one without stats, has no line in either
    block. *)
Lemma dump_metric_skipped :
  forall brief l i ss,
    Dump.ignore_run ss <> 0%Z \/ Dump.stats ss = None ->
    Dump.dump_text_metric brief l i ss = None
    /\ Dump.dump_yaml_metric brief i ss = None.
Proof.
  intros brief l i ss H.
  unfold Dump.dump_text_metric, Dump.dump_yaml_metric, Dump.yaml_stressor.
  destruct H as [H | H].
  - apply Z.eqb_neq in H. rewrite H. cbn [negb orb].
    split; [destruct (Dump.misc_metrics brief l && negb brief)|]; reflexivity.
  - rewrite H. split.
    + destruct (Dump.misc_metrics brief l && negb brief); [|reflexivity].
      destruct (negb (Dump.ignore_run ss =? 0)%Z); reflexivity.
    + destruct (negb (Dump.ignore_run ss =? 0)%Z || Dump.ignore_permute ss);
        reflexivity.
Qed.







(** *** Past 1074 instances *)

Lemma frexp_1 : Metrics.frexp 1 = (1 / 2, 1%Z).
Proof.
  unfold Metrics.frexp. rewrite ln_1.
  replace (0 / ln 2) with 0 by (unfold Rdiv; ring).
  assert (Hup : up 0 = 1%Z) by (symmetry; apply tech_up; simpl; lra).
  rewrite Hup. simpl. f_equal. field.
Qed.

Lemma is_positive_1 : Metrics.is_positive 1 = true.
Proof. apply is_positive_true. lra. Qed.

(** Once the product is 0 it stays 0. *)
Lemma ones_fold_zero :
  forall k e n,
    exists e',
      fold_left Metrics.geomean_step (repeat 1 k) (0, e, n)
      = (0, e', n + INR k).
Proof.
  induction k as [|k IH]; intros e n.
  - exists e. simpl. rewrite Rplus_0_r. reflexivity.
  - cbn [repeat fold_left]. unfold Metrics.geomean_step at 2.
    rewrite is_positive_1, frexp_1.
    assert (Hz : Metrics.mul_mantissa 0 (1 / 2) = 0).
    { unfold Metrics.mul_mantissa.
      destruct (Metrics.underflows (0 * (1 / 2))); [reflexivity|ring]. }
    rewrite Hz. destruct (IH (e + 1)%Z (n + 1)) as [e' He'].
    exists e'. rewrite He', S_INR. f_equal. ring.
Qed.

(** Up to 1074 values of 1.0 the product is the power of 1/2. *)
Lemma ones_fold :
  forall k j e n,
    (j + k <= 1074)%nat ->
    exists e',
      fold_left Metrics.geomean_step (repeat 1 k)
        (powerRZ 2 (- Z.of_nat j), e, n)
      = (powerRZ 2 (- Z.of_nat (j + k)), e', n + INR k).
Proof.
  induction k as [|k IH]; intros j e n Hjk.
  - exists e. simpl. rewrite Nat.add_0_r, Rplus_0_r. reflexivity.
  - cbn [repeat fold_left]. unfold Metrics.geomean_step at 2.
    rewrite is_positive_1, frexp_1.
    assert (Hm : Metrics.mul_mantissa (powerRZ 2 (- Z.of_nat j)) (1 / 2)
                 = powerRZ 2 (- Z.of_nat (S j))).
    { unfold Metrics.mul_mantissa, Metrics.underflows.
      rewrite pow2_neg_succ.
      replace (powerRZ 2 (- Z.of_nat j) * (1 / 2))
        with (powerRZ 2 (- Z.of_nat j) / 2) by field.
      destruct (Rle_dec (powerRZ 2 (- Z.of_nat j) / 2) (powerRZ 2 (-1075)))
        as [Hle|_]; [|reflexivity].
      exfalso. rewrite <- pow2_neg_succ in Hle.
      assert (powerRZ 2 (-1075) < powerRZ 2 (- Z.of_nat (S j)))
        by (apply pow2_lt; lia).
      lra. }
    rewrite Hm. destruct (IH (S j) (e + 1)%Z (n + 1) ltac:(lia)) as [e' He'].
    exists e'. rewrite He', S_INR.
    replace (S j + k)%nat with (j + S k)%nat by lia.
    f_equal. ring.
Qed.

(** X28: the loop of the miscellaneous metrics block past its
    range. Every instance that reports 1.0 halves the running product
    of the fractions; with 1075 such instances or more the product is
    below the least positive double, the mantissa is 0 and the value
    printed is 0, while the geometric mean of the values is 1. *)
Theorem text_metric_underflow :
  forall n,
    (1075 <= n)%nat ->
    Metrics.text_metric (repeat 1 n) = 0
    /\ Metrics.geometric_mean (repeat 1 n) = 1.
Proof.
  intros n Hn. split.
  - unfold Metrics.text_metric.
    replace n with (1074 + S (n - 1075))%nat by lia.
    rewrite repeat_app, fold_left_app.
    change 1 with (powerRZ 2 (- Z.of_nat 0)) at 3.
    destruct (ones_fold 1074 0 0%Z 0 ltac:(lia)) as [e1 He1].
    rewrite He1. cbn [repeat fold_left Nat.add].
    unfold Metrics.geomean_step at 2. rewrite is_positive_1, frexp_1.
    assert (Hm : Metrics.mul_mantissa (powerRZ 2 (- Z.of_nat 1074)) (1 / 2) = 0).
    { unfold Metrics.mul_mantissa, Metrics.underflows.
      replace (powerRZ 2 (- Z.of_nat 1074) * (1 / 2))
        with (powerRZ 2 (- Z.of_nat 1074) / 2) by field.
      rewrite <- pow2_neg_succ.
      replace (- Z.of_nat 1075)%Z with (-1075)%Z by lia.
      destruct (Rle_dec (powerRZ 2 (-1075)) (powerRZ 2 (-1075)));
        [reflexivity|lra]. }
    rewrite Hm.
    destruct (ones_fold_zero (n - 1075) (e1 + 1)%Z (0 + INR 1074 + 1))
      as [e2 He2].
    rewrite He2.
    assert (Hpos : 0 < 0 + INR 1074 + 1 + INR (n - 1075)).
    { pose proof (pos_INR 1074). pose proof (pos_INR (n - 1075)). lra. }
    replace (Metrics.is_positive (0 + INR 1074 + 1 + INR (n - 1075)))
      with true by (symmetry; apply is_positive_true; exact Hpos).
    unfold Metrics.pow at 1.
    destruct (Rlt_dec 0 0); [lra|]. ring.
  - unfold Metrics.geometric_mean.
    assert (Hf : forall k, filter Metrics.is_positive (repeat 1 k) = repeat 1 k).
    { induction k as [|k IH]; [reflexivity|].
      cbn [repeat filter]. rewrite is_positive_1, IH. reflexivity. }
    assert (Hp : forall k, fold_right Rmult 1 (repeat 1 k) = 1).
    { induction k as [|k IH]; [reflexivity|].
      cbn [repeat fold_right]. rewrite IH. ring. }
    rewrite Hf. destruct n as [|n']; [lia|].
    cbn [repeat]. change (1 :: repeat 1 n') with (repeat 1 (S n')).
    rewrite Hp. unfold Rpower. rewrite ln_1, Rmult_0_r, exp_0. reflexivity.
Qed.

Lemma text_metric_underflow_witness :
  Metrics.text_metric (repeat 1 1075) = 0
  /\ Metrics.geometric_mean (repeat 1 1075) = 1.
Proof.
  apply (text_metric_underflow 1075). apply le_n.
Defined.

End MetricsProperties.

(** * Further properties of the code *)

(** ** stress_wait_pid() *)

Lemma exit_switch_flags :
  forall x w,
    let r := fst (exit_switch x w) in
    (w_success r = true -> w_success w = true)
    /\ (w_resource_success r = true -> w_resource_success w = true)
    /\ (w_metrics_success r = true -> w_metrics_success w = true)
    /\ w_pid r = w_pid w /\ w_reaped r = w_reaped w.
Proof.
  intros x w. unfold exit_switch.
  repeat match goal with
         | |- context [if ?b then _ else _] => destruct b
         end; simpl; repeat split; intros; try assumption; try discriminate.
Qed.

Lemma signal_death_never_sets :
  forall oomed status success,
    signal_death oomed status success = true -> success = true.
Proof.
  intros oomed status success. unfold signal_death.
  repeat match goal with
         | |- context [if ?b then _ else _] => destruct b
         end; intros H; try assumption; discriminate.
Qed.

(** X1: stress_wait_pid only ever clears the three flags of its
    caller: a flag found set at the return was set at the call,
    whatever the waits returned. *)
Theorem wait_pid_never_sets_flags :
  forall opt_abort oomed outcomes w r,
    stress_wait_pid opt_abort oomed outcomes w = Some r ->
    (w_success (wr_state r) = true -> w_success w = true)
    /\ (w_resource_success (wr_state r) = true -> w_resource_success w = true)
    /\ (w_metrics_success (wr_state r) = true -> w_metrics_success w = true).
Proof.
  intros opt_abort oomed outcomes w.
  induction outcomes as [|o outcomes IH]; intros r H; simpl in H.
  - discriminate.
  - destruct o as [ret status | | | ].
    + destruct (0 <? ret).
      * injection H as <-. unfold wait_reaped.
        match goal with
        | |- context [exit_switch ?x ?w1] =>
            pose proof (exit_switch_flags x w1) as Hf;
            destruct (exit_switch x w1) as [w2 do_abort]
        end.
        cbn [fst] in Hf. destruct Hf as [Hs [Hr [Hm _]]]. simpl in *.
        repeat split; intros Ht.
        -- eapply signal_death_never_sets. apply Hs. exact Ht.
        -- apply Hr. exact Ht.
        -- apply Hm. exact Ht.
      * injection H as <-. simpl. tauto.
    + apply IH. exact H.
    + injection H as <-. simpl. tauto.
    + injection H as <-. simpl. tauto.
Qed.

(** A child reaped with EXIT_NO_RESOURCE while success and
    metrics_success are already cleared: both stay cleared. *)
Lemma wait_pid_never_sets_flags_witness :
  (w_success (wr_state (wait_reaped false false 768
                          (mk_wait (mk_status 0 0 0 0) 4242 0 false true false))) = true ->
   false = true)
  /\ (w_resource_success (wr_state (wait_reaped false false 768
                          (mk_wait (mk_status 0 0 0 0) 4242 0 false true false))) = true ->
      true = true)
  /\ (w_metrics_success (wr_state (wait_reaped false false 768
                          (mk_wait (mk_status 0 0 0 0) 4242 0 false true false))) = true ->
      false = true).
Proof.
  apply (wait_pid_never_sets_flags false false [WaitEINTR; WaitReaped 4242 768]
           (mk_wait (mk_status 0 0 0 0) 4242 0 false true false)).
  reflexivity.
Defined.

Lemma wait_pid_skips_eintr :
  forall opt_abort oomed n outcomes w,
    stress_wait_pid opt_abort oomed (repeat WaitEINTR n ++ outcomes) w
    = stress_wait_pid opt_abort oomed outcomes w.
Proof.
  intros opt_abort oomed n outcomes w.
  induction n as [|n IH]; [reflexivity|]. exact IH.
Qed.

(** X2: stress_wait_pid, after any number of waits interrupted by
    EINTR, returns on the first other outcome [x], and what it leaves
    is told by [x]. A child reaped (ret > 0) and ECHILD mark the slot
    as finished: the pid is cleared and the reaped count of the
    shared head goes up by one; on ECHILD buckets and flags stay as
    they were and no abort is asked for. Any other return (ret not
    positive, another errno) leaves buckets, pid, count and flags
    exactly as they were and asks for no abort. *)
Theorem wait_pid_reaps_or_keeps :
  forall opt_abort oomed n x rest w,
    x <> WaitEINTR ->
    exists r,
      stress_wait_pid opt_abort oomed (repeat WaitEINTR n ++ x :: rest) w
      = Some r
      /\ match x with
         | WaitReaped ret _ =>
             if 0 <? ret
             then w_pid (wr_state r) = 0
                  /\ w_reaped (wr_state r) = wrap32 (w_reaped w + 1)
             else wr_state r = w
                  /\ wr_do_abort r = false /\ wr_abort_broadcast r = false
         | WaitECHILD =>
             wr_state r
             = mk_wait (w_status w) 0 (wrap32 (w_reaped w + 1))
                       (w_success w) (w_resource_success w)
                       (w_metrics_success w)
             /\ wr_do_abort r = false /\ wr_abort_broadcast r = false
         | _ =>
             wr_state r = w
             /\ wr_do_abort r = false /\ wr_abort_broadcast r = false
         end.
Proof.
  intros opt_abort oomed n x rest w Hx.
  rewrite wait_pid_skips_eintr.
  destruct x as [ret status | | | ]; cbn [stress_wait_pid].
  - destruct (0 <? ret); eexists; (split; [reflexivity|]).
    + unfold wait_reaped.
      match goal with
      | |- context [exit_switch ?x ?w1] =>
          pose proof (exit_switch_flags x w1) as Hf;
          destruct (exit_switch x w1) as [w2 do_abort]
      end.
      cbn [fst] in Hf. destruct Hf as [_ [_ [_ [_ Hn]]]].
      simpl in *. rewrite Hn. split; reflexivity.
    + repeat split.
  - contradiction.
  - eexists. split; [reflexivity|]. repeat split.
  - eexists. split; [reflexivity|]. repeat split.
Qed.

(** A wait interrupted once, then a child reaped with
    EXIT_NO_RESOURCE, with the reaped count at 7. *)
Lemma wait_pid_reaps_or_keeps_witness :
  exists r,
    stress_wait_pid false false [WaitEINTR; WaitReaped 4242 768]
      (mk_wait (mk_status 0 0 0 0) 4242 7 true true true) = Some r
    /\ w_pid (wr_state r) = 0
    /\ w_reaped (wr_state r) = wrap32 (7 + 1).
Proof.
  apply (wait_pid_reaps_or_keeps false false 1 (WaitReaped 4242 768) []
           (mk_wait (mk_status 0 0 0 0) 4242 7 true true true)).
  discriminate.
Defined.

(** X3: for a reaped child the abort request depends on the exit
    status alone: every status but EXIT_SUCCESS and
    EXIT_METRICS_UNTRUSTWORTHY asks for it, and the broadcast that
    stops the run is made exactly when the abort option is on as
    well. *)
Theorem wait_pid_abort_request :
  forall opt_abort oomed ret status rest w,
    0 < ret ->
    exists r,
      stress_wait_pid opt_abort oomed (WaitReaped ret status :: rest) w = Some r
      /\ wr_do_abort r
         = negb ((WEXITSTATUS status =? EXIT_SUCCESS)
                 || (WEXITSTATUS status =? EXIT_METRICS_UNTRUSTWORTHY))
      /\ wr_abort_broadcast r = opt_abort && wr_do_abort r.
Proof.
  intros opt_abort oomed ret status rest w Hret.
  simpl. apply Z.ltb_lt in Hret. rewrite Hret.
  eexists. split; [reflexivity|].
  unfold wait_reaped.
  set (x := WEXITSTATUS status).
  match goal with
  | |- context [exit_switch x ?w1] => set (w1' := w1)
  end.
  assert (Hd : snd (exit_switch x w1')
               = negb ((x =? EXIT_SUCCESS) || (x =? EXIT_METRICS_UNTRUSTWORTHY))).
  { unfold exit_switch.
    unfold EXIT_SUCCESS, EXIT_NO_RESOURCE, EXIT_NOT_IMPLEMENTED, EXIT_SIGNALED,
      EXIT_BY_SYS_EXIT, EXIT_METRICS_UNTRUSTWORTHY, EXIT_FAILURE.
    repeat match goal with
           | |- context [ ?a =? ?b ] => destruct (Z.eqb_spec a b); try lia
           end; reflexivity. }
  destruct (exit_switch x w1') as [w2 do_abort]. cbn [snd] in Hd.
  simpl. rewrite Hd. split; reflexivity.
Qed.

Lemma wait_pid_abort_request_witness :
  exists r,
    stress_wait_pid true false [WaitReaped 4242 768]
      (mk_wait (mk_status 0 0 0 0) 4242 0 true true true) = Some r
    /\ wr_do_abort r
       = negb ((WEXITSTATUS 768 =? EXIT_SUCCESS)
               || (WEXITSTATUS 768 =? EXIT_METRICS_UNTRUSTWORTHY))
    /\ wr_abort_broadcast r = true && wr_do_abort r.
Proof.
  apply (wait_pid_abort_request true false 4242 768 []
           (mk_wait (mk_status 0 0 0 0) 4242 0 true true true)).
  lia.
Defined.

(** A child that died by SIGSEGV, as the kernel reports it (status
    11), is counted as passed although it clears the success flag. *)
Lemma wait_pid_signal_death_witness :
  exists r,
    stress_wait_pid false false [WaitReaped 4242 11]
      (mk_wait (mk_status 0 0 0 0) 4242 0 true true true) = Some r
    /\ w_success (wr_state r) = signal_death false 11 true
    /\ status_passed (w_status (wr_state r)) = wrap32 (0 + 1).
Proof.
  apply (wait_pid_signal_death false false 4242 11 []
           (mk_wait (mk_status 0 0 0 0) 4242 0 true true true)).
  - lia.
  - reflexivity.
Defined.

(** ** stress_kill_stressors() *)

(** X5: a call marks every worker it signals, so a second call made
    on the list it leaves sends nothing, whatever signal and force
    flag it passes. *)
Theorem kill_stressors_twice_sends_nothing :
  forall sig force_sigkill count l sig' force_sigkill',
    kill_sent
      (stress_kill_stressors sig' force_sigkill'
         (kill_count (stress_kill_stressors sig force_sigkill count l))
         (kill_list (stress_kill_stressors sig force_sigkill count l)))
    = [].
Proof.
  intros sig force count l sig' force'.
  pose proof (kill_stressors_marks sig force count l) as Hm.
  set (r := stress_kill_stressors sig force count l) in *.
  unfold stress_kill_stressors at 1.
  match goal with
  | |- context [kill_list_loop ?s (kill_list r)] =>
      pose proof (kill_list_loop_sent s (kill_list r)) as Hs;
      destruct (kill_list_loop s (kill_list r)) as [sent l']
  end.
  simpl in Hs. simpl. rewrite Hs, Hm. reflexivity.
Qed.

(** ** The walks over the stressor list *)

Lemma get_num_stressors_loop :
  forall l n,
    0 <= n ->
    n + Z.of_nat (length (enabled l)) < 2 ^ 32 ->
    fold_left (fun n ss => if ss_ignore_run ss =? 0 then wrap32 (n + 1) else n) l n
    = n + Z.of_nat (length (enabled l)).
Proof.
  induction l as [|ss l IH]; intros n Hn Hb;
    cbn [fold_left enabled filter] in *.
  - simpl. lia.
  - fold (enabled l) in *.
    destruct (ss_ignore_run ss =? 0); cbn [length] in *.
    + assert (Hw : wrap32 (n + 1) = n + 1)
        by (unfold wrap32; apply Z.mod_small; lia).
      rewrite Hw, IH by lia. lia.
    + apply IH; assumption.
Qed.

Lemma get_nth_loop_spec :
  forall l i n,
    i <= n ->
    n - i < Z.of_nat (length (enabled l)) ->
    exists pre ss post,
      l = pre ++ ss :: post
      /\ get_nth_loop i n l = ss :: post
      /\ Z.of_nat (length (enabled pre)) = n - i
      /\ ((n = i /\ pre = [])
          \/ exists pre' e, pre = pre' ++ [e] /\ ss_ignore_run e = 0).
Proof.
  induction l as [|a l IH]; intros i n Hi Hlen.
  - simpl in Hlen. lia.
  - cbn [get_nth_loop].
    destruct (Z.ltb_spec i n) as [Hlt | Hge].
    + destruct (ss_ignore_run a =? 0) eqn:Ha.
      * simpl in Hlen. rewrite Ha in Hlen. simpl length in Hlen.
        destruct (IH (i + 1) n ltac:(lia) ltac:(lia))
          as [pre [ss [post [Hl [Hg [Hn Hlast]]]]]].
        exists (a :: pre), ss, post. repeat split.
        -- simpl. rewrite Hl. reflexivity.
        -- exact Hg.
        -- simpl. rewrite Ha. simpl length. lia.
        -- right. destruct Hlast as [[Hni ->] | [pre' [e [-> He]]]].
           ++ exists [], a. split; [reflexivity|]. apply Z.eqb_eq. exact Ha.
           ++ exists (a :: pre'), e. split; [reflexivity | exact He].
      * simpl in Hlen. rewrite Ha in Hlen.
        destruct (IH i n ltac:(lia) ltac:(lia))
          as [pre [ss [post [Hl [Hg [Hn Hlast]]]]]].
        exists (a :: pre), ss, post. repeat split.
        -- simpl. rewrite Hl. reflexivity.
        -- exact Hg.
        -- simpl. rewrite Ha. exact Hn.
        -- destruct Hlast as [[Hni ->] | [pre' [e [-> He]]]]; [lia|].
           right. exists (a :: pre'), e. split; [reflexivity | exact He].
    + exists [], a, l. repeat split.
      * simpl. lia.
      * left. split; [lia | reflexivity].
Qed.

(** X6: for an index below the number of stressors that are not
    ignored, stress_get_nth_stressor returns a node of the list, never
    NULL: the node that stands right behind the n-th stressor that is
    not ignored (the head for n = 0). Exactly n such stressors come
    before it; the node itself may be an ignored one. *)
Theorem get_nth_stressor_spec :
  forall n l,
    0 <= n < stress_get_num_stressors l ->
    Z.of_nat (length (enabled l)) < 2 ^ 32 ->
    exists pre ss post,
      l = pre ++ ss :: post
      /\ stress_get_nth_stressor n l = ss :: post
      /\ Z.of_nat (length (enabled pre)) = n
      /\ ((n = 0 /\ pre = [])
          \/ exists pre' e, pre = pre' ++ [e] /\ ss_ignore_run e = 0).
Proof.
  intros n l Hn Hb.
  unfold stress_get_num_stressors in Hn.
  rewrite get_num_stressors_loop in Hn by lia.
  destruct (get_nth_loop_spec l 0 n ltac:(lia) ltac:(lia))
    as [pre [ss [post [Hl [Hg [Hlen Hlast]]]]]].
  exists pre, ss, post. repeat split; try assumption; lia.
Qed.

(** With an excluded stressor at the head, index 0 yields that
    excluded stressor. *)
Lemma get_nth_stressor_spec_witness :
  exists pre ss post,
    sample_mixed = pre ++ ss :: post
    /\ stress_get_nth_stressor 0 sample_mixed = ss :: post
    /\ Z.of_nat (length (enabled pre)) = 0
    /\ ((0 = 0 /\ pre = [])
        \/ exists pre' e, pre = pre' ++ [e] /\ ss_ignore_run e = 0).
Proof.
  apply (get_nth_stressor_spec 0 sample_mixed).
  - vm_compute. split; [discriminate | reflexivity].
  - vm_compute. reflexivity.
Defined.

Lemma get_nth_stressor_head :
  forall ss rest, stress_get_nth_stressor 0 (ss :: rest) = ss :: rest.
Proof. reflexivity. Qed.

Lemma total_num_instances_loop :
  forall l t,
    Forall (fun ss => 0 <= ss_num_instances ss) l ->
    0 <= t ->
    t + sum_num_instances l < 2 ^ 31 ->
    fold_left (fun total ss => wrap_int (total + ss_num_instances ss)) l t
    = t + sum_num_instances l.
Proof.
  induction l as [|ss l IH]; intros t Hall Ht Hb; simpl in *.
  - lia.
  - inversion Hall as [|? ? Hss Hl]; subst.
    assert (Hs : 0 <= sum_num_instances l).
    { clear -Hl. induction Hl; simpl; lia. }
    rewrite wrap_int_small by lia.
    rewrite IH by (try assumption; lia). lia.
Qed.

Lemma map_seq_from :
  forall m a n,
    map (fun i => a + Z.of_nat i) (seq n m)
    = map (fun i => a + Z.of_nat n + Z.of_nat i) (seq 0 m).
Proof.
  induction m as [|m IH]; intros a n; [reflexivity|].
  cbn [seq map]. f_equal; [lia|].
  rewrite IH, <- seq_shift, map_map.
  apply map_ext. intros i. lia.
Qed.

Lemma setup_stats_loop_spec :
  forall l stats,
    concat (setup_stats_loop stats l)
    = map (fun i => stats + Z.of_nat i)
          (seq 0 (length (concat (setup_stats_loop stats l))))
    /\ map (@length Z) (setup_stats_loop stats l)
       = map (fun ss => if ss_ignore_run ss =? 0
                        then Z.to_nat (ss_num_instances ss) else 0%nat) l.
Proof.
  induction l as [|ss l IH]; intros stats; cbn [setup_stats_loop].
  - split; reflexivity.
  - destruct (ss_ignore_run ss =? 0) eqn:Hr; cbn [negb].
    + destruct (IH (stats + Z.of_nat (Z.to_nat (ss_num_instances ss)))) as [Hc Hl].
      split.
      * cbn [concat]. rewrite length_app, length_map, length_seq.
        rewrite seq_app, map_app. f_equal.
        rewrite Hc at 1. cbn [Nat.add]. symmetry. apply map_seq_from.
      * cbn [map]. rewrite Hr, length_map, length_seq, Hl. reflexivity.
    + destruct (IH stats) as [Hc Hl]. split.
      * cbn [concat app]. exact Hc.
      * cbn [map length]. rewrite Hr, Hl. reflexivity.
Qed.

Lemma setup_stats_used :
  forall l stats,
    Forall (fun ss => 0 <= ss_num_instances ss) l ->
    Z.of_nat (length (concat (setup_stats_loop stats l))) <= sum_num_instances l.
Proof.
  induction l as [|ss l IH]; intros stats Hall; simpl.
  - lia.
  - inversion Hall as [|? ? Hss Hl]; subst.
    destruct (ss_ignore_run ss =? 0); cbn [negb]; simpl concat.
    + rewrite length_app, length_map, length_seq.
      specialize (IH (stats + Z.of_nat (Z.to_nat (ss_num_instances ss))) Hl). lia.
    + specialize (IH stats Hl). simpl. lia.
Qed.

(** X7: stress_setup_stats_buffers hands out the slots of the shared
    region in order, 0, 1, 2, ...: a stressor that is not ignored
    gets as many consecutive slots as it has instances, an ignored
    one gets none, no slot is given twice, and, with no negative
    instance count, every slot given lies below the count
    stress_get_total_num_instances returns, which is the number of
    slots stress_shared_map is called with. *)
Theorem setup_stats_buffers_slots :
  forall l,
    Forall (fun ss => 0 <= ss_num_instances ss) l ->
    sum_num_instances l < 2 ^ 31 ->
    map (@length Z) (stress_setup_stats_buffers l)
    = map (fun ss => if ss_ignore_run ss =? 0
                     then Z.to_nat (ss_num_instances ss) else 0%nat) l
    /\ concat (stress_setup_stats_buffers l)
       = map Z.of_nat (seq 0 (length (concat (stress_setup_stats_buffers l))))
    /\ NoDup (concat (stress_setup_stats_buffers l))
    /\ Forall (fun slot => 0 <= slot < stress_get_total_num_instances l)
              (concat (stress_setup_stats_buffers l)).
Proof.
  intros l Hall Hb.
  unfold stress_setup_stats_buffers.
  destruct (setup_stats_loop_spec l 0) as [Hc Hl].
  assert (Hc' : concat (setup_stats_loop 0 l)
                = map Z.of_nat (seq 0 (length (concat (setup_stats_loop 0 l))))).
  { rewrite Hc at 1. apply map_ext. intros a. lia. }
  split; [exact Hl|]. split; [exact Hc'|]. split.
  - rewrite Hc'. apply NoDup_map_NoDup_ForallPairs.
    + intros a b _ _ Hab. lia.
    + apply seq_NoDup.
  - unfold stress_get_total_num_instances.
    rewrite total_num_instances_loop by (try assumption; lia).
    pose proof (setup_stats_used l 0 Hall) as Hu.
    rewrite Hc'. apply Forall_forall. intros slot Hin.
    apply in_map_iff in Hin. destruct Hin as [k [<- Hk]].
    apply in_seq in Hk. lia.
Qed.

Lemma setup_stats_buffers_slots_witness :
  map (@length Z) (stress_setup_stats_buffers sample_mixed)
  = map (fun ss => if ss_ignore_run ss =? 0
                   then Z.to_nat (ss_num_instances ss) else 0%nat) sample_mixed
  /\ concat (stress_setup_stats_buffers sample_mixed)
     = map Z.of_nat (seq 0 (length (concat (stress_setup_stats_buffers sample_mixed))))
  /\ NoDup (concat (stress_setup_stats_buffers sample_mixed))
  /\ Forall (fun slot => 0 <= slot < stress_get_total_num_instances sample_mixed)
            (concat (stress_setup_stats_buffers sample_mixed)).
Proof.
  apply (setup_stats_buffers_slots sample_mixed).
  - repeat constructor; discriminate.
  - reflexivity.
Defined.

(** ** The sequential regime *)

Lemma sequential_loop_spec :
  forall cont run l p k,
    (k <= length l)%nat ->
    (forall q, (q < k)%nat -> cont (p + q)%nat = true) ->
    ((k < length l)%nat -> cont (p + k)%nat = false) ->
    sequential_loop cont run p l
    = (map (fun ss => [ss]) (enabled (firstn k l)),
       map (fun ss => if ss_ignore_run ss =? 0 then run ss else ss) (firstn k l)
         ++ skipn k l).
Proof.
  intros cont run. induction l as [|ss l IH]; intros p k Hk Hbefore Hat.
  - destruct k; [reflexivity | simpl in Hk; lia].
  - destruct k as [|k].
    + simpl. specialize (Hat ltac:(simpl; lia)).
      rewrite Nat.add_0_r in Hat. rewrite Hat. reflexivity.
    + cbn [sequential_loop firstn skipn].
      specialize (Hbefore 0%nat ltac:(lia)) as H0.
      rewrite Nat.add_0_r in H0. rewrite H0.
      rewrite (IH (S p) k).
      * cbn [enabled filter map app].
        destruct (ss_ignore_run ss =? 0); reflexivity.
      * simpl in Hk. lia.
      * intros q Hq. replace (S p + q)%nat with (p + S q)%nat by lia.
        apply Hbefore. lia.
      * intros Hlt. replace (S p + k)%nat with (p + S k)%nat by lia.
        apply Hat. simpl. lia.
Qed.

(** X8: the sequential regime calls stress_run once per stressor that
    is not ignored, in list order, each time on that stressor alone,
    for as long as the continue flag is found set at the head of the
    loop; it stops at the first node where the flag is found cleared
    and leaves the rest of the list as it was. With the flag set
    throughout, the runs are exactly the stressors that are not
    ignored. *)
Theorem run_sequential_runs :
  forall cont run l k,
    (k <= length l)%nat ->
    (forall q, (q < k)%nat -> cont q = true) ->
    ((k < length l)%nat -> cont k = false) ->
    fst (stress_run_sequential cont run l)
    = map (fun ss => [ss]) (enabled (firstn k l))
    /\ snd (stress_run_sequential cont run l)
       = map (fun ss => if ss_ignore_run ss =? 0 then run ss else ss) (firstn k l)
           ++ skipn k l.
Proof.
  intros cont run l k Hk Hbefore Hat.
  unfold stress_run_sequential.
  rewrite (sequential_loop_spec cont run l 0 k Hk Hbefore Hat).
  split; reflexivity.
Qed.

Lemma run_sequential_runs_witness :
  fst (stress_run_sequential (fun _ => true) (fun ss => ss) sample_mixed)
  = map (fun ss => [ss]) (enabled (firstn 4 sample_mixed))
  /\ snd (stress_run_sequential (fun _ => true) (fun ss => ss) sample_mixed)
     = map (fun ss => if ss_ignore_run ss =? 0 then ss else ss)
           (firstn 4 sample_mixed)
         ++ skipn 4 sample_mixed.
Proof.
  apply (run_sequential_runs (fun _ => true) (fun ss => ss) sample_mixed 4).
  - simpl. lia.
  - intros q Hq. reflexivity.
  - simpl. lia.
Defined.

(** ** The bogo-ops target of an instance *)

(** X9: in the parallel set-up a stressor that is not ignored, with
    n > 0 instances and a bogo-ops target b, is left with the target
    b / n rounded up for each instance: n instances together reach b,
    and overshoot it by less than n; a target of 0 stays 0. This
    needs b + n - 1 to fit a uint64_t. *)
Theorem setup_parallel_bogo_ops :
  forall class instances ss,
    let ss' := setup_parallel_node class instances ss in
    sn_ignore_run ss = 0 ->
    0 < sn_num_instances ss' < 2 ^ 31 ->
    0 <= sn_bogo_ops ss ->
    sn_bogo_ops ss + sn_num_instances ss' - 1 < 2 ^ 64 ->
    sn_bogo_ops ss <= sn_bogo_ops ss' * sn_num_instances ss'
                   < sn_bogo_ops ss + sn_num_instances ss'
    /\ (sn_bogo_ops ss' = 0 <-> sn_bogo_ops ss = 0)
    /\ sn_stats_len ss' = Some (sn_num_instances ss').
Proof.
  intros class instances ss ss'. subst ss'.
  unfold setup_parallel_node.
  set (n := if negb (Z.land (sn_class ss) class =? 0)
            then instances else sn_num_instances ss).
  intros Hrun. rewrite Hrun. cbn [Z.eqb negb sn_num_instances sn_bogo_ops sn_stats_len].
  intros Hn Hb Hfit.
  assert (Hq : bogo_ops_share (sn_bogo_ops ss) n = (sn_bogo_ops ss + (n - 1)) / n).
  { unfold bogo_ops_share.
    destruct (Z.eqb_spec n 0) as [H0 | _]; [lia|].
    rewrite (wrap_int_small (n - 1)) by lia.
    rewrite (wrap64_small (n - 1)) by lia.
    rewrite (wrap64_small n) by lia.
    rewrite wrap64_small by lia. reflexivity. }
  rewrite Hq.
  set (b := sn_bogo_ops ss) in *.
  pose proof (Z.div_mod (b + (n - 1)) n ltac:(lia)) as Hdm.
  pose proof (Z.mod_pos_bound (b + (n - 1)) n ltac:(lia)) as Hm.
  repeat split.
  - nia.
  - nia.
  - intros H0. rewrite H0 in Hdm. lia.
  - intros H0. rewrite H0. apply Z.div_small. lia.
  - destruct (Z.eqb_spec n 0); [lia | reflexivity].
Qed.

(** Ten bogo-ops over four instances: three each. *)
Lemma setup_parallel_bogo_ops_witness :
  let ss := mk_setup_node 1 0 4 10 None in
  let ss' := setup_parallel_node 0 0 ss in
  sn_bogo_ops ss <= sn_bogo_ops ss' * sn_num_instances ss'
                 < sn_bogo_ops ss + sn_num_instances ss'
  /\ (sn_bogo_ops ss' = 0 <-> sn_bogo_ops ss = 0)
  /\ sn_stats_len ss' = Some (sn_num_instances ss').
Proof.
  apply (setup_parallel_bogo_ops 0 0 (mk_setup_node 1 0 4 10 None)).
  - reflexivity.
  - vm_compute. split; reflexivity.
  - vm_compute. discriminate.
  - vm_compute. reflexivity.
Defined.

(** ** The YAML key of a description *)

Lemma in_firstn_in :
  forall (A : Type) (n : nat) (l : list A) (x : A), In x (firstn n l) -> In x l.
Proof.
  intros A. induction n as [|n IH]; intros [|a l] x Hin; simpl in Hin;
    try contradiction.
  destruct Hin as [<- | Hin]; [left; reflexivity | right; apply IH; exact Hin].
Qed.

Lemma yamlify_char_length :
  forall ch, (length (yamlify_char ch) <= 1)%nat.
Proof.
  intros ch. unfold yamlify_char.
  destruct (isalpha ch); [simpl; lia|].
  destruct (isdigit ch); [simpl; lia|].
  destruct (ch =? 32); simpl; lia.
Qed.

Lemma yamlify_loop_spec :
  forall src dst,
    Z.of_nat (length dst) < yamlified_size - 1 ->
    yamlify_loop src dst
    = firstn (Z.to_nat (yamlified_size - 1))
             (dst ++ flat_map yamlify_char (c_string src)).
Proof.
  remember (Z.to_nat (yamlified_size - 1)) as cap eqn:Hcap.
  assert (Hz : Z.of_nat cap = yamlified_size - 1)
    by (subst cap; unfold yamlified_size; lia).
  clear Hcap. rewrite <- Hz.
  induction src as [|ch src IH]; intros dst Hd.
  - cbn [yamlify_loop c_string flat_map]. rewrite app_nil_r.
    symmetry. apply firstn_all2. lia.
  - cbn [yamlify_loop c_string].
    destruct (ch =? 0).
    + cbn [flat_map]. rewrite app_nil_r. symmetry. apply firstn_all2. lia.
    + cbn [flat_map]. rewrite app_assoc.
      pose proof (yamlify_char_length ch) as Hc.
      rewrite <- Hz.
      destruct (Z.leb_spec (Z.of_nat cap)
                  (Z.of_nat (length (dst ++ yamlify_char ch)))) as [Hfull | Hroom].
      * rewrite length_app in Hfull.
        rewrite firstn_app.
        replace (cap - length (dst ++ yamlify_char ch))%nat
          with 0%nat by (rewrite length_app; lia).
        rewrite firstn_O, app_nil_r.
        symmetry. apply firstn_all2. rewrite length_app. lia.
      * apply IH. exact Hroom.
Qed.

Lemma yamlify_char_charset :
  forall ch c,
    In c (yamlify_char ch) -> islower c = true \/ isdigit c = true \/ c = 45.
Proof.
  intros ch c. unfold yamlify_char.
  destruct (isalpha ch) eqn:Ha.
  - intros [<- | []]. left.
    unfold tolower. unfold isalpha in Ha.
    destruct (isupper ch) eqn:Hu.
    + unfold isupper in Hu. unfold islower.
      apply andb_true_iff in Hu. destruct Hu as [H1 H2].
      apply Z.leb_le in H1, H2.
      apply andb_true_iff. split; apply Z.leb_le; lia.
    + simpl in Ha. exact Ha.
  - destruct (isdigit ch) eqn:Hd.
    + intros [<- | []]. right. left. exact Hd.
    + destruct (ch =? 32).
      * intros [<- | []]. right. right. reflexivity.
      * intros [].
Qed.

(** X10: the YAML key made from a description holds, in order, the
    letters of the description in lower case, its digits, and a
    hyphen for each blank, every other character dropped, cut to the
    first 39 characters: the key never outgrows the 40-byte buffer and
    is made of lower-case letters, digits and hyphens only. *)
Theorem description_yamlify_spec :
  forall description,
    stess_description_yamlify description
    = firstn (Z.to_nat (yamlified_size - 1))
             (flat_map yamlify_char (c_string description))
    /\ Z.of_nat (length (stess_description_yamlify description)) < yamlified_size
    /\ Forall (fun c => islower c = true \/ isdigit c = true \/ c = 45)
              (stess_description_yamlify description).
Proof.
  intros description.
  assert (H : stess_description_yamlify description
              = firstn (Z.to_nat (yamlified_size - 1))
                       (flat_map yamlify_char (c_string description))).
  { unfold stess_description_yamlify.
    rewrite yamlify_loop_spec by (unfold yamlified_size; cbn [length]; lia).
    reflexivity. }
  split; [exact H|]. rewrite H. split.
  - pose proof (firstn_le_length (Z.to_nat (yamlified_size - 1))
                  (flat_map yamlify_char (c_string description))) as Hle.
    unfold yamlified_size in *. lia.
  - apply Forall_forall. intros c Hin.
    apply in_firstn_in in Hin.
    apply in_flat_map in Hin. destruct Hin as [ch [_ Hc]].
    apply (yamlify_char_charset ch c Hc).
Qed.

(** ** The SIGALRM and SIGINT handlers *)

Lemma deliver_settles :
  forall s d, signals_settled (deliver_sigalrm s d).
Proof.
  intros s d. unfold signals_settled, deliver_sigalrm, stress_sigalrm_action_handler.
  destruct (dl_info d) as [i|].
  - destruct (sg_shared s && negb (sg_caught_sigint s) && (si_code i =? SI_USER)
              && negb (sa_triggered (sg_sigalrm_info s)));
      unfold stress_sigalrm_handler; cbn [sg_shared sg_sigalarmed];
      destruct (dl_is_parent d); cbn [sg_shared sg_caught_sigint sg_sigalarmed];
      destruct (sg_shared s); auto; right; split; try reflexivity;
      destruct (sg_sigalarmed s); discriminate.
  - unfold stress_sigalrm_handler.
    destruct (dl_is_parent d); cbn [sg_shared sg_caught_sigint sg_sigalarmed];
      destruct (sg_shared s); auto; right; split; try reflexivity;
      destruct (sg_sigalarmed s); discriminate.
Qed.

Lemma deliver_settled_keeps :
  forall s d,
    signals_settled s ->
    sg_alarmed (deliver_sigalrm s d) = sg_alarmed s
    /\ sg_sigalrm_info (deliver_sigalrm s d) = sg_sigalrm_info s.
Proof.
  intros s d Hs. unfold deliver_sigalrm, stress_sigalrm_action_handler.
  assert (Hcond : forall i,
             sg_shared s && negb (sg_caught_sigint s) && (si_code i =? SI_USER)
             && negb (sa_triggered (sg_sigalrm_info s)) = false).
  { intros i. destruct Hs as [Hsh | [Hc _]].
    - rewrite Hsh. reflexivity.
    - rewrite Hc. cbn [negb]. rewrite andb_false_r. reflexivity. }
  assert (Hh : forall signum p,
             sg_alarmed (stress_sigalrm_handler signum p s) = sg_alarmed s
             /\ sg_sigalrm_info (stress_sigalrm_handler signum p s) = sg_sigalrm_info s).
  { intros signum p. unfold stress_sigalrm_handler.
    destruct p; cbn [sg_alarmed sg_sigalrm_info]; (split; [|reflexivity]);
      destruct Hs as [Hsh | [_ Hf]];
      try (rewrite Hsh; reflexivity);
      destruct (sg_shared s); try reflexivity;
      destruct (sg_sigalarmed s) as [[|]|]; try reflexivity;
      exfalso; apply Hf; reflexivity. }
  destruct (dl_info d) as [i|].
  - rewrite Hcond. apply Hh.
  - apply Hh.
Qed.

Lemma deliveries_settled_keep :
  forall rest s,
    signals_settled s ->
    sg_alarmed (fold_left deliver_sigalrm rest s) = sg_alarmed s
    /\ sg_sigalrm_info (fold_left deliver_sigalrm rest s) = sg_sigalrm_info s.
Proof.
  induction rest as [|d rest IH]; intros s Hs; simpl.
  - split; reflexivity.
  - destruct (IH (deliver_sigalrm s d) (deliver_settles s d)) as [Ha Hi].
    destruct (deliver_settled_keeps s d Hs) as [Ha' Hi'].
    rewrite Ha, Hi, Ha', Hi'. split; reflexivity.
Qed.

(** X11: however many SIGALRMs a process takes, only the first one
    can count: the alarmed count of the shared head advances at most
    once, on the first delivery, and the record of who sent the signal
    is written by the first delivery or never; every later delivery
    leaves both as they are. *)
Theorem sigalrm_only_first_counts :
  forall s d rest,
    (sg_alarmed (deliver_sigalrm s d) = sg_alarmed s
     \/ sg_alarmed (deliver_sigalrm s d) = wrap32 (sg_alarmed s + 1))
    /\ sg_alarmed (fold_left deliver_sigalrm rest (deliver_sigalrm s d))
       = sg_alarmed (deliver_sigalrm s d)
    /\ sg_sigalrm_info (fold_left deliver_sigalrm rest (deliver_sigalrm s d))
       = sg_sigalrm_info (deliver_sigalrm s d).
Proof.
  intros s d rest. split.
  - unfold deliver_sigalrm, stress_sigalrm_action_handler.
    assert (Hh : forall s0 signum p,
               sg_alarmed (stress_sigalrm_handler signum p s0) = sg_alarmed s0
               \/ sg_alarmed (stress_sigalrm_handler signum p s0)
                  = wrap32 (sg_alarmed s0 + 1)).
    { intros s0 signum p. unfold stress_sigalrm_handler.
      destruct p; cbn [sg_alarmed];
        destruct (sg_shared s0); auto;
        destruct (sg_sigalarmed s0) as [[|]|]; auto. }
    destruct (dl_info d) as [i|]; [|apply Hh].
    destruct (sg_shared s && negb (sg_caught_sigint s) && (si_code i =? SI_USER)
              && negb (sa_triggered (sg_sigalrm_info s))); [|apply Hh].
    match goal with
    | |- context [stress_sigalrm_handler ?a ?b ?c] =>
        destruct (Hh c a b) as [H | H]; rewrite H; cbn [sg_alarmed]; auto
    end.
  - apply deliveries_settled_keep. apply deliver_settles.
Qed.

(** X12: once SIGINT or SIGHUP was handled, no SIGALRM that follows
    gets its sender recorded. *)
Theorem sigint_blocks_sigalrm_record :
  forall s rest,
    sg_sigalrm_info (fold_left deliver_sigalrm rest (stress_sigint_handler s))
    = sg_sigalrm_info s.
Proof.
  intros s rest.
  assert (Hgen : forall l s0,
             (sg_shared s0 = false \/ sg_caught_sigint s0 = true) ->
             sg_sigalrm_info (fold_left deliver_sigalrm l s0) = sg_sigalrm_info s0).
  { induction l as [|d l IH]; intros s0 H0; simpl; [reflexivity|].
    assert (Hstep : sg_sigalrm_info (deliver_sigalrm s0 d) = sg_sigalrm_info s0
                    /\ (sg_shared (deliver_sigalrm s0 d) = false
                        \/ sg_caught_sigint (deliver_sigalrm s0 d) = true)).
    { unfold deliver_sigalrm, stress_sigalrm_action_handler.
      assert (Hcond : forall i,
                 sg_shared s0 && negb (sg_caught_sigint s0) && (si_code i =? SI_USER)
                 && negb (sa_triggered (sg_sigalrm_info s0)) = false).
      { intros i. destruct H0 as [Hsh | Hc].
        - rewrite Hsh. reflexivity.
        - rewrite Hc. cbn [negb]. rewrite andb_false_r. reflexivity. }
      assert (Hh : forall signum p,
                 sg_sigalrm_info (stress_sigalrm_handler signum p s0) = sg_sigalrm_info s0
                 /\ (sg_shared (stress_sigalrm_handler signum p s0) = false
                     \/ sg_caught_sigint (stress_sigalrm_handler signum p s0) = true)).
      { intros signum p. unfold stress_sigalrm_handler.
        destruct p; cbn [sg_sigalrm_info sg_shared sg_caught_sigint];
          (split; [reflexivity|]); destruct (sg_shared s0); auto. }
      destruct (dl_info d) as [i|]; [rewrite Hcond|]; apply Hh. }
    destruct Hstep as [Hi Hn]. rewrite (IH _ Hn). exact Hi. }
  rewrite Hgen.
  - reflexivity.
  - unfold stress_sigint_handler. cbn [sg_shared sg_caught_sigint].
    destruct (sg_shared s); auto.
Qed.

(** ** Setting an auxiliary metric *)

Lemma array_set_spec :
  forall (A : Type) (d : A) (l : list A) (i : nat) (x : A),
    length (array_set i x l) = length l
    /\ (forall j, j <> i -> nth j (array_set i x l) d = nth j l d)
    /\ ((i < length l)%nat -> nth i (array_set i x l) d = x).
Proof.
  intros A d. induction l as [|a l IH]; intros i x.
  - split; [reflexivity|]. split.
    + intros j Hj. reflexivity.
    + intros H. simpl in H. lia.
  - destruct i as [|i]; cbn [array_set length].
    + split; [reflexivity|]. split.
      * intros [|j] Hj; [contradiction | reflexivity].
      * intros _. reflexivity.
    + destruct (IH i x) as [Hl [Ho Hi]].
      split; [rewrite Hl; reflexivity|]. split.
      * intros [|j] Hj; [reflexivity|]. cbn [nth]. apply Ho. lia.
      * intros Hlt. cbn [nth]. apply Hi. lia.
Qed.

(** X13: stress_metrics_set_const_check with an index at or beyond
    STRESS_MISC_METRICS_MAX changes nothing. With an index inside the
    array it rewrites that entry alone: the entry gets the description
    (the copy made on the shared heap unless the description is a
    literal), and the value only when that description is not NULL;
    when the copy fails the entry is left with a NULL description and
    its old value. *)
Theorem metrics_set_entry :
  forall max dup metrics idx description const_description value (k : nat),
    0 <= idx < max ->
    (Z.to_nat idx < length metrics)%nat ->
    stress_metrics_set_const_check max dup (Some (Some metrics))
      (max + Z.of_nat k) description const_description value
    = Some (Some metrics)
    /\ exists metrics',
         stress_metrics_set_const_check max dup (Some (Some metrics)) idx
           description const_description value = Some (Some metrics')
         /\ length metrics' = length metrics
         /\ (forall j, j <> Z.to_nat idx ->
               Metrics.metric_at j metrics' = Metrics.metric_at j metrics)
         /\ Metrics.description (Metrics.metric_at (Z.to_nat idx) metrics')
            = (if const_description then description else dup description)
         /\ Metrics.value (Metrics.metric_at (Z.to_nat idx) metrics')
            = match (if const_description then description else dup description) with
              | Some _ => value
              | None => Metrics.value (Metrics.metric_at (Z.to_nat idx) metrics)
              end.
Proof.
  intros max dup metrics idx description const value k Hidx Hlen. split.
  - unfold stress_metrics_set_const_check.
    replace (max <=? max + Z.of_nat k) with true
      by (symmetry; apply Z.leb_le; lia).
    reflexivity.
  - unfold stress_metrics_set_const_check.
    replace (max <=? idx) with false by (symmetry; apply Z.leb_gt; lia).
    eexists. split; [reflexivity|].
    match goal with
    | |- context [array_set ?i ?x metrics] =>
        destruct (array_set_spec _ Metrics.metric_unset metrics i x)
          as [Hl [Ho Hi]]
    end.
    split; [exact Hl|]. split.
    + intros j Hj. unfold Metrics.metric_at. apply Ho. exact Hj.
    + unfold Metrics.metric_at at 1 3. rewrite (Hi Hlen).
      destruct (if const then description else dup description); split; reflexivity.
Qed.

(** A copy that fails on the only entry of an array: the entry keeps
    its value and has no description. *)
Lemma metrics_set_entry_witness :
  stress_metrics_set_const_check 1 (fun _ => None)
    (Some (Some [Metrics.mk_metric (Some "ops per sec"%string) 4%R]))
    (1 + Z.of_nat 0) (Some "latency"%string) false 7%R
  = Some (Some [Metrics.mk_metric (Some "ops per sec"%string) 4%R])
  /\ exists metrics',
       stress_metrics_set_const_check 1 (fun _ => None)
         (Some (Some [Metrics.mk_metric (Some "ops per sec"%string) 4%R]))
         0 (Some "latency"%string) false 7%R
       = Some (Some metrics')
       /\ length metrics'
          = length [Metrics.mk_metric (Some "ops per sec"%string) 4%R]
       /\ (forall j, j <> Z.to_nat 0 ->
             Metrics.metric_at j metrics'
             = Metrics.metric_at j
                 [Metrics.mk_metric (Some "ops per sec"%string) 4%R])
       /\ Metrics.description (Metrics.metric_at (Z.to_nat 0) metrics')
          = (if false then Some "latency"%string else None)
       /\ Metrics.value (Metrics.metric_at (Z.to_nat 0) metrics')
          = match (if false then Some "latency"%string else None) with
            | Some _ => 7%R
            | None => Metrics.value
                        (Metrics.metric_at (Z.to_nat 0)
                           [Metrics.mk_metric (Some "ops per sec"%string) 4%R])
            end.
Proof.
  apply (metrics_set_entry 1 (fun _ => None)
           [Metrics.mk_metric (Some "ops per sec"%string) 4%R] 0
           (Some "latency"%string) false 7%R 0).
  - lia.
  - simpl. lia.
Defined.

(** ** The exclusion passes *)

Lemma ignore_stressor_keeps :
  forall ss reason,
    ss_id (stress_ignore_stressor ss reason) = ss_id ss
    /\ ss_num_instances (stress_ignore_stressor ss reason) = ss_num_instances ss
    /\ ss_ignore_run (stress_ignore_stressor ss reason) = reason.
Proof. intros. repeat split. Qed.

(** What one catalogue entry does to one node. *)
Lemma exclude_unsupported_entry_node :
  forall e l u,
    fst (exclude_unsupported_entry (l, u) e)
    = map (fun ss =>
             match cat_supported e with
             | Some r => if unsupported_hit e r ss
                         then stress_ignore_stressor ss STRESS_STRESSOR_UNSUPPORTED
                         else ss
             | None => ss
             end) l.
Proof.
  intros e l u. unfold exclude_unsupported_entry.
  destruct (cat_supported e) as [r|]; cbn [fst].
  - reflexivity.
  - symmetry. apply map_id.
Qed.

(** The pass keeps the nodes in place, with their ids and instance
    counts; a node that is ignored stays ignored for the same reason;
    a node still not ignored meets no entry that rules it out. *)
Lemma exclude_unsupported_spec :
  forall stressors l u,
    let l' := fst (stress_exclude_unsupported stressors l u) in
    map ss_id l' = map ss_id l
    /\ map ss_num_instances l' = map ss_num_instances l
    /\ Forall2 (fun ss ss' =>
                  (ss_ignore_run ss <> 0 -> ss_ignore_run ss' = ss_ignore_run ss)
                  /\ (ss_ignore_run ss' = 0 ->
                      ss_ignore_run ss = 0
                      /\ forall e r, In e stressors -> cat_supported e = Some r ->
                                     unsupported_hit e r ss = false)) l l'.
Proof.
  unfold stress_exclude_unsupported.
  induction stressors as [|e stressors IH]; intros l u; cbn [fold_left fst].
  - repeat split.
    induction l as [|ss l IHl]; constructor; [|exact IHl].
    split; [reflexivity|]. intros H. split; [exact H|]. intros e r [].
  - pose proof (exclude_unsupported_entry_node e l u) as Hn.
    destruct (exclude_unsupported_entry (l, u) e) as [l1 u1] eqn:He.
    cbn [fst] in Hn.
    specialize (IH l1 u1). cbv zeta in IH.
    destruct IH as [Hid [Hnum Hall]].
    assert (H1 : map ss_id l1 = map ss_id l
                 /\ map ss_num_instances l1 = map ss_num_instances l).
    { rewrite Hn, !map_map. split; apply map_ext; intros ss;
        destruct (cat_supported e) as [r|]; try reflexivity;
        destruct (unsupported_hit e r ss); reflexivity. }
    destruct H1 as [Hid1 Hnum1].
    split; [congruence|]. split; [congruence|].
    revert Hall. rewrite Hn. clear.
    generalize (fst (fold_left exclude_unsupported_entry stressors
                       (map (fun ss =>
                               match cat_supported e with
                               | Some r => if unsupported_hit e r ss
                                           then stress_ignore_stressor ss
                                                  STRESS_STRESSOR_UNSUPPORTED
                                           else ss
                               | None => ss
                               end) l, u1))).
    intros l2. revert l2.
    induction l as [|ss l IHl]; intros l2 Hall; cbn [map] in Hall;
      inversion Hall as [|a b la lb Hab Hrest]; subst; constructor.
    + destruct Hab as [Hkeep Hzero].
      destruct (cat_supported e) as [r|] eqn:Hsup.
      * destruct (unsupported_hit e r ss) eqn:Hhit.
        -- cbn [stress_ignore_stressor ss_ignore_run] in Hkeep, Hzero.
           assert (Hb : ss_ignore_run b = STRESS_STRESSOR_UNSUPPORTED)
             by (apply Hkeep; discriminate).
           split.
           ++ intros Hne. unfold unsupported_hit in Hhit.
              apply andb_true_iff in Hhit. destruct Hhit as [Hz _].
              apply Z.eqb_eq in Hz. contradiction.
           ++ intros Hb0. rewrite Hb in Hb0. discriminate.
        -- split; [exact Hkeep|].
           intros Hb0. destruct (Hzero Hb0) as [Hs0 Hrem].
           split; [exact Hs0|].
           intros e' r' [<- | Hin] Hsup'.
           ++ rewrite Hsup in Hsup'. injection Hsup' as <-. exact Hhit.
           ++ apply Hrem; assumption.
      * split; [exact Hkeep|].
        intros Hb0. destruct (Hzero Hb0) as [Hs0 Hrem].
        split; [exact Hs0|].
        intros e' r' [<- | Hin] Hsup'.
        -- rewrite Hsup in Hsup'. discriminate.
        -- apply Hrem; assumption.
    + apply IHl. exact Hrest.
Qed.

(** X14: after the two passes that main() runs to discard what cannot
    be run, unsupported stressors first and pathological ones next
    (the pathological option off), the list holds the same stressors
    in the same order with the same instance counts; a stressor that
    was ignored keeps its reason; and a stressor still not ignored is
    not pathological and, unless it has no instance, has no
    supported() hook that returns a negative value. *)
Theorem exclusions_leave_runnable :
  forall stressors pathological l u,
    let l' := stress_exclude_pathological false pathological
                (fst (stress_exclude_unsupported stressors l u)) in
    map ss_id l' = map ss_id l
    /\ map ss_num_instances l' = map ss_num_instances l
    /\ Forall2 (fun ss ss' =>
                  (ss_ignore_run ss <> 0 -> ss_ignore_run ss' = ss_ignore_run ss)
                  /\ (ss_ignore_run ss' = 0 ->
                      ss_ignore_run ss = 0
                      /\ pathological (ss_id ss) = false
                      /\ forall e r,
                           In e stressors -> cat_supported e = Some r ->
                           ss_id ss = cat_id e -> r < 0 ->
                           ss_num_instances ss = 0)) l l'.
Proof.
  intros stressors pathological l u.
  destruct (exclude_unsupported_spec stressors l u) as [Hid [Hnum Hall]].
  cbv zeta in *.
  remember (fst (stress_exclude_unsupported stressors l u)) as l1 eqn:Hl1.
  clear Hl1. unfold stress_exclude_pathological.
  assert (Hid2 : forall x,
             map ss_id (map (fun ss =>
                               if (ss_ignore_run ss =? 0) && pathological (ss_id ss)
                               then stress_ignore_stressor ss STRESS_STRESSOR_EXCLUDED
                               else ss) x) = map ss_id x).
  { intros x. rewrite map_map. apply map_ext. intros ss.
    destruct ((ss_ignore_run ss =? 0) && pathological (ss_id ss)); reflexivity. }
  assert (Hnum2 : forall x,
             map ss_num_instances
                 (map (fun ss =>
                         if (ss_ignore_run ss =? 0) && pathological (ss_id ss)
                         then stress_ignore_stressor ss STRESS_STRESSOR_EXCLUDED
                         else ss) x) = map ss_num_instances x).
  { intros x. rewrite map_map. apply map_ext. intros ss.
    destruct ((ss_ignore_run ss =? 0) && pathological (ss_id ss)); reflexivity. }
  split; [rewrite Hid2; exact Hid|]. split; [rewrite Hnum2; exact Hnum|].
  assert (Hpair : Forall2 (fun ss ss1 => ss_id ss1 = ss_id ss) l l1).
  { clear -Hid. revert l1 Hid.
    induction l as [|a l IH]; intros [|b l1] H; cbn [map] in H;
      try discriminate; constructor.
    - injection H as H _. exact H.
    - apply IH. injection H as _ H. exact H. }
  clear Hid Hnum Hid2 Hnum2.
  induction Hall as [|ss ss1 l0 l1' Hab Hrest IH]; cbn [map]; constructor.
  - inversion Hpair as [|? ? ? ? Hsid _]; subst.
    destruct Hab as [Hkeep Hzero].
    destruct (ss_ignore_run ss1 =? 0) eqn:H1; cbn [andb].
    + apply Z.eqb_eq in H1. destruct (Hzero H1) as [Hs0 Hrem].
      destruct (pathological (ss_id ss1)) eqn:Hp.
      * cbn [stress_ignore_stressor ss_ignore_run]. split.
        -- intros Hne. contradiction.
        -- intros Hex. discriminate.
      * split; [exact Hkeep|]. intros _.
        split; [exact Hs0|]. split; [rewrite <- Hsid; exact Hp|].
        intros e r Hin Hsup Heq Hneg.
        specialize (Hrem e r Hin Hsup).
        unfold unsupported_hit in Hrem.
        rewrite Hs0, Heq, !Z.eqb_refl in Hrem. cbn [andb] in Hrem.
        apply Z.ltb_lt in Hneg. rewrite Hneg, andb_true_r in Hrem.
        apply negb_false_iff, Z.eqb_eq in Hrem. exact Hrem.
    + split; [exact Hkeep|]. intros H0.
      apply Z.eqb_neq in H1. contradiction.
  - apply IH. inversion Hpair; assumption.
Qed.

Lemma exclude_loop_known :
  forall find tokens l,
    Forall (fun t => find t <> None) tokens ->
    exclude_loop find tokens l
    = (0, map (fun ss => if excluded_by find tokens ss
                         then stress_ignore_stressor ss STRESS_STRESSOR_EXCLUDED
                         else ss) l).
Proof.
  intros find. induction tokens as [|t tokens IH]; intros l Hall.
  - cbn [exclude_loop excluded_by existsb]. rewrite map_id. reflexivity.
  - inversion Hall as [|? ? Ht Hrest]; subst.
    cbn [exclude_loop]. destruct (find t) as [id|] eqn:Hf; [|contradiction].
    rewrite (IH _ Hrest), map_map. f_equal. apply map_ext. intros ss.
    unfold excluded_by. cbn [existsb]. rewrite Hf.
    destruct (ss_id ss =? id) eqn:Hid; cbn [orb].
    + cbn [stress_ignore_stressor ss_id].
      match goal with
      | |- (if ?b then _ else _) = _ => destruct b; reflexivity
      end.
    + reflexivity.
Qed.

Lemma exclude_loop_app :
  forall find pre rest l,
    Forall (fun t => find t <> None) pre ->
    exclude_loop find (pre ++ rest) l
    = exclude_loop find rest (snd (exclude_loop find pre l)).
Proof.
  intros find. induction pre as [|t pre IH]; intros rest l Hall.
  - reflexivity.
  - inversion Hall as [|? ? Ht Hrest]; subst.
    cbn [app exclude_loop]. destruct (find t) as [id|]; [|contradiction].
    apply IH. exact Hrest.
Qed.

(** X15: stress_exclude works through the names of the exclude list in
    order and stops at the first name it does not know, returning -1
    with the stressors named before it already excluded; when it knows
    every name it returns 0. A stressor named is marked EXCLUDED
    whatever its state was, also when it was marked unsupported
    before; the others are left as they are. *)
Theorem stress_exclude_spec :
  forall find pre rest l,
    Forall (fun t => find t <> None) pre ->
    (rest = [] \/ exists bad post, rest = bad :: post /\ find bad = None) ->
    stress_exclude find (Some (pre ++ rest)) l
    = (match rest with [] => 0 | _ => -1 end,
       map (fun ss => if excluded_by find pre ss
                      then stress_ignore_stressor ss STRESS_STRESSOR_EXCLUDED
                      else ss) l).
Proof.
  intros find pre rest l Hall Hrest.
  unfold stress_exclude.
  rewrite (exclude_loop_app find pre rest l Hall).
  rewrite (exclude_loop_known find pre l Hall). cbn [snd].
  destruct Hrest as [-> | [bad [post [-> Hbad]]]].
  - reflexivity.
  - cbn [exclude_loop]. rewrite Hbad. reflexivity.
Qed.

Lemma stress_exclude_spec_witness :
  stress_exclude sample_find (Some (["cpu"%string] ++ ["bogus"%string])) sample_mixed
  = (match ["bogus"%string] with [] => 0 | _ => -1 end,
     map (fun ss => if excluded_by sample_find ["cpu"%string] ss
                    then stress_ignore_stressor ss STRESS_STRESSOR_EXCLUDED
                    else ss) sample_mixed).
Proof.
  apply (stress_exclude_spec sample_find ["cpu"%string] ["bogus"%string] sample_mixed).
  - constructor; [discriminate | constructor].
  - right. exists "bogus"%string, []. split; reflexivity.
Defined.

(** ** The child run path, continued *)

(** X16: a child that does not get to run its stressor, because the
    handlers could not be installed, a stop was requested before the
    start, or the run is a dry run, leaves the checksum slot, the
    counter info and the completed mark of its stats slot as it found
    them; it returns EXIT_FAILURE in the first case and EXIT_SUCCESS
    in the others, unless a terminate signal turns that into
    EXIT_SIGNALED. *)
Theorem run_child_skipped :
  forall pad_len stress_hash_jenkin env stats checksum ic,
    runs_stressor env = false ->
    let r := stress_run_child pad_len stress_hash_jenkin env stats checksum ic in
    child_checksum r = checksum
    /\ st_ci (child_stats r) = st_ci stats
    /\ st_completed (child_stats r) = st_completed stats
    /\ child_rc r
       = if negb (terminate_signum env =? 0) then EXIT_SIGNALED
         else if handler_ok env then EXIT_SUCCESS else EXIT_FAILURE.
Proof.
  intros pad_len hashf env stats checksum ic Hskip r. subst r.
  unfold runs_stressor in Hskip. unfold stress_run_child.
  destruct (handler_ok env); cbn [negb andb] in *.
  - rewrite Hskip. unfold child_exit. cbn.
    destruct (terminate_signum env =? 0); repeat split.
  - unfold child_exit. cbn.
    destruct (terminate_signum env =? 0); repeat split.
Qed.

Lemma run_child_skipped_witness :
  let env := mk_child_env true true true false false
               sample_stressor_ok (fun rc => rc) (fun rc => rc) 0 in
  let r := stress_run_child sample_pad_len jenkin_one_at_a_time
             env sample_stats sample_checksum sample_ic in
  child_checksum r = sample_checksum
  /\ st_ci (child_stats r) = st_ci sample_stats
  /\ st_completed (child_stats r) = st_completed sample_stats
  /\ child_rc r
     = if negb (terminate_signum env =? 0) then EXIT_SIGNALED
       else if handler_ok env then EXIT_SUCCESS else EXIT_FAILURE.
Proof.
  apply (run_child_skipped sample_pad_len jenkin_one_at_a_time
           (mk_child_env true true true false false
              sample_stressor_ok (fun rc => rc) (fun rc => rc) 0)
           sample_stats sample_checksum sample_ic).
  reflexivity.
Defined.

Lemma run_child_slot_matches_witness :
  let s := stats_after_child
             (stress_run_child sample_pad_len jenkin_one_at_a_time
                sample_env sample_stats sample_checksum sample_ic) in
  spec_slot_agrees sample_pad_len jenkin_one_at_a_time s = true
  /\ stress_metrics_check sample_pad_len jenkin_one_at_a_time
       [mk_stressor 1 0 false 1 [s] (mk_status 0 0 0 0)] true = true.
Proof.
  apply (run_child_slot_matches sample_pad_len jenkin_one_at_a_time
           sample_env sample_stats sample_checksum sample_ic
           1 false (mk_status 0 0 0 0) true).
  reflexivity.
Defined.

Lemma run_child_untrustworthy_witness :
  child_rc (stress_run_child sample_pad_len jenkin_one_at_a_time
              (mk_child_env true true false false false
                 sample_stressor_cut (fun rc => rc) (fun rc => rc) 0)
              sample_stats sample_checksum sample_ic)
  = EXIT_METRICS_UNTRUSTWORTHY.
Proof.
  apply (run_child_untrustworthy sample_pad_len jenkin_one_at_a_time
           (mk_child_env true true false false false
              sample_stressor_cut (fun rc => rc) (fun rc => rc) 0)
           sample_stats sample_checksum sample_ic); reflexivity.
Defined.

(** ** The guard page of the main mapping *)

(** X19: the main shared mapping is a whole number of pages, and its
    last page, the one that is made inaccessible, starts beyond the
    shared head and all the stats slots: nothing the orchestrator
    stores falls into it. *)
Theorem shared_map_guard_page :
  forall H S P T k : Z,
    0 <= T < 2 ^ 31 -> 0 <= H -> 0 <= S -> 0 <= k -> P = 2 ^ k ->
    H + S * T + 2 * P < 2 ^ 64 ->
    (shared_map_length H S P T) mod P = 0
    /\ H + S * T < shared_map_length H S P T - P
    /\ shared_map_length H S P T <= H + S * T + 2 * P.
Proof.
  intros H S P T k HT HH HS Hk HP Hb.
  rewrite (shared_map_length_spec H S P T k HT HH HS Hk HP Hb).
  assert (Hpos : 0 < P) by (subst P; apply Z.pow_pos_nonneg; lia).
  assert (Hlen : 0 <= S * T) by nia.
  pose proof (Z.div_mod (H + S * T + 2 * P) P ltac:(lia)) as Hdm.
  pose proof (Z.mod_pos_bound (H + S * T + 2 * P) P Hpos) as Hm.
  split; [apply Z.mod_mul; lia|]. split; nia.
Qed.

Lemma shared_map_guard_page_witness :
  (shared_map_length 1000 200 4096 8) mod 4096 = 0
  /\ 1000 + 200 * 8 < shared_map_length 1000 200 4096 8 - 4096
  /\ shared_map_length 1000 200 4096 8 <= 1000 + 200 * 8 + 2 * 4096.
Proof.
  apply (shared_map_guard_page 1000 200 4096 8 12); try lia; reflexivity.
Defined.

(** ** What the permutation regime leaves *)

Lemma permute_loop_keeps :
  forall cont run,
    (forall x, map stressor_flags (run x) = map stressor_flags x) ->
    forall fuel i num_perms l,
      map ss_id (snd (permute_loop cont run fuel i num_perms l)) = map ss_id l
      /\ map ss_ignore_run (snd (permute_loop cont run fuel i num_perms l))
         = map ss_ignore_run l.
Proof.
  intros cont run Hrun.
  induction fuel as [|fuel IH]; intros i num_perms l; cbn [permute_loop].
  - split; reflexivity.
  - destruct (cont i && (i <? num_perms)); [|split; reflexivity].
    specialize (IH (i + 1) num_perms (run (permute_mask i 0 l))).
    destruct (permute_loop cont run fuel (i + 1) num_perms
                (run (permute_mask i 0 l))) as [runs l'].
    cbn [snd] in *. destruct IH as [Hid Hr].
    destruct (flags_keep_ids _ _ (Hrun (permute_mask i 0 l))) as [Hid1 Hr1].
    destruct (permute_mask_keeps l i 0) as [Hid2 Hr2].
    split; congruence.
Qed.

(** X20: however the permutation regime ends, after all its runs or
    stopped early, it hands the list back with the same stressors in
    the same order, their ignore reasons untouched and the permute
    mask cleared on every one of them. *)
Theorem permute_leaves_unmasked :
  forall cont run l,
    (forall x, map stressor_flags (run x) = map stressor_flags x) ->
    map ss_id (snd (stress_run_permute cont run l)) = map ss_id l
    /\ map ss_ignore_run (snd (stress_run_permute cont run l)) = map ss_ignore_run l
    /\ Forall (fun ss => ss_ignore_permute ss = false)
              (snd (stress_run_permute cont run l)).
Proof.
  intros cont run l Hrun.
  unfold stress_run_permute, permute_init.
  match goal with
  | |- context [permute_loop cont run ?f ?i ?n ?x] =>
      destruct (permute_loop_keeps cont run Hrun f i n x) as [Hid Hr];
      destruct (permute_loop cont run f i n x) as [runs l']
  end.
  cbn [snd] in *.
  rewrite !map_map in *. cbn [set_ignore_permute ss_id ss_ignore_run] in *.
  split; [exact Hid|]. split; [exact Hr|].
  apply Forall_forall. intros ss Hin.
  apply in_map_iff in Hin. destruct Hin as [ss0 [<- _]]. reflexivity.
Qed.

Lemma permute_leaves_unmasked_witness :
  map ss_id (snd (stress_run_permute (fun _ => true) (fun x => x) sample_mixed))
  = map ss_id sample_mixed
  /\ map ss_ignore_run (snd (stress_run_permute (fun _ => true) (fun x => x) sample_mixed))
     = map ss_ignore_run sample_mixed
  /\ Forall (fun ss => ss_ignore_permute ss = false)
            (snd (stress_run_permute (fun _ => true) (fun x => x) sample_mixed)).
Proof.
  apply (permute_leaves_unmasked (fun _ => true) (fun x => x) sample_mixed).
  intros x. reflexivity.
Defined.

(** ** The totals of a stressor *)

Section TotalsProperties.

Local Open Scope R_scope.

(** X21: in the totals of a stressor with at least one completed
    instance and wall-clock times that add up to something positive,
    the number of completed instances does not exceed the number of
    instances, the CPU usage per instance is 100 times the
    user and system time of all instances over the sum of their
    wall-clock times, and the bogo-ops rate on real time is the total
    of the bogo-ops times the number of completed instances over that
    sum. *)
Theorem totals_rates :
  forall l,
    (Z.of_nat (length l) < 2 ^ 32)%Z ->
    (0 < Totals.completed_instances l)%Z ->
    0 < Totals.duration_sum l ->
    (Totals.completed_instances l <= Z.of_nat (length l))%Z
    /\ Totals.cpu_usage l
       = 100 * (Totals.u_total l + Totals.s_total l) / Totals.duration_sum l
    /\ Totals.bogo_rate_r_time l
       = IZR (Totals.c_total l) * IZR (Totals.completed_instances l)
         / Totals.duration_sum l.
Proof.
  intros l Hlen Hpos Hdur.
  assert (Hc : Totals.completed_instances l
               = Z.of_nat (length (filter Totals.t_completed l))).
  { unfold Totals.completed_instances.
    rewrite completed_instances_loop by lia. lia. }
  pose proof (filter_length_le Totals.t_completed l) as Hle.
  split; [rewrite Hc; lia|].
  assert (Hn : 0 < IZR (Totals.completed_instances l)) by (apply IZR_lt; exact Hpos).
  assert (Hr : Totals.r_total l
               = Totals.duration_sum l / IZR (Totals.completed_instances l)).
  { unfold Totals.r_total.
    destruct (Z.eqb_spec (Totals.completed_instances l) 0); [lia | reflexivity]. }
  assert (Hrpos : 0 < Totals.r_total l).
  { rewrite Hr. apply Rdiv_lt_0_compat; assumption. }
  split.
  - unfold Totals.cpu_usage.
    destruct (Z.eqb_spec (Totals.completed_instances l) 0); [lia|].
    destruct (Rlt_dec 0 (Totals.r_total l)); [|contradiction].
    rewrite Hr. field. split; lra.
  - unfold Totals.bogo_rate_r_time.
    destruct (Rlt_dec 0 (Totals.r_total l)); [|contradiction].
    rewrite Hr. field. split; lra.
Qed.

Lemma totals_rates_witness :
  (Totals.completed_instances sample_totals <= Z.of_nat (length sample_totals))%Z
  /\ Totals.cpu_usage sample_totals
     = 100 * (Totals.u_total sample_totals + Totals.s_total sample_totals)
       / Totals.duration_sum sample_totals
  /\ Totals.bogo_rate_r_time sample_totals
     = IZR (Totals.c_total sample_totals)
       * IZR (Totals.completed_instances sample_totals)
       / Totals.duration_sum sample_totals.
Proof.
  apply (totals_rates sample_totals).
  - vm_compute. reflexivity.
  - vm_compute. reflexivity.
  - unfold Totals.duration_sum, sample_totals. simpl. lra.
Defined.

End TotalsProperties.

(** ** Waiting for the stressors *)

Lemma array_set_nth_error_eq :
  forall (A : Type) (l : list A) (i : nat) (x : A),
    (i < length l)%nat -> nth_error (array_set i x l) i = Some x.
Proof.
  intros A. induction l as [|a l IH]; intros i x Hi; simpl in Hi; [lia|].
  destruct i as [|i]; cbn [array_set nth_error]; [reflexivity|].
  apply IH. lia.
Qed.

Lemma array_set_nth_error_neq :
  forall (A : Type) (l : list A) (i k : nat) (x : A),
    k <> i -> nth_error (array_set i x l) k = nth_error l k.
Proof.
  intros A. induction l as [|a l IH]; intros i k x Hk; [reflexivity|].
  destruct i as [|i]; destruct k as [|k]; cbn [array_set nth_error];
    try reflexivity; try contradiction.
  apply IH. lia.
Qed.

(** A kill leaves every node in place with its key and its buckets. *)
Lemma kill_list_loop_nodes :
  forall signum l k ss,
    nth_error l k = Some ss ->
    exists ss',
      nth_error (snd (kill_list_loop signum l)) k = Some ss'
      /\ node_key ss' = node_key ss /\ ss_status ss' = ss_status ss.
Proof.
  intros signum. induction l as [|a l IH]; intros k ss Hk.
  - destruct k; discriminate.
  - cbn [kill_list_loop].
    destruct (kill_list_loop signum l) as [sent_rest rest'] eqn:Hrec.
    cbn [snd] in IH.
    destruct (negb (ss_ignore_run a =? 0)).
    + destruct k as [|k]; cbn [snd nth_error] in *.
      * injection Hk as <-. exists a. repeat split.
      * apply IH. exact Hk.
    + destruct (kill_instances signum
                  (firstn (Z.to_nat (ss_num_instances a)) (ss_stats a)))
        as [sent visited].
      destruct k as [|k]; cbn [snd nth_error] in *.
      * injection Hk as <-. eexists. split; [reflexivity|]. split; reflexivity.
      * apply IH. exact Hk.
Qed.

Lemma kill_stressors_nodes :
  forall sig force count l k ss,
    nth_error l k = Some ss ->
    exists ss',
      nth_error (kill_list (stress_kill_stressors sig force count l)) k = Some ss'
      /\ node_key ss' = node_key ss /\ ss_status ss' = ss_status ss.
Proof.
  intros sig force count l k ss Hk. unfold stress_kill_stressors.
  match goal with
  | |- context [kill_list_loop ?s l] =>
      destruct (kill_list_loop_nodes s l k ss Hk) as [ss' H];
      destruct (kill_list_loop s l) as [sent l']
  end.
  exists ss'. exact H.
Qed.

Lemma update_slot_nodes :
  forall i j status pid l k ss,
    nth_error l k = Some ss ->
    exists ss',
      nth_error (update_slot i j status pid l) k = Some ss'
      /\ node_key ss' = node_key ss
      /\ ss_status ss' = if Nat.eqb k i then status else ss_status ss.
Proof.
  intros i j status pid l k ss Hk. unfold update_slot.
  destruct (nth_error l i) as [a|] eqn:Hi.
  - destruct (Nat.eqb_spec k i) as [-> | Hne].
    + rewrite Hk in Hi. injection Hi as <-.
      rewrite array_set_nth_error_eq
        by (apply nth_error_Some; rewrite Hk; discriminate).
      eexists. split; [reflexivity|]. split; reflexivity.
    + rewrite array_set_nth_error_neq by exact Hne.
      exists ss. repeat split. exact Hk.
  - exists ss. split; [exact Hk|]. split; [reflexivity|].
    destruct (Nat.eqb_spec k i) as [-> | _]; [|reflexivity].
    rewrite Hk in Hi. discriminate.
Qed.

Lemma wait_pid_flags_mono :
  forall opt_abort oomed outcomes w r,
    stress_wait_pid opt_abort oomed outcomes w = Some r ->
    (w_success (wr_state r) = true -> w_success w = true)
    /\ (w_resource_success (wr_state r) = true -> w_resource_success w = true)
    /\ (w_metrics_success (wr_state r) = true -> w_metrics_success w = true).
Proof.
  intros opt_abort oomed outcomes w.
  induction outcomes as [|o outcomes IH]; intros r H; simpl in H.
  - discriminate.
  - destruct o as [ret status | | | ].
    + destruct (0 <? ret).
      * injection H as <-. unfold wait_reaped.
        match goal with
        | |- context [exit_switch ?x ?w1] =>
            pose proof (exit_switch_flags x w1) as Hf;
            destruct (exit_switch x w1) as [w2 do_abort]
        end.
        cbn [fst] in Hf. destruct Hf as [Hs [Hr [Hm _]]]. simpl in *.
        repeat split; intros Ht.
        -- eapply signal_death_never_sets. apply Hs. exact Ht.
        -- apply Hr. exact Ht.
        -- apply Hm. exact Ht.
      * injection H as <-. simpl. tauto.
    + apply IH. exact H.
    + injection H as <-. simpl. tauto.
    + injection H as <-. simpl. tauto.
Qed.

Lemma exit_switch_bucket_step :
  forall x w, bucket_step (w_status w) (w_status (fst (exit_switch x w))).
Proof.
  intros x w. unfold exit_switch, bucket_step.
  repeat match goal with
         | |- context [if ?b then _ else _] => destruct b
         end; cbn [fst w_status]; tauto.
Qed.

Lemma wait_pid_bucket_step :
  forall opt_abort oomed outcomes w r,
    stress_wait_pid opt_abort oomed outcomes w = Some r ->
    bucket_step (w_status w) (w_status (wr_state r)).
Proof.
  intros opt_abort oomed outcomes w.
  induction outcomes as [|o outcomes IH]; intros r H; simpl in H.
  - discriminate.
  - destruct o as [ret status | | | ].
    + destruct (0 <? ret).
      * injection H as <-. unfold wait_reaped.
        match goal with
        | |- context [exit_switch ?x ?w1] =>
            pose proof (exit_switch_bucket_step x w1) as Hb;
            destruct (exit_switch x w1) as [w2 do_abort]
        end.
        cbn [fst] in Hb. simpl in *. exact Hb.
      * injection H as <-. left. reflexivity.
    + apply IH. exact H.
    + injection H as <-. left. reflexivity.
    + injection H as <-. left. reflexivity.
Qed.

Lemma bucket_step_bound :
  forall s s',
    bucket_step s s' -> buckets_nonneg s ->
    buckets_nonneg s' /\ bucket_sum s' <= bucket_sum s + 1.
Proof.
  intros s s' Hstep [Hp [Hf [Hs Hb]]].
  assert (Hw : forall x, 0 <= x -> 0 <= wrap32 (x + 1) <= x + 1).
  { intros x Hx. unfold wrap32.
    pose proof (Z.mod_pos_bound (x + 1) (2 ^ 32) ltac:(lia)).
    pose proof (Z.mod_le (x + 1) (2 ^ 32) ltac:(lia) ltac:(lia)). lia. }
  unfold buckets_nonneg, bucket_sum.
  destruct Hstep as [-> | [-> | [-> | [-> | ->]]]]; cbn;
    try (pose proof (Hw _ Hp)); try (pose proof (Hw _ Hf));
    try (pose proof (Hw _ Hs)); try (pose proof (Hw _ Hb)); lia.
Qed.

(** One slot: keys kept, flags only cleared, the buckets of node [i]
    one step on, the buckets of the others untouched. *)
Lemma wait_slot_nodes :
  forall env i j o o',
    wait_slot env i j o = Some o' ->
    ((o_success o' = true -> o_success o = true)
     /\ (o_resource_success o' = true -> o_resource_success o = true)
     /\ (o_metrics_success o' = true -> o_metrics_success o = true))
    /\ forall k ss,
         nth_error (o_list o) k = Some ss ->
         exists ss',
           nth_error (o_list o') k = Some ss'
           /\ node_key ss' = node_key ss
           /\ (k <> i -> ss_status ss' = ss_status ss)
           /\ bucket_step (ss_status ss) (ss_status ss').
Proof.
  intros env i j o o' H. unfold wait_slot in H.
  assert (Hsame : Some o = Some o' ->
            ((o_success o' = true -> o_success o = true)
             /\ (o_resource_success o' = true -> o_resource_success o = true)
             /\ (o_metrics_success o' = true -> o_metrics_success o = true))
            /\ forall k ss,
                 nth_error (o_list o) k = Some ss ->
                 exists ss',
                   nth_error (o_list o') k = Some ss'
                   /\ node_key ss' = node_key ss
                   /\ (k <> i -> ss_status ss' = ss_status ss)
                   /\ bucket_step (ss_status ss) (ss_status ss')).
  { intros E. injection E as <-. split; [tauto|].
    intros k ss Hk. exists ss. repeat split; try assumption. left. reflexivity. }
  destruct (nth_error (o_list o) i) as [a|] eqn:Hi; [|apply Hsame; exact H].
  destruct (nth_error (ss_stats a) j) as [stats|] eqn:Hj; [|apply Hsame; exact H].
  destruct (st_pid stats =? 0); [apply Hsame; exact H|].
  clear Hsame.
  destruct (stress_wait_pid (we_opt_abort env) (we_oomed env i j)
              (we_outcomes env i j)
              (mk_wait (ss_status a) (st_pid stats) (o_reaped o)
                       (o_success o) (o_resource_success o)
                       (o_metrics_success o))) as [r|] eqn:Hw; [|discriminate].
  injection H as <-. cbn [o_success o_resource_success o_metrics_success o_list].
  pose proof (wait_pid_flags_mono _ _ _ _ _ Hw) as Hf.
  pose proof (wait_pid_bucket_step _ _ _ _ _ Hw) as Hb.
  cbn [w_success w_resource_success w_metrics_success w_status] in Hf, Hb.
  split; [exact Hf|].
  intros k ss Hk.
  assert (Hkill : exists ss1,
             nth_error (kill_list
                          (if wr_abort_broadcast r
                           then stress_kill_stressors SIGALRM true
                                  (o_kill_count o) (o_list o)
                           else mk_kill (o_kill_count o) [] (o_list o))) k
             = Some ss1
             /\ node_key ss1 = node_key ss /\ ss_status ss1 = ss_status ss).
  { destruct (wr_abort_broadcast r).
    - apply kill_stressors_nodes. exact Hk.
    - exists ss. repeat split. exact Hk. }
  destruct Hkill as [ss1 [Hk1 [Hkey1 Hst1]]].
  destruct (update_slot_nodes i j (w_status (wr_state r)) (w_pid (wr_state r))
              _ k ss1 Hk1) as [ss' [Hk' [Hkey' Hst']]].
  exists ss'. split; [exact Hk'|]. split; [congruence|].
  destruct (Nat.eqb_spec k i) as [-> | Hne].
  - rewrite Hk in Hi. injection Hi as <-.
    split; [intros Hc; contradiction|]. rewrite Hst'. exact Hb.
  - split; [intros _; congruence|]. left. congruence.
Qed.

(** The inner loop over the instances [js] of node [i]. *)
Lemma wait_slots_nodes :
  forall env i js o o',
    wait_slots env i js o = Some o' ->
    flags_only_cleared o o'
    /\ forall k ss,
         nth_error (o_list o) k = Some ss ->
         buckets_nonneg (ss_status ss) ->
         exists ss',
           nth_error (o_list o') k = Some ss'
           /\ node_key ss' = node_key ss
           /\ (k <> i -> ss_status ss' = ss_status ss)
           /\ buckets_nonneg (ss_status ss')
           /\ bucket_sum (ss_status ss')
              <= bucket_sum (ss_status ss) + Z.of_nat (length js).
Proof.
  intros env i. unfold flags_only_cleared.
  induction js as [|j js IH]; intros o o' H.
  - injection H as <-. split; [tauto|].
    intros k ss Hk Hn. exists ss. cbn [length].
    split; [exact Hk|]. split; [reflexivity|]. split; [reflexivity|].
    split; [exact Hn|]. lia.
  - cbn [wait_slots] in H.
    destruct (wait_slot env i j o) as [o1|] eqn:H1; [|discriminate].
    destruct (wait_slot_nodes _ _ _ _ _ H1) as [Hf1 Hn1].
    destruct (IH _ _ H) as [Hf2 Hn2].
    split; [tauto|].
    intros k ss Hk Hn.
    destruct (Hn1 k ss Hk) as [ss1 [Hk1 [Hkey1 [Hst1 Hb1]]]].
    destruct (bucket_step_bound _ _ Hb1 Hn) as [Hnn1 Hle1].
    destruct (Hn2 k ss1 Hk1 Hnn1) as [ss' [Hk' [Hkey' [Hst' [Hnn' Hle']]]]].
    exists ss'. split; [exact Hk'|]. split; [congruence|].
    split; [intros Hne; rewrite (Hst' Hne); apply Hst1; exact Hne|].
    split; [exact Hnn'|].
    cbn [length]. lia.
Qed.

(** The outer loop over the nodes at the positions [nodes]. *)
Lemma wait_nodes_nodes :
  forall env nodes o o',
    NoDup nodes ->
    wait_nodes env nodes o = Some o' ->
    flags_only_cleared o o'
    /\ forall k ss,
         nth_error (o_list o) k = Some ss ->
         buckets_nonneg (ss_status ss) ->
         exists ss',
           nth_error (o_list o') k = Some ss'
           /\ node_key ss' = node_key ss
           /\ (~ In k nodes \/ participates ss = false ->
               ss_status ss' = ss_status ss)
           /\ buckets_nonneg (ss_status ss')
           /\ bucket_sum (ss_status ss')
              <= bucket_sum (ss_status ss) + Z.max 0 (ss_num_instances ss).
Proof.
  intros env. unfold flags_only_cleared.
  induction nodes as [|i nodes IH]; intros o o' Hnd H.
  - injection H as <-. split; [tauto|].
    intros k ss Hk Hn. exists ss.
    split; [exact Hk|]. split; [reflexivity|]. split; [reflexivity|].
    split; [exact Hn|]. lia.
  - apply NoDup_cons_iff in Hnd. destruct Hnd as [Hni Hnd].
    cbn [wait_nodes] in H.
    assert (Hskip : wait_nodes env nodes o = Some o' ->
              flags_only_cleared o o'
              /\ forall k ss,
                   nth_error (o_list o) k = Some ss ->
                   buckets_nonneg (ss_status ss) ->
                   (k = i -> participates ss = false) ->
                   exists ss',
                     nth_error (o_list o') k = Some ss'
                     /\ node_key ss' = node_key ss
                     /\ (~ In k (i :: nodes) \/ participates ss = false ->
                         ss_status ss' = ss_status ss)
                     /\ buckets_nonneg (ss_status ss')
                     /\ bucket_sum (ss_status ss')
                        <= bucket_sum (ss_status ss)
                           + Z.max 0 (ss_num_instances ss)).
    { intros H'. destruct (IH _ _ Hnd H') as [Hf Hn]. split; [exact Hf|].
      intros k ss Hk Hnn Hpart.
      destruct (Hn k ss Hk Hnn) as [ss' [Hk' [Hkey' [Hst' Hrest]]]].
      exists ss'. split; [exact Hk'|]. split; [exact Hkey'|].
      split; [|exact Hrest].
      intros [Hnot | Hp]; apply Hst'; [left|right; exact Hp].
      intros Hin. apply Hnot. right. exact Hin. }
    destruct (nth_error (o_list o) i) as [a|] eqn:Hi.
    + destruct (negb (ss_ignore_run a =? 0) || ss_ignore_permute a) eqn:Hig.
      * destruct (Hskip H) as [Hf Hn]. split; [exact Hf|].
        intros k ss Hk Hnn. apply Hn; try assumption.
        intros ->. rewrite Hk in Hi. injection Hi as <-.
        unfold participates. rewrite Hig. reflexivity.
      * clear Hskip.
        destruct (wait_slots env i (seq 0 (Z.to_nat (ss_num_instances a))) o)
          as [o1|] eqn:H1; [|discriminate].
        destruct (wait_slots_nodes _ _ _ _ _ H1) as [Hf1 Hn1].
        destruct (IH _ _ Hnd H) as [Hf2 Hn2].
        split; [unfold flags_only_cleared in Hf1; tauto|].
        intros k ss Hk Hnn.
        destruct (Hn1 k ss Hk Hnn) as [ss1 [Hk1 [Hkey1 [Hst1 [Hnn1 Hle1]]]]].
        rewrite length_seq in Hle1.
        destruct (Nat.eq_dec k i) as [-> | Hne].
        -- rewrite Hk in Hi. injection Hi as <-.
           (* node i is not met again in the rest of the walk *)
           destruct (Hn2 i ss1 Hk1 Hnn1)
             as [ss' [Hk' [Hkey' [Hst' [Hnn' _]]]]].
           exists ss'. split; [exact Hk'|]. split; [congruence|].
           rewrite (Hst' (or_introl Hni)).
           split.
           { intros [Hnot | Hp].
             - exfalso. apply Hnot. left. reflexivity.
             - unfold participates in Hp. rewrite Hig in Hp. discriminate. }
           split; [exact Hnn1|]. lia.
        -- destruct (Hn2 k ss1 Hk1 Hnn1)
             as [ss' [Hk' [Hkey' [Hst' [Hnn' Hle']]]]].
           assert (Hpart : participates ss1 = participates ss).
           { unfold participates. unfold node_key in Hkey1.
             injection Hkey1 as _ Hr Hp _. rewrite Hr, Hp. reflexivity. }
           assert (Hnum : ss_num_instances ss1 = ss_num_instances ss).
           { unfold node_key in Hkey1. injection Hkey1 as _ _ _ Hnum.
             exact Hnum. }
           exists ss'. split; [exact Hk'|]. split; [congruence|].
           rewrite (Hst1 Hne) in *. rewrite Hnum in Hle'.
           split; [|split; [exact Hnn'|exact Hle']].
           intros [Hnot | Hp]; apply Hst'.
           ++ left. intros Hin. apply Hnot. right. exact Hin.
           ++ right. rewrite Hpart. exact Hp.
    + destruct (Hskip H) as [Hf Hn]. split; [exact Hf|].
      intros k ss Hk Hnn. apply Hn; try assumption.
      intros ->. rewrite Hk in Hi. discriminate.
Qed.

Lemma wait_pid_returns :
  forall opt_abort oomed outcomes w,
    wait_returns outcomes = true ->
    exists r, stress_wait_pid opt_abort oomed outcomes w = Some r.
Proof.
  intros opt_abort oomed outcomes w.
  induction outcomes as [|x outcomes IH]; intros H; [discriminate|].
  destruct x as [ret status | | | ]; cbn [stress_wait_pid].
  - destruct (0 <? ret); eexists; reflexivity.
  - apply IH. exact H.
  - eexists; reflexivity.
  - eexists; reflexivity.
Qed.

Section WaitReturns.

Variable env : wait_env.
Hypothesis Hret : forall i j, wait_returns (we_outcomes env i j) = true.

Lemma wait_slot_returns :
  forall i j o, exists o', wait_slot env i j o = Some o'.
Proof.
  intros i j o. unfold wait_slot.
  destruct (nth_error (o_list o) i) as [ss|]; [|eexists; reflexivity].
  destruct (nth_error (ss_stats ss) j) as [stats|]; [|eexists; reflexivity].
  destruct (st_pid stats =? 0); [eexists; reflexivity|].
  match goal with
  | |- context [stress_wait_pid ?a ?b ?c ?w] =>
      destruct (wait_pid_returns a b c w (Hret i j)) as [r ->]
  end.
  eexists; reflexivity.
Qed.

Lemma wait_slots_returns :
  forall i js o, exists o', wait_slots env i js o = Some o'.
Proof.
  intros i. induction js as [|j js IH]; intros o; cbn [wait_slots].
  - eexists; reflexivity.
  - destruct (wait_slot_returns i j o) as [o1 ->]. apply IH.
Qed.

Lemma wait_nodes_returns :
  forall nodes o, exists o', wait_nodes env nodes o = Some o'.
Proof.
  induction nodes as [|i nodes IH]; intros o; cbn [wait_nodes].
  - eexists; reflexivity.
  - destruct (nth_error (o_list o) i) as [ss|]; [|apply IH].
    destruct (negb (ss_ignore_run ss =? 0) || ss_ignore_permute ss); [apply IH|].
    destruct (wait_slots_returns i (seq 0 (Z.to_nat (ss_num_instances ss))) o)
      as [o1 ->].
    apply IH.
Qed.

End WaitReturns.

(** X22: stress_wait_stressors(), with the aggressive option off. If
    every wait is left at some point (no slot meets EINTR for ever),
    the function returns, and for every node of the list, with
    buckets that are not negative at the start: the node is still at
    its place with its id, ignore flags and instance count; the three
    flags of main() are only cleared, never set; the buckets of a node
    that is ignored (run or permute) are untouched; and the buckets of
    the node grow, in sum, by at most its instance count: a wait never
    counts an instance twice. *)
Theorem wait_stressors_accounting :
  forall env o k ss,
    (forall i j, wait_returns (we_outcomes env i j) = true) ->
    nth_error (o_list o) k = Some ss ->
    buckets_nonneg (ss_status ss) ->
    exists o' ss',
      stress_wait_stressors env o = Some o'
      /\ flags_only_cleared o o'
      /\ nth_error (o_list o') k = Some ss'
      /\ node_key ss' = node_key ss
      /\ (participates ss = false -> ss_status ss' = ss_status ss)
      /\ buckets_nonneg (ss_status ss')
      /\ bucket_sum (ss_status ss')
         <= bucket_sum (ss_status ss) + Z.max 0 (ss_num_instances ss).
Proof.
  intros env o k ss Hret Hk Hnn. unfold stress_wait_stressors.
  destruct (wait_nodes_returns env Hret (seq 0 (length (o_list o))) o)
    as [o' Ho'].
  destruct (wait_nodes_nodes _ _ _ _ (seq_NoDup _ _) Ho') as [Hf Hn].
  destruct (Hn k ss Hk Hnn) as [ss' [Hk' [Hkey [Hst [Hnn' Hle]]]]].
  exists o', ss'. split; [exact Ho'|]. split; [exact Hf|].
  split; [exact Hk'|]. split; [exact Hkey|].
  split; [|split; [exact Hnn'|exact Hle]].
  intros Hp. apply Hst. right. exact Hp.
Qed.

Lemma wait_stressors_accounting_witness :
  exists o' ss',
    stress_wait_stressors sample_wait_env sample_orch = Some o'
    /\ flags_only_cleared sample_orch o'
    /\ nth_error (o_list o') 0 = Some ss'
    /\ node_key ss' = (1, 0, false, 2)
    /\ (true = false -> ss_status ss' = mk_status 0 0 0 0)
    /\ buckets_nonneg (ss_status ss')
    /\ bucket_sum (ss_status ss') <= 0 + Z.max 0 2.
Proof.
  apply (wait_stressors_accounting sample_wait_env sample_orch 0
           (sample_stressor 1 [sample_live; set_pid sample_live 4243])).
  - intros i j. destruct j; reflexivity.
  - reflexivity.
  - unfold buckets_nonneg. simpl. lia.
Defined.

Lemma exit_switch_abort :
  forall x w,
    x <> EXIT_SUCCESS -> x <> EXIT_METRICS_UNTRUSTWORTHY ->
    snd (exit_switch x w) = true.
Proof.
  intros x w H0 H7. unfold exit_switch.
  destruct (Z.eqb_spec x EXIT_SUCCESS); [contradiction|].
  destruct (Z.eqb_spec x EXIT_METRICS_UNTRUSTWORTHY); [contradiction|].
  repeat match goal with
         | |- context [if ?b then _ else _] => destruct b
         end; reflexivity.
Qed.

Lemma kill_targets_in :
  forall l i j ss stats,
    nth_error l i = Some ss ->
    ss_ignore_run ss = 0 ->
    (j < Z.to_nat (ss_num_instances ss))%nat ->
    nth_error (ss_stats ss) j = Some stats ->
    is_target stats = true ->
    In (st_pid stats) (kill_targets l).
Proof.
  intros l i j ss stats Hi Hrun Hj Hs Ht.
  unfold kill_targets. apply in_flat_map. exists ss.
  split; [eapply nth_error_In; exact Hi|].
  rewrite Hrun. cbn [Z.eqb]. apply in_map. apply filter_In.
  split; [|exact Ht].
  apply nth_error_In with (n := j). unfold instances.
  rewrite nth_error_firstn.
  apply Nat.ltb_lt in Hj. rewrite Hj. exact Hs.
Qed.

(** X23: the abort branch of stress_wait_pid() as stress_wait_stressors()
    meets it. With the abort option set, when the wait on a live slot
    reaps a child whose exit status is neither EXIT_SUCCESS nor
    EXIT_METRICS_UNTRUSTWORTHY, the continue flag and the wait flag
    are cleared, the static counter of stress_kill_stressors() goes up
    by one and the signal (SIGALRM, SIGKILL from the sixth forced call
    on) goes to every worker with a pid that was not signalled yet, of
    every stressor that is not ignored. The broadcast runs before the
    slot is marked finished, so the pid of the child just reaped is
    among the pids signalled unless it carried the signalled mark
    already. The slot is one the loop visits: its stressor is not
    ignored and [j] is below the instance count. *)
Theorem wait_slot_abort_broadcast :
  forall env i j o ss stats n ret status rest,
    we_opt_abort env = true ->
    nth_error (o_list o) i = Some ss ->
    ss_ignore_run ss = 0 ->
    (j < Z.to_nat (ss_num_instances ss))%nat ->
    nth_error (ss_stats ss) j = Some stats ->
    st_pid stats <> 0 ->
    we_outcomes env i j = repeat WaitEINTR n ++ WaitReaped ret status :: rest ->
    0 < ret ->
    WEXITSTATUS status <> EXIT_SUCCESS ->
    WEXITSTATUS status <> EXIT_METRICS_UNTRUSTWORTHY ->
    exists o',
      wait_slot env i j o = Some o'
      /\ o_continue_flag o' = false
      /\ o_wait_flag o' = false
      /\ o_kill_count o' = wrap_int (o_kill_count o + 1)
      /\ o_sent o'
         = o_sent o
           ++ map (fun pid => (pid, forced_signum SIGALRM (o_kill_count o)))
                  (kill_targets (o_list o))
      /\ (st_signalled stats = true
          \/ In (st_pid stats, forced_signum SIGALRM (o_kill_count o))
                (o_sent o')).
Proof.
  intros env i j o ss stats n ret status rest
         Habort Hi Hrun Hj Hs Hpid Hout Hret H0 H7.
  assert (Hsent :
            forall count l,
              kill_sent (stress_kill_stressors SIGALRM true count l)
              = map (fun pid => (pid, forced_signum SIGALRM count))
                    (kill_targets l)
              /\ kill_count (stress_kill_stressors SIGALRM true count l)
                 = wrap_int (count + 1)).
  { intros count l. unfold stress_kill_stressors, forced_signum.
    cbn [andb].
    match goal with
    | |- context [kill_list_loop ?s l] =>
        pose proof (kill_list_loop_sent s l) as Hk;
        destruct (kill_list_loop s l) as [sent l']
    end.
    cbn [fst] in Hk. cbn [kill_sent kill_count]. split; [exact Hk|reflexivity]. }
  unfold wait_slot. rewrite Hi, Hs.
  destruct (Z.eqb_spec (st_pid stats) 0) as [Hz|_]; [contradiction|].
  rewrite Hout, wait_pid_skips_eintr. cbn [stress_wait_pid].
  apply Z.ltb_lt in Hret. rewrite Hret.
  unfold wait_reaped.
  match goal with
  | |- context [exit_switch ?x ?w1] =>
      pose proof (exit_switch_abort x w1 H0 H7) as Hab;
      destruct (exit_switch x w1) as [w2 do_abort]
  end.
  cbn [snd] in Hab. subst do_abort. rewrite Habort.
  cbn [wr_abort_broadcast wr_state andb].
  destruct (Hsent (o_kill_count o) (o_list o)) as [Hks Hkc].
  eexists. split; [reflexivity|].
  cbn [o_continue_flag o_wait_flag o_kill_count o_sent].
  split; [reflexivity|]. split; [reflexivity|].
  split; [exact Hkc|]. rewrite Hks. split; [reflexivity|].
  destruct (st_signalled stats) eqn:Hsig; [left; reflexivity|right].
  apply in_or_app. right.
  apply (in_map (fun pid => (pid, forced_signum SIGALRM (o_kill_count o)))).
  apply (kill_targets_in _ i j ss stats Hi Hrun Hj Hs).
  unfold is_target. rewrite Hsig.
  destruct (Z.eqb_spec (st_pid stats) 0) as [Hz|_]; [contradiction|reflexivity].
Qed.

Lemma wait_slot_abort_broadcast_witness :
  exists o',
    wait_slot sample_wait_env 0 0 sample_orch = Some o'
    /\ o_continue_flag o' = false
    /\ o_wait_flag o' = false
    /\ o_kill_count o' = 1
    /\ o_sent o' = [(4242, SIGALRM); (4243, SIGALRM)]
    /\ (false = true \/ In (4242, SIGALRM) (o_sent o')).
Proof.
  apply (wait_slot_abort_broadcast sample_wait_env 0 0 sample_orch
           (sample_stressor 1 [sample_live; set_pid sample_live 4243])
           sample_live 1 4242 768 []).
  - reflexivity.
  - reflexivity.
  - reflexivity.
  - simpl. lia.
  - reflexivity.
  - simpl. lia.
  - reflexivity.
  - lia.
  - vm_compute. discriminate.
  - vm_compute. discriminate.
Defined.

(** ** The fork loop *)

Lemma array_set_keys :
  forall (l : list stress_stressor_t) i a x,
    nth_error l i = Some a ->
    node_key x = node_key a ->
    map node_key (array_set i x l) = map node_key l.
Proof.
  induction l as [|b l IH]; intros i a x Hi Hk.
  - reflexivity.
  - destruct i as [|i]; cbn [array_set map nth_error] in *.
    + injection Hi as ->. rewrite Hk. reflexivity.
    + f_equal. eapply IH; eassumption.
Qed.

Lemma map_slot_keys :
  forall i j f l, map node_key (map_slot i j f l) = map node_key l.
Proof.
  intros i j f l. unfold map_slot.
  destruct (nth_error l i) as [ss|] eqn:Hi; [|reflexivity].
  destruct (nth_error (ss_stats ss) j) as [s|]; [|reflexivity].
  eapply array_set_keys; [exact Hi|reflexivity].
Qed.

Lemma kill_list_loop_keys :
  forall signum l,
    map node_key (snd (kill_list_loop signum l)) = map node_key l.
Proof.
  intros signum. induction l as [|a l IH]; [reflexivity|].
  cbn [kill_list_loop].
  destruct (kill_list_loop signum l) as [sent_rest rest'].
  cbn [snd] in IH.
  destruct (negb (ss_ignore_run a =? 0)).
  - cbn [snd map]. rewrite IH. reflexivity.
  - destruct (kill_instances signum
                (firstn (Z.to_nat (ss_num_instances a)) (ss_stats a)))
      as [sent visited].
    cbn [snd map]. rewrite IH. reflexivity.
Qed.

Lemma run_kill_log :
  forall sig force st,
    r_checksum (run_kill sig force st) = r_checksum st
    /\ r_slots (run_kill sig force st) = r_slots st
    /\ r_forked (run_kill sig force st) = r_forked st
    /\ map node_key (r_list (run_kill sig force st))
       = map node_key (r_list st).
Proof.
  intros sig force st. unfold run_kill, stress_kill_stressors.
  match goal with
  | |- context [kill_list_loop ?s ?l] =>
      pose proof (kill_list_loop_keys s l) as Hk;
      destruct (kill_list_loop s l) as [sent l']
  end.
  cbn [snd] in Hk. cbn. repeat split. exact Hk.
Qed.

Lemma planned_at_keys :
  forall l1 l2 nodes,
    map node_key l1 = map node_key l2 ->
    planned_at l1 nodes = planned_at l2 nodes.
Proof.
  intros l1 l2 nodes Hk.
  induction nodes as [|i nodes IH]; [reflexivity|].
  cbn [planned_at fold_right]. fold (planned_at l1 nodes).
  fold (planned_at l2 nodes). rewrite IH. f_equal.
  assert (H : nth_error (map node_key l1) i = nth_error (map node_key l2) i)
    by (rewrite Hk; reflexivity).
  rewrite !nth_error_map in H.
  destruct (nth_error l1 i) as [a|], (nth_error l2 i) as [b|];
    cbn [option_map] in H; try discriminate; [|reflexivity].
  injection H as _ Hr Hp Hn. unfold participates. rewrite Hr, Hp, Hn.
  reflexivity.
Qed.

Lemma planned_at_seq :
  forall l pre,
    planned_at (pre ++ l) (seq (length pre) (length l)) = planned_instances l.
Proof.
  induction l as [|a l IH]; intros pre; [reflexivity|].
  cbn [length seq planned_at planned_instances fold_right].
  rewrite nth_error_app2 by lia. rewrite Nat.sub_diag. cbn [nth_error].
  f_equal.
  specialize (IH (pre ++ [a])).
  rewrite <- app_assoc, length_app in IH. cbn [length app] in IH.
  rewrite Nat.add_1_r in IH. exact IH.
Qed.

Lemma planned_at_nonneg :
  forall l nodes, 0 <= planned_at l nodes.
Proof.
  intros l. induction nodes as [|i nodes IH]; cbn [planned_at fold_right].
  - lia.
  - fold (planned_at l nodes).
    destruct (nth_error l i) as [ss|]; [destruct (participates ss)|]; lia.
Qed.

Lemma log_grows_refl :
  forall lo hs hf st, log_grows lo hs hf st st.
Proof.
  intros lo hs hf st. exists [], []. rewrite !app_nil_r.
  split; [reflexivity|]. split; [reflexivity|].
  split; [intros e []|]. split; [intros e []|]. constructor.
Qed.

Lemma log_grows_trans :
  forall lo mid hs1 hs2 hf2 hs hf st st1 st2,
    log_grows lo hs1 mid st st1 ->
    log_grows mid hs2 hf2 st1 st2 ->
    lo <= mid -> mid <= hf -> hs1 <= hs -> hs2 <= hs -> hf2 <= hf ->
    log_grows lo hs hf st st2.
Proof.
  intros lo mid hs1 hs2 hf2 hs hf st st1 st2
         [ns1 [nf1 [Hs1 [Hf1 [Hbs1 [Hbf1 Hnd1]]]]]]
         [ns2 [nf2 [Hs2 [Hf2 [Hbs2 [Hbf2 Hnd2]]]]]] Hlo Hmid H1 H2 H3.
  exists (ns1 ++ ns2), (nf1 ++ nf2).
  split; [rewrite Hs2, Hs1, app_assoc; reflexivity|].
  split; [rewrite Hf2, Hf1, app_assoc; reflexivity|].
  split.
  { intros e He. apply in_app_or in He. destruct He as [He|He].
    - specialize (Hbs1 e He). lia.
    - specialize (Hbs2 e He). lia. }
  split.
  { intros e He. apply in_app_or in He. destruct He as [He|He].
    - specialize (Hbf1 e He). lia.
    - specialize (Hbf2 e He). lia. }
  rewrite map_app. apply NoDup_app; [exact Hnd1|exact Hnd2|].
  intros c Hc1 Hc2.
  apply in_map_iff in Hc1. destruct Hc1 as [e1 [<- He1]].
  apply in_map_iff in Hc2. destruct Hc2 as [e2 [Heq He2]].
  specialize (Hbf1 e1 He1). specialize (Hbf2 e2 He2). lia.
Qed.

Lemma log_grows_weaken :
  forall lo hs hf hs' hf' st st',
    log_grows lo hs hf st st' -> hs <= hs' -> hf <= hf' ->
    log_grows lo hs' hf' st st'.
Proof.
  intros lo hs hf hs' hf' st st' [ns [nf [Hs [Hf [Hbs [Hbf Hnd]]]]]] H1 H2.
  exists ns, nf. split; [exact Hs|]. split; [exact Hf|].
  split; [intros e He; specialize (Hbs e He); lia|].
  split; [intros e He; specialize (Hbf e He); lia|]. exact Hnd.
Qed.

(** From [again:] on: the pointer stays, at most one worker is
    logged, with the index the pointer stands at, and none on a
    [break]. *)
Lemma fork_tries_log :
  forall i j tries st st1 ex,
    fork_tries i j tries st = Some (st1, ex) ->
    r_checksum st1 = r_checksum st
    /\ r_slots st1 = r_slots st
    /\ (r_forked st1 = r_forked st
        \/ (ex <> SlotBreak
            /\ exists pid, r_forked st1 = r_forked st ++ [(pid, r_checksum st)]))
    /\ map node_key (r_list st1) = map node_key (r_list st).
Proof.
  intros i j. induction tries as [|t tries IH]; intros st st1 ex H.
  - discriminate.
  - assert (Hforked :
              forall pid,
                r_checksum (run_forked i j pid st) = r_checksum st
                /\ r_slots (run_forked i j pid st) = r_slots st
                /\ (r_forked (run_forked i j pid st) = r_forked st
                    \/ r_forked (run_forked i j pid st)
                       = r_forked st ++ [(pid, r_checksum st)])
                /\ map node_key (r_list (run_forked i j pid st))
                   = map node_key (r_list st)).
    { intros pid. unfold run_forked. destruct (-1 <? pid); cbn.
      - repeat split; [right; reflexivity|apply map_slot_keys].
      - repeat split. left. reflexivity. }
    destruct t as [ | | | pid cont]; cbn [fork_tries] in H.
    + injection H as <- <-. repeat split. left. reflexivity.
    + apply IH. exact H.
    + injection H as <- <-.
      destruct (run_kill_log SIGALRM false st) as [Hc [Hs [Hf Hk]]].
      repeat split; try assumption. left. exact Hf.
    + destruct (Hforked pid) as [Hc [Hs [Hf Hk]]].
      destruct cont.
      * injection H as <- <-. split; [exact Hc|]. split; [exact Hs|].
        split; [|exact Hk].
        destruct Hf as [Hf|Hf]; [left; exact Hf|right].
        split; [discriminate|]. exists pid. exact Hf.
      * injection H as <- <-.
        destruct (run_kill_log SIGALRM true (run_forked i j pid st))
          as [Hc' [Hs' [Hf' Hk']]].
        split; [congruence|]. split; [congruence|].
        split; [|congruence].
        rewrite Hf'.
        destruct Hf as [Hf|Hf]; [left; exact Hf|right].
        split; [discriminate|]. exists pid. exact Hf.
Qed.

(** The body of the inner loop. *)
Lemma fork_slot_log :
  forall env i j st st1 ex,
    fork_slot env i j st = Some (st1, ex) ->
    r_checksum st1 = r_checksum st
    /\ log_grows (r_checksum st) (r_checksum st + 1)
         (if match ex with SlotBreak => true | _ => false end
          then r_checksum st else r_checksum st + 1) st st1
    /\ map node_key (r_list st1) = map node_key (r_list st).
Proof.
  intros env i j st st1 ex H. unfold fork_slot in H.
  destruct (fe_timeout env i j).
  - injection H as <- <-. split; [reflexivity|].
    split; [apply log_grows_refl|reflexivity].
  - destruct (fork_tries_log _ _ _ _ _ _ H) as [Hc [Hs [Hf Hk]]].
    cbn [slot_assign r_checksum r_slots r_forked r_list] in Hc, Hs, Hf, Hk.
    rewrite map_slot_keys in Hk.
    split; [exact Hc|]. split; [|exact Hk].
    destruct Hf as [Hf | [Hne [pid Hf]]].
    + exists [(i, j, r_checksum st)], [].
      rewrite app_nil_r. split; [exact Hs|]. split; [exact Hf|].
      split.
      { intros e [<- | []]. cbn [snd]. lia. }
      split; [intros e []|constructor].
    + exists [(i, j, r_checksum st)], [(pid, r_checksum st)].
      split; [exact Hs|]. split; [exact Hf|].
      split.
      { intros e [<- | []]. cbn [snd]. lia. }
      split.
      { intros e [<- | []]. cbn [snd].
        destruct ex; try lia. contradiction. }
      cbn [map snd]. constructor; [intros []|constructor].
Qed.

(** The inner loop. *)
Lemma fork_instances_log :
  forall env i js st st' ex,
    fork_instances env i js st = Some (st', ex) ->
    r_checksum st <= r_checksum st'
                  <= r_checksum st + Z.of_nat (length js)
    /\ log_grows (r_checksum st) (r_checksum st + Z.of_nat (length js))
         (match ex with
          | RunOn => r_checksum st'
          | _ => r_checksum st + Z.of_nat (length js)
          end) st st'
    /\ map node_key (r_list st') = map node_key (r_list st).
Proof.
  intros env i. induction js as [|j js IH]; intros st st' ex H.
  - injection H as <- <-. cbn [length]. split; [lia|].
    split; [apply log_grows_refl|reflexivity].
  - cbn [fork_instances] in H.
    destruct (fork_slot env i j st) as [[st1 sx]|] eqn:H1; [|discriminate].
    destruct (fork_slot_log _ _ _ _ _ _ H1) as [Hc [Hg Hk]].
    cbn [length]. rewrite Nat2Z.inj_succ.
    destruct sx.
    + (* j++, checksum++ *)
      destruct (IH _ _ _ H) as [Hc' [Hg' Hk']].
      cbn [next_checksum r_checksum r_list] in Hc', Hg', Hk'.
      rewrite Hc in Hc', Hg'.
      split; [lia|]. split; [|congruence].
      assert (Hstep : log_grows (r_checksum st) (r_checksum st + 1)
                        (r_checksum st + 1) st (next_checksum st1)).
      { destruct Hg as [ns [nf Hg]]. exists ns, nf. exact Hg. }
      eapply log_grows_trans;
        [exact Hstep|exact Hg'|lia|destruct ex; lia|lia|lia|destruct ex; lia].
    + injection H as <- <-. rewrite Hc.
      split; [lia|]. split; [|exact Hk].
      eapply log_grows_weaken; [exact Hg|lia|lia].
    + injection H as <- <-.
      split; [lia|]. split; [|exact Hk].
      eapply log_grows_weaken; [exact Hg|lia|lia].
    + injection H as <- <-.
      split; [lia|]. split; [|exact Hk].
      eapply log_grows_weaken; [exact Hg|lia|lia].
Qed.

(** The outer loop. *)
Lemma fork_nodes_log :
  forall env nodes st st' ex,
    fork_nodes env nodes st = Some (st', ex) ->
    r_checksum st <= r_checksum st'
                  <= r_checksum st + planned_at (r_list st) nodes
    /\ log_grows (r_checksum st)
         (r_checksum st + planned_at (r_list st) nodes)
         (r_checksum st + planned_at (r_list st) nodes) st st'
    /\ map node_key (r_list st') = map node_key (r_list st).
Proof.
  intros env. induction nodes as [|i nodes IH]; intros st st' ex H.
  - injection H as <- <-. cbn [planned_at fold_right]. split; [lia|].
    split; [apply log_grows_refl|reflexivity].
  - cbn [fork_nodes] in H.
    cbn [planned_at fold_right]. fold (planned_at (r_list st) nodes).
    pose proof (planned_at_nonneg (r_list st) nodes) as Hpn.
    assert (Hskip :
              forall z, 0 <= z ->
                fork_nodes env nodes st = Some (st', ex) ->
                r_checksum st <= r_checksum st'
                  <= r_checksum st + (z + planned_at (r_list st) nodes)
                /\ log_grows (r_checksum st)
                     (r_checksum st + (z + planned_at (r_list st) nodes))
                     (r_checksum st + (z + planned_at (r_list st) nodes)) st st'
                /\ map node_key (r_list st') = map node_key (r_list st)).
    { intros z Hz H'. destruct (IH _ _ _ H') as [Hc [Hg Hk]].
      split; [lia|]. split; [|exact Hk].
      eapply log_grows_weaken; [exact Hg|lia|lia]. }
    destruct (nth_error (r_list st) i) as [ss|] eqn:Hi;
      [|apply Hskip; [lia|exact H]].
    unfold participates.
    destruct (negb (ss_ignore_run ss =? 0) || ss_ignore_permute ss);
      cbn [negb]; [apply Hskip; [lia|exact H]|].
    clear Hskip.
    destruct (fork_instances env i (seq 0 (Z.to_nat (ss_num_instances ss))) st)
      as [[st1 ex1]|] eqn:H1; [|discriminate].
    destruct (fork_instances_log _ _ _ _ _ _ H1) as [Hc1 [Hg1 Hk1]].
    rewrite length_seq in Hc1, Hg1.
    destruct ex1.
    + destruct (IH _ _ _ H) as [Hc [Hg Hk]].
      rewrite (planned_at_keys _ _ nodes Hk1) in Hc, Hg.
      split; [lia|]. split; [|congruence].
      eapply log_grows_trans; [exact Hg1|exact Hg|lia|lia|lia|lia|lia].
    + injection H as <- <-. split; [lia|]. split; [|exact Hk1].
      eapply log_grows_weaken; [exact Hg1|lia|lia].
    + injection H as <- <-. split; [lia|]. split; [|exact Hk1].
      eapply log_grows_weaken; [exact Hg1|lia|lia].
Qed.

Lemma fork_tries_returns :
  forall i j tries st,
    fork_returns tries = true ->
    exists r, fork_tries i j tries st = Some r.
Proof.
  intros i j. induction tries as [|t tries IH]; intros st H; [discriminate|].
  destruct t as [ | | | pid cont]; cbn [fork_tries].
  - eexists; reflexivity.
  - apply IH. exact H.
  - eexists; reflexivity.
  - destruct cont; eexists; reflexivity.
Qed.

Section ForkReturns.

Variable env : fork_env.
Hypothesis Hret : forall i j, fork_returns (fe_tries env i j) = true.

Lemma fork_instances_returns :
  forall i js st, exists r, fork_instances env i js st = Some r.
Proof.
  intros i. induction js as [|j js IH]; intros st; cbn [fork_instances].
  - eexists; reflexivity.
  - unfold fork_slot. destruct (fe_timeout env i j); [eexists; reflexivity|].
    destruct (fork_tries_returns i j _ (slot_assign i j st) (Hret i j))
      as [[st1 sx] ->].
    destruct sx; try (eexists; reflexivity). apply IH.
Qed.

Lemma fork_nodes_returns :
  forall nodes st, exists r, fork_nodes env nodes st = Some r.
Proof.
  induction nodes as [|i nodes IH]; intros st; cbn [fork_nodes].
  - eexists; reflexivity.
  - destruct (nth_error (r_list st) i) as [ss|]; [|apply IH].
    destruct (negb (ss_ignore_run ss =? 0) || ss_ignore_permute ss); [apply IH|].
    destruct (fork_instances_returns i
                (seq 0 (Z.to_nat (ss_num_instances ss))) st) as [[st1 ex] ->].
    destruct ex; try (eexists; reflexivity). apply IH.
Qed.

End ForkReturns.

Lemma planned_le_sum :
  forall l,
    Forall (fun ss => 0 <= ss_num_instances ss) l ->
    planned_instances l <= sum_num_instances l.
Proof.
  induction 1 as [|ss l Hss Hl IH]; cbn [planned_instances sum_num_instances fold_right].
  - lia.
  - fold (planned_instances l). fold (sum_num_instances l).
    destruct (participates ss); lia.
Qed.

(** X24: the checksum slots the fork loop of stress_run() hands out,
    on a call for the whole list with the pointer at index [c0]. If
    fork() does not fail with EAGAIN for ever the loop ends, and then:
    the pointer has moved forward by at most the number of instances
    of the stressors that take part; every index a [stats->checksum]
    was set to, and every index a forked worker runs with, lies within
    that many slots from [c0]; no two workers forked by the loop are
    given the same slot. With instance counts that are not negative
    and do not overflow, that number is at most
    stress_get_total_num_instances(), the number of slots main() maps. *)
Theorem fork_loop_checksum_slots :
  forall env c0 kill_count l,
    (forall i j, fork_returns (fe_tries env i j) = true) ->
    Forall (fun ss => 0 <= ss_num_instances ss) l ->
    sum_num_instances l < 2 ^ 31 ->
    exists st' ex,
      run_fork_loop env c0 kill_count l = Some (st', ex)
      /\ c0 <= r_checksum st' <= c0 + planned_instances l
      /\ (forall e, In e (r_slots st') ->
          c0 <= snd e < c0 + planned_instances l)
      /\ (forall e, In e (r_forked st') ->
          c0 <= snd e < c0 + planned_instances l)
      /\ NoDup (map snd (r_forked st'))
      /\ planned_instances l <= stress_get_total_num_instances l.
Proof.
  intros env c0 kc l Hret Hall Hsum. unfold run_fork_loop.
  destruct (fork_nodes_returns env Hret (seq 0 (length l))
              (mk_run l c0 0 kc [] [] [])) as [[st' ex] Hrun].
  exists st', ex. split; [exact Hrun|].
  destruct (fork_nodes_log _ _ _ _ _ Hrun) as [Hc [Hg _]].
  cbn [r_checksum r_list] in Hc, Hg.
  pose proof (planned_at_seq l []) as Hp. cbn [app length] in Hp.
  rewrite Hp in Hc, Hg.
  destruct Hg as [ns [nf [Hs [Hf [Hbs [Hbf Hnd]]]]]].
  cbn [r_slots r_forked app] in Hs, Hf. rewrite Hs, Hf.
  split; [exact Hc|]. split; [exact Hbs|]. split; [exact Hbf|].
  split; [exact Hnd|].
  unfold stress_get_total_num_instances.
  assert (H0 : 0 <= sum_num_instances l).
  { clear -Hall. induction Hall; cbn [sum_num_instances fold_right]; [lia|].
    fold (sum_num_instances l). lia. }
  rewrite (total_num_instances_loop l 0 Hall) by lia.
  pose proof (planned_le_sum l Hall). lia.
Qed.

Lemma fork_loop_checksum_slots_witness :
  exists st' ex,
    run_fork_loop sample_fork_env 0 0 sample_fresh = Some (st', ex)
    /\ 0 <= r_checksum st' <= 0 + planned_instances sample_fresh
    /\ (forall e, In e (r_slots st') ->
        0 <= snd e < 0 + planned_instances sample_fresh)
    /\ (forall e, In e (r_forked st') ->
        0 <= snd e < 0 + planned_instances sample_fresh)
    /\ NoDup (map snd (r_forked st'))
    /\ planned_instances sample_fresh
       <= stress_get_total_num_instances sample_fresh.
Proof.
  apply (fork_loop_checksum_slots sample_fork_env 0 0 sample_fresh).
  - intros i j. destruct i; destruct j; reflexivity.
  - repeat constructor; simpl; lia.
  - vm_compute. reflexivity.
Defined.

Lemma map_slot_other :
  forall i j f l k,
    k <> i -> nth_error (map_slot i j f l) k = nth_error l k.
Proof.
  intros i j f l k Hk. unfold map_slot.
  destruct (nth_error l i) as [ss|]; [|reflexivity].
  destruct (nth_error (ss_stats ss) j) as [s|]; [|reflexivity].
  apply array_set_nth_error_neq. exact Hk.
Qed.

Lemma map_slot_same :
  forall i j f l ss s,
    nth_error l i = Some ss ->
    nth_error (ss_stats ss) j = Some s ->
    nth_error (map_slot i j f l) i
    = Some (set_stats ss (array_set j (f s) (ss_stats ss))).
Proof.
  intros i j f l ss s Hi Hj. unfold map_slot. rewrite Hi, Hj.
  apply array_set_nth_error_eq. apply nth_error_Some. rewrite Hi. discriminate.
Qed.

Lemma fork_tries_stopped :
  forall i j tries st,
    stopped_at_once tries = true ->
    fork_tries i j tries st = Some (st, SlotBreak).
Proof.
  intros i j. induction tries as [|t tries IH]; intros st H; [discriminate|].
  destruct t; cbn [fork_tries stopped_at_once] in *;
    try discriminate; [reflexivity|].
  apply IH. exact H.
Qed.

Section ForkStopped.

Variable env : fork_env.
Hypothesis Hnotime : forall i j, fe_timeout env i j = false.
Hypothesis Hstopped : forall i j, stopped_at_once (fe_tries env i j) = true.

(** The inner loop stops at its first slot. *)
Lemma fork_instances_stopped :
  forall i n st,
    fork_instances env i (seq 0 n) st
    = Some (match n with O => st | S _ => slot_assign i 0 st end, RunOn).
Proof.
  intros i n st. destruct n as [|n]; [reflexivity|].
  cbn [seq fork_instances]. unfold fork_slot.
  rewrite Hnotime, (fork_tries_stopped i 0 _ _ (Hstopped i 0)). reflexivity.
Qed.

Lemma fork_nodes_stopped :
  forall nodes st,
    NoDup nodes ->
    exists st',
      fork_nodes env nodes st = Some (st', RunOn)
      /\ r_forked st' = r_forked st
      /\ r_sent st' = r_sent st
      /\ r_started st' = r_started st
      /\ r_checksum st' = r_checksum st
      /\ forall k ss,
           nth_error (r_list st) k = Some ss ->
           (~ In k nodes -> nth_error (r_list st') k = Some ss)
           /\ (forall s,
                 In k nodes ->
                 participates ss = true ->
                 (0 < Z.to_nat (ss_num_instances ss))%nat ->
                 nth_error (ss_stats ss) 0 = Some s ->
                 nth_error (r_list st') k
                 = Some (set_stats ss (array_set 0 (slot_init s) (ss_stats ss)))).
Proof.
  induction nodes as [|i nodes IH]; intros st Hnd.
  - exists st. repeat split; try reflexivity.
    + intros _. exact H.
    + intros s [].
  - apply NoDup_cons_iff in Hnd. destruct Hnd as [Hni Hnd].
    cbn [fork_nodes].
    assert (Hskip :
              (forall ss, nth_error (r_list st) i = Some ss ->
                          participates ss = false
                          \/ Z.to_nat (ss_num_instances ss) = O) ->
              exists st',
                fork_nodes env nodes st = Some (st', RunOn)
                /\ r_forked st' = r_forked st
                /\ r_sent st' = r_sent st
                /\ r_started st' = r_started st
                /\ r_checksum st' = r_checksum st
                /\ forall k ss,
                     nth_error (r_list st) k = Some ss ->
                     (~ In k (i :: nodes) -> nth_error (r_list st') k = Some ss)
                     /\ (forall s,
                           In k (i :: nodes) ->
                           participates ss = true ->
                           (0 < Z.to_nat (ss_num_instances ss))%nat ->
                           nth_error (ss_stats ss) 0 = Some s ->
                           nth_error (r_list st') k
                           = Some (set_stats ss
                                     (array_set 0 (slot_init s) (ss_stats ss))))).
    { intros Hout. destruct (IH st Hnd) as [st' [Hrun [Hf [Hs [Hst [Hc Hn]]]]]].
      exists st'. split; [exact Hrun|]. split; [exact Hf|]. split; [exact Hs|].
      split; [exact Hst|]. split; [exact Hc|].
      intros k ss Hk. destruct (Hn k ss Hk) as [Hn1 Hn2]. split.
      - intros Hnot. apply Hn1. intros Hin. apply Hnot. right. exact Hin.
      - intros s [<- | Hin] Hp Hpos Hs0.
        + destruct (Hout ss Hk) as [Hp' | Hz]; [congruence|lia].
        + apply Hn2; assumption. }
    destruct (nth_error (r_list st) i) as [a|] eqn:Hi.
    + destruct (negb (ss_ignore_run a =? 0) || ss_ignore_permute a) eqn:Hig.
      * apply Hskip. intros ss Hss. injection Hss as <-. left.
        unfold participates. rewrite Hig. reflexivity.
      * rewrite fork_instances_stopped.
        destruct (Z.to_nat (ss_num_instances a)) as [|n] eqn:Hn.
        -- apply Hskip. intros ss Hss. injection Hss as <-. right. exact Hn.
        -- clear Hskip.
           destruct (IH (slot_assign i 0 st) Hnd)
             as [st' [Hrun [Hf [Hs [Hst [Hc Hnodes]]]]]].
           exists st'. split; [exact Hrun|].
           cbn [slot_assign r_forked r_sent r_started r_checksum r_list]
             in Hf, Hs, Hst, Hc, Hnodes.
           split; [exact Hf|]. split; [exact Hs|]. split; [exact Hst|].
           split; [exact Hc|].
           intros k ss Hk. split.
           ++ intros Hnot.
              assert (Hne : k <> i) by (intros ->; apply Hnot; left; reflexivity).
              assert (Hk1 : nth_error (map_slot i 0 slot_init (r_list st)) k
                            = Some ss)
                by (rewrite map_slot_other by exact Hne; exact Hk).
              apply (Hnodes k ss Hk1).
              intros Hin. apply Hnot. right. exact Hin.
           ++ intros s Hin Hp Hpos Hs0. destruct Hin as [<- | Hin].
              ** rewrite Hk in Hi. injection Hi as <-.
                 pose proof (map_slot_same i 0 slot_init _ _ _ Hk Hs0) as Hk1.
                 apply (Hnodes i _ Hk1). exact Hni.
              ** assert (Hne : k <> i) by (intros ->; contradiction).
                 assert (Hk1 : nth_error (map_slot i 0 slot_init (r_list st)) k
                               = Some ss)
                   by (rewrite map_slot_other by exact Hne; exact Hk).
                 apply (Hnodes k ss Hk1); assumption.
    + apply Hskip. intros ss Hss. discriminate.
Qed.

End ForkStopped.

(** X25: the fork loop of stress_run() entered with the continue flag
    already cleared (no timeout). The loop runs through the whole
    list: nothing is forked, no signal is sent and the checksum
    pointer stays where it was. But the four writes before [again:]
    are made for the first instance of every stressor that takes
    part: its slot is left with pid -1, counter_ready set and the
    counter at 0. Unless it carries the signalled mark of an earlier
    run, the slot is one stress_kill_stressors() sends its signal to,
    with pid -1. *)
Theorem fork_loop_stopped :
  forall env c0 kill_count l k ss s,
    (forall i j, fe_timeout env i j = false) ->
    (forall i j, stopped_at_once (fe_tries env i j) = true) ->
    nth_error l k = Some ss ->
    participates ss = true ->
    0 < ss_num_instances ss ->
    nth_error (ss_stats ss) 0 = Some s ->
    exists st',
      run_fork_loop env c0 kill_count l = Some (st', RunOn)
      /\ r_forked st' = []
      /\ r_sent st' = []
      /\ r_started st' = 0
      /\ r_checksum st' = c0
      /\ nth_error (r_list st') k
         = Some (set_stats ss (array_set 0 (slot_init s) (ss_stats ss)))
      /\ (st_signalled s = true \/ In (-1) (kill_targets (r_list st'))).
Proof.
  intros env c0 kc l k ss s Hnotime Hstopped Hk Hp Hpos Hs0.
  unfold run_fork_loop.
  destruct (fork_nodes_stopped env Hnotime Hstopped (seq 0 (length l))
              (mk_run l c0 0 kc [] [] []) (seq_NoDup _ _))
    as [st' [Hrun [Hf [Hs [Hst [Hc Hnodes]]]]]].
  cbn [r_forked r_sent r_started r_checksum r_list] in Hf, Hs, Hst, Hc, Hnodes.
  exists st'. split; [exact Hrun|]. split; [exact Hf|]. split; [exact Hs|].
  split; [exact Hst|]. split; [exact Hc|].
  destruct (Hnodes k ss Hk) as [_ Hin].
  assert (Hk' : nth_error (r_list st') k
                = Some (set_stats ss (array_set 0 (slot_init s) (ss_stats ss)))).
  { apply Hin; try assumption; [|lia].
    apply in_seq. split; [lia|]. cbn.
    apply nth_error_Some. rewrite Hk. discriminate. }
  split; [exact Hk'|].
  destruct (st_signalled s) eqn:Hsig; [left; reflexivity|right].
  change (-1) with (st_pid (slot_init s)).
  apply (kill_targets_in _ k 0%nat _ (slot_init s) Hk').
  - unfold participates in Hp. cbn [set_stats ss_ignore_run].
    destruct (Z.eqb_spec (ss_ignore_run ss) 0) as [E|E]; [exact E|].
    cbn in Hp. discriminate.
  - cbn [set_stats ss_num_instances]. lia.
  - cbn [set_stats ss_stats]. apply array_set_nth_error_eq.
    apply nth_error_Some. rewrite Hs0. discriminate.
  - unfold is_target, slot_init. cbn [st_pid st_signalled]. rewrite Hsig.
    reflexivity.
Qed.

Lemma fork_loop_stopped_witness :
  exists st',
    run_fork_loop sample_fork_stopped 0 0 sample_fresh = Some (st', RunOn)
    /\ r_forked st' = []
    /\ r_sent st' = []
    /\ r_started st' = 0
    /\ r_checksum st' = 0
    /\ nth_error (r_list st') 1
       = Some (sample_stressor 2 [slot_init sample_stats])
    /\ (false = true \/ In (-1) (kill_targets (r_list st'))).
Proof.
  apply (fork_loop_stopped sample_fork_stopped 0 0 sample_fresh 1%nat
           (sample_stressor 2 [sample_stats]) sample_stats).
  - intros i j. reflexivity.
  - intros i j. reflexivity.
  - reflexivity.
  - reflexivity.
  - simpl. lia.
  - reflexivity.
Defined.

(** ** The random choice of stressors *)

Lemma array_set_app :
  forall (A : Type) (pre : list A) a post x,
    array_set (length pre) x (pre ++ a :: post) = pre ++ x :: post.
Proof.
  intros A. induction pre as [|b pre IH]; intros a post x; [reflexivity|].
  cbn [length app array_set]. rewrite IH. reflexivity.
Qed.

Lemma sum_num_instances_app :
  forall pre post,
    sum_num_instances (pre ++ post)
    = sum_num_instances pre + sum_num_instances post.
Proof.
  induction pre as [|a pre IH]; intros post;
    cbn [app sum_num_instances fold_right]; [reflexivity|].
  fold (sum_num_instances (pre ++ post)). fold (sum_num_instances pre).
  rewrite IH. lia.
Qed.

Lemma enabled_flags :
  forall l l',
    map stressor_flags l' = map stressor_flags l ->
    length (enabled l') = length (enabled l).
Proof.
  induction l as [|a l IH]; intros l' H; destruct l' as [|a' l'];
    try discriminate; [reflexivity|].
  cbn [map] in H. injection H as Hid Hrun Hperm Hrest.
  cbn [enabled filter]. rewrite Hrun. fold (enabled l'). fold (enabled l).
  destruct (ss_ignore_run a =? 0); cbn [length]; rewrite (IH l' Hrest);
    reflexivity.
Qed.

Lemma instances_le_trans :
  forall l1 l2 l3 : list stress_stressor_t,
    Forall2 (fun ss ss' => ss_num_instances ss <= ss_num_instances ss') l1 l2 ->
    Forall2 (fun ss ss' => ss_num_instances ss <= ss_num_instances ss') l2 l3 ->
    Forall2 (fun ss ss' => ss_num_instances ss <= ss_num_instances ss') l1 l3.
Proof.
  intros l1 l2 l3 H12. revert l3.
  induction H12 as [|a b la lb Hab Hrest IH]; intros l3 H23.
  - inversion H23; subst. constructor.
  - inversion H23 as [|? c ? lc Hbc Hrest']; subst.
    constructor; [lia|]. apply IH. exact Hrest'.
Qed.

(** The loop: one instance more per round, [n] rounds. *)
Lemma random_loop_spec :
  forall picks n l,
    Z.of_nat (length (enabled l)) < 2 ^ 32 ->
    Forall (fun i => 0 <= i < Z.of_nat (length (enabled l))) picks ->
    n <= Z.of_nat (length picks) ->
    Forall (fun ss => - 2 ^ 31 <= ss_num_instances ss
                      /\ ss_num_instances ss + Z.max 0 n < 2 ^ 31) l ->
    exists l',
      random_loop n picks l = Some l'
      /\ map stressor_flags l' = map stressor_flags l
      /\ sum_num_instances l' = sum_num_instances l + Z.max 0 n
      /\ Forall2 (fun ss ss' => ss_num_instances ss <= ss_num_instances ss') l l'.
Proof.
  assert (Hrefl : forall l : list stress_stressor_t,
            Forall2 (fun ss ss' => ss_num_instances ss <= ss_num_instances ss')
                    l l).
  { induction l; constructor; [lia|assumption]. }
  induction picks as [|i picks IH]; intros n l Hb Hpicks Hn Hall.
  - cbn [length] in Hn. cbn [random_loop].
    destruct (Z.ltb_spec 0 n) as [Hpos|Hle]; [lia|].
    exists l. repeat split; [lia|apply Hrefl].
  - cbn [random_loop].
    destruct (Z.ltb_spec 0 n) as [Hpos|Hle].
    2:{ exists l. repeat split; [lia|apply Hrefl]. }
    inversion Hpicks as [|? ? Hi Hrest]; subst.
    destruct (get_nth_loop_spec l 0 i ltac:(lia) ltac:(lia))
      as [pre [ss [post [Hl [Hg _]]]]].
    unfold stress_get_nth_stressor. rewrite Hg.
    assert (Hpos' : (length l - length (ss :: post))%nat = length pre).
    { rewrite Hl, length_app. lia. }
    rewrite Hpos'.
    assert (Hset : array_set (length pre) (bump_instances ss) l
                   = pre ++ bump_instances ss :: post)
      by (rewrite Hl; apply array_set_app).
    rewrite Hset.
    assert (Hss : - 2 ^ 31 <= ss_num_instances ss
                  /\ ss_num_instances ss + Z.max 0 n < 2 ^ 31).
    { rewrite Forall_forall in Hall. apply Hall. rewrite Hl.
      apply in_or_app. right. left. reflexivity. }
    assert (Hw : wrap_int (ss_num_instances ss + 1) = ss_num_instances ss + 1)
      by (apply wrap_int_small; lia).
    assert (Hflags : map stressor_flags (pre ++ bump_instances ss :: post)
                     = map stressor_flags l).
    { rewrite Hl, !map_app. reflexivity. }
    pose proof (enabled_flags _ _ Hflags) as Hen.
    destruct (IH (n - 1) (pre ++ bump_instances ss :: post)) as [l' [Hrun [Hf [Hsum Hmono]]]].
    + rewrite Hen. exact Hb.
    + rewrite Hen. exact Hrest.
    + cbn [length] in Hn. lia.
    + rewrite Hl in Hall. apply Forall_app in Hall. destruct Hall as [Hpre Hpost].
      inversion Hpost as [|? ? _ Hpost']; subst.
      apply Forall_app. split.
      * eapply Forall_impl; [|exact Hpre]. cbn beta. intros a Ha. lia.
      * constructor.
        -- cbn [bump_instances ss_num_instances]. rewrite Hw. lia.
        -- eapply Forall_impl; [|exact Hpost']. cbn beta. intros a Ha. lia.
    + exists l'. split; [exact Hrun|]. split; [congruence|].
      split.
      * rewrite Hsum, Hl, !sum_num_instances_app.
        cbn [sum_num_instances fold_right bump_instances ss_num_instances].
        rewrite Hw. lia.
      * rewrite Hl.
        assert (Hstep : Forall2 (fun ss ss' => ss_num_instances ss
                                               <= ss_num_instances ss')
                          (pre ++ ss :: post) (pre ++ bump_instances ss :: post)).
        { apply Forall2_app; [clear; induction pre; constructor; [lia|assumption]|].
          constructor.
          - cbn [bump_instances ss_num_instances]. rewrite Hw. lia.
          - clear. induction post; constructor; [lia|assumption]. }
        eapply instances_le_trans; [exact Hstep|exact Hmono].
Qed.

(** X26: stress_set_random_stressors() with the random option set
    and no stressor chosen by hand. When some stressor is not ignored
    and every pick of stress_mwc32modn() is below their number, no
    pick yields NULL, so the loop ends after [opt_random] rounds (none
    for a count that is not positive) and the function returns: the
    ids and ignore flags of the list are as before, no instance count
    has gone down, and the counts have gone up by [opt_random] in
    sum (counts within int32). *)
Theorem set_random_stressors_spec :
  forall opt_random picks l,
    0 < stress_get_num_stressors l ->
    Z.of_nat (length (enabled l)) < 2 ^ 32 ->
    Forall (fun i => 0 <= i < stress_get_num_stressors l) picks ->
    opt_random <= Z.of_nat (length picks) ->
    Forall (fun ss => - 2 ^ 31 <= ss_num_instances ss
                      /\ ss_num_instances ss + Z.max 0 opt_random < 2 ^ 31) l ->
    exists l',
      stress_set_random_stressors true false opt_random picks l
      = Some (RandomSet l')
      /\ map stressor_flags l' = map stressor_flags l
      /\ sum_num_instances l' = sum_num_instances l + Z.max 0 opt_random
      /\ Forall2 (fun ss ss' => ss_num_instances ss <= ss_num_instances ss') l l'.
Proof.
  intros n picks l Hprocs Hb Hpicks Hn Hall.
  unfold stress_set_random_stressors.
  destruct (Z.eqb_spec (stress_get_num_stressors l) 0) as [E|_]; [lia|].
  unfold stress_get_num_stressors in Hpicks.
  rewrite get_num_stressors_loop in Hpicks by lia. cbn [Z.add] in Hpicks.
  destruct (random_loop_spec picks n l Hb Hpicks Hn Hall)
    as [l' [Hrun Hrest]].
  exists l'. rewrite Hrun. split; [reflexivity|exact Hrest].
Qed.

(** Three picks on a list with an excluded stressor at its head: the
    picks of index 0 land on that stressor. *)
Lemma set_random_stressors_spec_witness :
  exists l',
    stress_set_random_stressors true false 3 [0; 1; 0] sample_mixed
    = Some (RandomSet l')
    /\ map stressor_flags l' = map stressor_flags sample_mixed
    /\ sum_num_instances l' = sum_num_instances sample_mixed + Z.max 0 3
    /\ Forall2 (fun ss ss' => ss_num_instances ss <= ss_num_instances ss')
               sample_mixed l'.
Proof.
  apply (set_random_stressors_spec 3 [0; 1; 0] sample_mixed).
  - vm_compute. reflexivity.
  - vm_compute. reflexivity.
  - repeat constructor; vm_compute; discriminate.
  - simpl. lia.
  - repeat constructor; vm_compute; discriminate.
Defined.

(** ** The pids after the wait *)

Lemma map_array_set :
  forall (A B : Type) (f : A -> B) (l : list A) i x,
    map f (array_set i x l) = array_set i (f x) (map f l).
Proof.
  intros A B f. induction l as [|a l IH]; intros i x; [reflexivity|].
  destruct i as [|i]; cbn [array_set map]; [reflexivity|].
  rewrite IH. reflexivity.
Qed.

Lemma kill_instances_pids :
  forall signum l,
    map st_pid (snd (kill_instances signum l)) = map st_pid l.
Proof.
  intros signum. induction l as [|s l IH]; [reflexivity|].
  cbn [kill_instances].
  destruct (kill_instances signum l) as [sent rest']. cbn [snd] in IH.
  destruct (negb (st_pid s =? 0) && negb (st_signalled s));
    cbn [snd map set_signalled st_pid]; rewrite IH; reflexivity.
Qed.

Lemma kill_list_loop_pids :
  forall signum l i j,
    slot_pid (snd (kill_list_loop signum l)) i j = slot_pid l i j.
Proof.
  intros signum. unfold slot_pid.
  induction l as [|a l IH]; intros i j; [reflexivity|].
  cbn [kill_list_loop].
  destruct (kill_list_loop signum l) as [sent_rest rest'].
  cbn [snd] in IH.
  destruct (negb (ss_ignore_run a =? 0)).
  - destruct i as [|i]; cbn [snd nth_error]; [reflexivity|apply IH].
  - pose proof (kill_instances_pids signum
                  (firstn (Z.to_nat (ss_num_instances a)) (ss_stats a))) as Hp.
    destruct (kill_instances signum
                (firstn (Z.to_nat (ss_num_instances a)) (ss_stats a)))
      as [sent visited].
    cbn [snd] in Hp.
    destruct i as [|i]; cbn [snd nth_error]; [|apply IH].
    cbn [set_stats ss_stats]. rewrite map_app, Hp, <- map_app, firstn_skipn.
    reflexivity.
Qed.

Lemma kill_stressors_pids :
  forall sig force count l i j,
    slot_pid (kill_list (stress_kill_stressors sig force count l)) i j
    = slot_pid l i j.
Proof.
  intros sig force count l i j. unfold stress_kill_stressors.
  match goal with
  | |- context [kill_list_loop ?s l] =>
      pose proof (kill_list_loop_pids s l i j) as H;
      destruct (kill_list_loop s l) as [sent l']
  end.
  exact H.
Qed.

Lemma update_slot_pids :
  forall i j status pid l i' j',
    slot_pid (update_slot i j status pid l) i' j'
    = match slot_pid l i' j' with
      | Some p0 => Some (if Nat.eqb i' i && Nat.eqb j' j then pid else p0)
      | None => None
      end.
Proof.
  intros i j status pid l i' j'. unfold update_slot, slot_pid.
  destruct (Nat.eqb_spec i' i) as [-> | Hne]; cbn [andb].
  2:{ destruct (nth_error l i) as [ss|].
      - rewrite array_set_nth_error_neq by exact Hne.
        destruct (nth_error l i') as [ss'|]; [|reflexivity].
        destruct (nth_error (map st_pid (ss_stats ss')) j'); reflexivity.
      - destruct (nth_error l i') as [ss'|]; [|reflexivity].
        destruct (nth_error (map st_pid (ss_stats ss')) j'); reflexivity. }
  destruct (nth_error l i) as [ss|] eqn:Hi; [|rewrite Hi; reflexivity].
  rewrite array_set_nth_error_eq
    by (apply nth_error_Some; rewrite Hi; discriminate).
  cbn [set_status set_stats ss_stats].
  destruct (nth_error (ss_stats ss) j) as [s|] eqn:Hj.
  - rewrite map_array_set. cbn [set_pid st_pid].
    destruct (Nat.eqb_spec j' j) as [-> | Hnej].
    + rewrite array_set_nth_error_eq.
      * rewrite nth_error_map, Hj. reflexivity.
      * rewrite length_map. apply nth_error_Some. rewrite Hj. discriminate.
    + rewrite array_set_nth_error_neq by exact Hnej.
      destruct (nth_error (map st_pid (ss_stats ss)) j'); reflexivity.
  - destruct (Nat.eqb_spec j' j) as [-> | Hnej].
    + rewrite nth_error_map, Hj. reflexivity.
    + destruct (nth_error (map st_pid (ss_stats ss)) j'); reflexivity.
Qed.

Lemma wait_pid_settles :
  forall opt_abort oomed outcomes w,
    wait_settles outcomes = true ->
    exists r,
      stress_wait_pid opt_abort oomed outcomes w = Some r
      /\ w_pid (wr_state r) = 0.
Proof.
  intros opt_abort oomed outcomes w.
  induction outcomes as [|x outcomes IH]; intros H; [discriminate|].
  destruct x as [ret status | | | ]; cbn [stress_wait_pid wait_settles] in *.
  - rewrite H. eexists. split; [reflexivity|].
    unfold wait_reaped.
    match goal with
    | |- context [exit_switch ?a ?b] => destruct (exit_switch a b) as [w2 d]
    end.
    reflexivity.
  - apply IH. exact H.
  - eexists. split; reflexivity.
  - discriminate.
Qed.

Lemma wait_pid_pid :
  forall opt_abort oomed outcomes w r,
    stress_wait_pid opt_abort oomed outcomes w = Some r ->
    w_pid (wr_state r) = w_pid w \/ w_pid (wr_state r) = 0.
Proof.
  intros opt_abort oomed outcomes w.
  induction outcomes as [|x outcomes IH]; intros r H; [discriminate|].
  destruct x as [ret status | | | ]; cbn [stress_wait_pid] in H.
  - destruct (0 <? ret); injection H as <-.
    + right. unfold wait_reaped.
      match goal with
      | |- context [exit_switch ?a ?b] => destruct (exit_switch a b) as [w2 d]
      end.
      reflexivity.
    + left. reflexivity.
  - apply IH. exact H.
  - injection H as <-. right. reflexivity.
  - injection H as <-. left. reflexivity.
Qed.

Lemma wait_settles_returns :
  forall outcomes, wait_settles outcomes = true -> wait_returns outcomes = true.
Proof.
  induction outcomes as [|x outcomes IH]; intros H; [discriminate|].
  destruct x; cbn [wait_settles wait_returns existsb orb] in *;
    try reflexivity; try discriminate.
  apply IH. exact H.
Qed.

(** One slot: no other slot changes its pid; the pid of the slot is
    kept or cleared, and cleared when the wait settles. *)
Lemma wait_slot_pids :
  forall env i j o o',
    wait_slot env i j o = Some o' ->
    (forall i' j', slot_done (o_list o) i' j' -> slot_done (o_list o') i' j')
    /\ (wait_settles (we_outcomes env i j) = true ->
        slot_done (o_list o') i j).
Proof.
  intros env i j o o' H. unfold wait_slot in H.
  destruct (nth_error (o_list o) i) as [ss|] eqn:Hi.
  2:{ injection H as <-. split; [tauto|].
      intros _ p Hp. unfold slot_pid in Hp. rewrite Hi in Hp. discriminate. }
  destruct (nth_error (ss_stats ss) j) as [s|] eqn:Hj.
  2:{ injection H as <-. split; [tauto|].
      intros _ p Hp. unfold slot_pid in Hp.
      rewrite Hi, nth_error_map, Hj in Hp. discriminate. }
  assert (Hsp : slot_pid (o_list o) i j = Some (st_pid s)).
  { unfold slot_pid. rewrite Hi, nth_error_map, Hj. reflexivity. }
  destruct (Z.eqb_spec (st_pid s) 0) as [Hz|Hnz].
  { injection H as <-. split; [tauto|].
    intros _ p Hp. rewrite Hsp in Hp. injection Hp as <-. exact Hz. }
  match type of H with
  | context [stress_wait_pid ?a ?b ?c ?w] =>
      destruct (stress_wait_pid a b c w) as [r|] eqn:Hw; [|discriminate]
  end.
  injection H as <-. cbn [o_list].
  assert (Hpids : forall i' j',
            slot_pid (update_slot i j (w_status (wr_state r))
                        (w_pid (wr_state r))
                        (kill_list
                           (if wr_abort_broadcast r
                            then stress_kill_stressors SIGALRM true
                                   (o_kill_count o) (o_list o)
                            else mk_kill (o_kill_count o) [] (o_list o)))) i' j'
            = match slot_pid (o_list o) i' j' with
              | Some p0 => Some (if Nat.eqb i' i && Nat.eqb j' j
                                 then w_pid (wr_state r) else p0)
              | None => None
              end).
  { intros i' j'. rewrite update_slot_pids.
    destruct (wr_abort_broadcast r);
      [rewrite kill_stressors_pids|]; reflexivity. }
  split.
  - intros i' j' Hdone p Hp. rewrite Hpids in Hp.
    destruct (slot_pid (o_list o) i' j') as [p0|] eqn:Hp0; [|discriminate].
    injection Hp as <-. specialize (Hdone p0 Hp0). subst p0.
    destruct (Nat.eqb i' i && Nat.eqb j' j) eqn:Hij; [|reflexivity].
    apply andb_true_iff in Hij. destruct Hij as [Hi' Hj'].
    apply Nat.eqb_eq in Hi', Hj'. subst i' j'.
    rewrite Hsp in Hp0. injection Hp0 as Hp0. contradiction.
  - intros Hset p Hp. rewrite Hpids, Hsp, !Nat.eqb_refl in Hp. cbn [andb] in Hp.
    injection Hp as <-.
    destruct (wait_pid_settles (we_opt_abort env) (we_oomed env i j) _
                (mk_wait (ss_status ss) (st_pid s) (o_reaped o) (o_success o)
                         (o_resource_success o) (o_metrics_success o)) Hset)
      as [r' [Hr' Hz]].
    rewrite Hw in Hr'. injection Hr' as <-. exact Hz.
Qed.

Lemma wait_slots_keys :
  forall env i js o o',
    wait_slots env i js o = Some o' ->
    forall k ss,
      nth_error (o_list o) k = Some ss ->
      exists ss',
        nth_error (o_list o') k = Some ss' /\ node_key ss' = node_key ss.
Proof.
  intros env i. induction js as [|j js IH]; intros o o' H k ss Hk.
  - injection H as <-. exists ss. split; [exact Hk|reflexivity].
  - cbn [wait_slots] in H.
    destruct (wait_slot env i j o) as [o1|] eqn:H1; [|discriminate].
    destruct (wait_slot_nodes _ _ _ _ _ H1) as [_ Hn1].
    destruct (Hn1 k ss Hk) as [ss1 [Hk1 [Hkey1 _]]].
    destruct (IH _ _ H k ss1 Hk1) as [ss' [Hk' Hkey']].
    exists ss'. split; [exact Hk'|congruence].
Qed.

Section WaitSettles.

Variable env : wait_env.
Hypothesis Hsettles : forall i j, wait_settles (we_outcomes env i j) = true.

Lemma wait_slots_pids :
  forall i js o o',
    wait_slots env i js o = Some o' ->
    (forall i' j', slot_done (o_list o) i' j' -> slot_done (o_list o') i' j')
    /\ (forall j, In j js -> slot_done (o_list o') i j).
Proof.
  intros i. induction js as [|j js IH]; intros o o' H.
  - injection H as <-. split; [tauto|]. intros j [].
  - cbn [wait_slots] in H.
    destruct (wait_slot env i j o) as [o1|] eqn:H1; [|discriminate].
    destruct (wait_slot_pids _ _ _ _ _ H1) as [Hk1 Hd1].
    destruct (IH _ _ H) as [Hk2 Hd2].
    split.
    + intros i' j' Hd. apply Hk2, Hk1, Hd.
    + intros j0 [<- | Hin].
      * apply Hk2, Hd1, Hsettles.
      * apply Hd2, Hin.
Qed.

Lemma wait_nodes_pids :
  forall nodes o o',
    wait_nodes env nodes o = Some o' ->
    (forall i' j', slot_done (o_list o) i' j' -> slot_done (o_list o') i' j')
    /\ (forall i ss j,
          In i nodes ->
          nth_error (o_list o) i = Some ss ->
          participates ss = true ->
          (j < Z.to_nat (ss_num_instances ss))%nat ->
          slot_done (o_list o') i j).
Proof.
  induction nodes as [|i nodes IH]; intros o o' H.
  - injection H as <-. split; [tauto|]. intros i ss j [].
  - cbn [wait_nodes] in H.
    destruct (nth_error (o_list o) i) as [a|] eqn:Hi.
    + destruct (negb (ss_ignore_run a =? 0) || ss_ignore_permute a) eqn:Hig.
      * destruct (IH _ _ H) as [Hk Hd]. split; [exact Hk|].
        intros i0 ss j [<- | Hin] Hss Hp Hj.
        -- rewrite Hi in Hss. injection Hss as <-.
           unfold participates in Hp. rewrite Hig in Hp. discriminate.
        -- eapply Hd; eassumption.
      * destruct (wait_slots env i (seq 0 (Z.to_nat (ss_num_instances a))) o)
          as [o1|] eqn:H1; [|discriminate].
        destruct (wait_slots_pids _ _ _ _ H1) as [Hk1 Hd1].
        destruct (IH _ _ H) as [Hk2 Hd2].
        split; [intros i' j' Hd; apply Hk2, Hk1, Hd|].
        intros i0 ss j Hin Hss Hp Hj.
        destruct (Nat.eq_dec i0 i) as [-> | Hne].
        -- rewrite Hi in Hss. injection Hss as <-.
           apply Hk2, Hd1. apply in_seq. lia.
        -- destruct Hin as [E | Hin]; [congruence|].
           (* the node is the same for the rest of the walk, up to
              buckets, pids and marks *)
           destruct (wait_slots_keys _ _ _ _ _ H1 i0 ss Hss)
             as [ss1 [Hk1' Hkey1]].
           unfold node_key in Hkey1. injection Hkey1 as _ Hr Hpm Hnum.
           apply (Hd2 i0 ss1 j Hin Hk1').
           ++ unfold participates in *. rewrite Hr, Hpm. exact Hp.
           ++ rewrite Hnum. exact Hj.
    + destruct (IH _ _ H) as [Hk Hd]. split; [exact Hk|].
      intros i0 ss j [<- | Hin] Hss Hp Hj.
      * rewrite Hi in Hss. discriminate.
      * eapply Hd; eassumption.
Qed.

End WaitSettles.

Lemma wait_nodes_keys :
  forall env nodes o o',
    wait_nodes env nodes o = Some o' ->
    forall k ss,
      nth_error (o_list o) k = Some ss ->
      exists ss',
        nth_error (o_list o') k = Some ss' /\ node_key ss' = node_key ss.
Proof.
  intros env. induction nodes as [|i nodes IH]; intros o o' H k ss Hk.
  - injection H as <-. exists ss. split; [exact Hk|reflexivity].
  - cbn [wait_nodes] in H.
    destruct (nth_error (o_list o) i) as [a|]; [|eapply IH; eassumption].
    destruct (negb (ss_ignore_run a =? 0) || ss_ignore_permute a);
      [eapply IH; eassumption|].
    destruct (wait_slots env i (seq 0 (Z.to_nat (ss_num_instances a))) o)
      as [o1|] eqn:H1; [|discriminate].
    destruct (wait_slots_keys _ _ _ _ _ H1 k ss Hk) as [ss1 [Hk1 Hkey1]].
    destruct (IH _ _ H k ss1 Hk1) as [ss' [Hk' Hkey']].
    exists ss'. split; [exact Hk'|congruence].
Qed.

(** X27: stress_wait_stressors() (aggressive option off) when every
    wait settles, that is when the first return of shim_waitpid()
    other than EINTR reaps a child or reports ECHILD. The function
    returns, and every instance slot of every stressor that takes
    part has its pid cleared, whatever it held before (a worker's
    pid, or the -1 of a slot that was never forked); a pid that was 0
    before is 0 after, for every slot of the list. *)
Theorem wait_stressors_clears_pids :
  forall env o k ss,
    (forall i j, wait_settles (we_outcomes env i j) = true) ->
    nth_error (o_list o) k = Some ss ->
    participates ss = true ->
    exists o' ss',
      stress_wait_stressors env o = Some o'
      /\ nth_error (o_list o') k = Some ss'
      /\ Forall (fun s => st_pid s = 0) (instances ss')
      /\ forall i j, slot_done (o_list o) i j -> slot_done (o_list o') i j.
Proof.
  intros env o k ss Hset Hk Hp. unfold stress_wait_stressors.
  destruct (wait_nodes_returns env
              (fun i j => wait_settles_returns _ (Hset i j))
              (seq 0 (length (o_list o))) o) as [o' Ho'].
  destruct (wait_nodes_keys _ _ _ _ Ho' k ss Hk) as [ss' [Hk' Hkey]].
  destruct (wait_nodes_pids env Hset _ _ _ Ho') as [Hkeep Hdone].
  exists o', ss'. split; [exact Ho'|]. split; [exact Hk'|].
  split; [|exact Hkeep].
  unfold node_key in Hkey. injection Hkey as _ _ _ Hnum.
  apply Forall_forall. intros s Hin.
  destruct (In_nth_error _ _ Hin) as [j Hj].
  unfold instances in Hj. rewrite nth_error_firstn in Hj.
  destruct (Nat.ltb_spec j (Z.to_nat (ss_num_instances ss'))) as [Hlt|];
    [|discriminate].
  apply (Hdone k ss j).
  - apply in_seq. split; [lia|]. cbn.
    apply nth_error_Some. rewrite Hk. discriminate.
  - exact Hk.
  - exact Hp.
  - rewrite <- Hnum. exact Hlt.
  - unfold slot_pid. rewrite Hk', nth_error_map, Hj. reflexivity.
Qed.

Lemma wait_stressors_clears_pids_witness :
  exists o' ss',
    stress_wait_stressors sample_wait_env sample_orch = Some o'
    /\ nth_error (o_list o') 0 = Some ss'
    /\ Forall (fun s => st_pid s = 0) (instances ss')
    /\ forall i j, slot_done (o_list sample_orch) i j ->
                   slot_done (o_list o') i j.
Proof.
  apply (wait_stressors_clears_pids sample_wait_env sample_orch 0%nat
           (sample_stressor 1 [sample_live; set_pid sample_live 4243])).
  - intros i j. destruct j; reflexivity.
  - reflexivity.
  - reflexivity.
Defined.
